(** * To-do Manager: the task store of [script.js]

    The development follows [src/script.js].  Part I is the embedding: the
    data model, the methods of the host the script calls, and the functions
    and event handlers of the script, each with its statements in the order
    of the source.  Part II holds the theorems.

    Conventions of the embedding:
    - the global [tasks] array is a [list Task]; a task object is named by
      its position in it, and a handler that holds a task object works on
      the task at that position;
    - a handler is a function on the state of the page that may end with an
      exception; the state keeps what was done before the exception;
    - [applyFilters] copies and sorts arrays, so it runs on a store of
      arrays with references, where a copy and its original are told
      apart;
    - a [string] stands for the JavaScript string with the same code
      units, all below 256; numbers are exact; the clock, the random
      number generator, the notification interface and the controls of the
      page are inputs of the handlers, and the clock is read once per
      event;
    - [save()], which hands [tasks] to [localStorage], and the DOM are left
      out of the handlers: they do not change [tasks]; the text [save()]
      writes is given at the end of Part I.  The elements the script
      looks up by a fixed selector are taken to be on the page.  Of the
      DOM the two calls that can throw on the data of a task are kept:
      [classList.add] with the priority of a task, and the look-up of the
      delete button in the markup of a subtask, whose answer is the
      host's and is taken as the parameter [found]. *)

From Stdlib Require Import Ascii QArith Sorted.
From stdpp Require Import base list strings gmap.

Local Open Scope string_scope.
Local Open Scope list_scope.
Local Open Scope Z_scope.

(** ** Data model *)

(** A subtask object [{ text, done }]. *)
Module Subtask.
Record t := mk { text : string; done : bool }.
End Subtask.
Abbreviation Subtask := Subtask.t.

(** A task object, with the fields of the literal built in the submit
    handler.  [due] is [null] or the string held by the date input;
    [created] is a [Date.now()] reading in milliseconds. *)
Module Task.
Record t := mk {
  id : string;
  text : string;
  category : string;
  priority : string;
  due : option string;
  created : Z;
  completed : bool;
  subtasks : list Subtask;
  reminded : bool
}.

Definition set_completed (b : bool) (x : t) : t :=
  mk (id x) (text x) (category x) (priority x) (due x) (created x)
     b (subtasks x) (reminded x).

Definition set_subtasks (s : list Subtask) (x : t) : t :=
  mk (id x) (text x) (category x) (priority x) (due x) (created x)
     (completed x) s (reminded x).

Definition set_reminded (b : bool) (x : t) : t :=
  mk (id x) (text x) (category x) (priority x) (due x) (created x)
     (completed x) (subtasks x) b.
End Task.
Abbreviation Task := Task.t.

(** The ids of a store, in store order. *)
Definition ids (l : list Task) : list string := map Task.id l.

(** ** Array methods of the host *)

(** [Array.prototype.findIndex]: the index of the first element that
    satisfies [p], and [-1] when there is none. *)
Fixpoint findIndex {A} (p : A → bool) (l : list A) : Z :=
  match l with
  | [] => -1
  | x :: l' =>
      if p x then 0
      else let r := findIndex p l' in if r <? 0 then -1 else r + 1
  end.

(** [Array.prototype.splice(start, deleteCount, ...items)]: a negative
    [start] counts from the end, [start] and [deleteCount] are clamped to
    the array.  The result is the array of removed elements and the array
    as it is left. *)
Definition splice {A} (start deleteCount : Z) (items : list A) (l : list A)
  : list A * list A :=
  let len := Z.of_nat (length l) in
  let actualStart :=
    if start <? 0 then Z.max (len + start) 0 else Z.min start len in
  let actualDeleteCount := Z.min (Z.max deleteCount 0) (len - actualStart) in
  let s := Z.to_nat actualStart in
  let d := Z.to_nat actualDeleteCount in
  (take d (drop s l), take s l ++ items ++ drop (s + d)%nat l).

(** ** Reordering (drag and drop) *)

(** The callback [t => t.id === i] handed to [findIndex]. *)
Definition has_id (i : string) (t : Task) : bool := String.eqb (Task.id t) i.

(** [reorderTasks(fromId, toId)]: both indices are looked up first, then
    the source task is cut out and put back at the index found for the
    target. *)
Definition reorderTasks (fromId toId : string) (tasks : list Task) : list Task :=
  let fromIdx := findIndex (has_id fromId) tasks in
  let toIdx := findIndex (has_id toId) tasks in
  if (fromIdx <? 0) || (toIdx <? 0) then tasks
  else
    let '(removed, tasks1) := splice fromIdx 1 [] tasks in
    match removed with
    | item :: _ => snd (splice toIdx 0 [item] tasks1)
    | [] => tasks1
    end.

(** The index the task with id [i] has in [l] once the element at position
    [k] is cut out: the position of [toId] after the removal. *)
Definition index_after_removal (i : string) (k : nat) (l : list Task) : Z :=
  findIndex (has_id i) (delete k l).

(** ** Strings of the host

    A [string] stands for the JavaScript string with the same code units,
    all below 256.  [trim], [toLowerCase] and [includes] follow
    [String.prototype] on such strings. *)

(** White space and line terminators among the code units below 256. *)
Definition is_white_space (c : ascii) : bool :=
  let n := nat_of_ascii c in
  (Nat.leb 9 n && Nat.leb n 13) || Nat.eqb n 32 || Nat.eqb n 160.

Fixpoint trimStart (s : string) : string :=
  match s with
  | String c s' => if is_white_space c then trimStart s' else s
  | EmptyString => EmptyString
  end.

Fixpoint trimEnd (s : string) : string :=
  match s with
  | String c s' =>
      match trimEnd s' with
      | EmptyString => if is_white_space c then EmptyString else String c EmptyString
      | r => String c r
      end
  | EmptyString => EmptyString
  end.

Definition trim (s : string) : string := trimEnd (trimStart s).

(** Lower case of one code unit: [A]-[Z], and the capital letters of the
    range 192-222 other than the multiplication sign 215. *)
Definition lower_unit (c : ascii) : ascii :=
  let n := nat_of_ascii c in
  if (Nat.leb 65 n && Nat.leb n 90)
     || (Nat.leb 192 n && Nat.leb n 222 && negb (Nat.eqb n 215))
  then ascii_of_nat (n + 32) else c.

Fixpoint toLowerCase (s : string) : string :=
  match s with
  | String c s' => String (lower_unit c) (toLowerCase s')
  | EmptyString => EmptyString
  end.

(** [hay.includes(needle)]. *)
Fixpoint includes (needle hay : string) : bool :=
  String.prefix needle hay
  || match hay with
     | String _ hay' => includes needle hay'
     | EmptyString => false
     end.

(** Truthiness of a string: the empty string is falsy. *)
Definition truthy (s : string) : bool :=
  match s with EmptyString => false | _ => true end.

(** Truthiness of a [due] field: [null] and the empty string are falsy. *)
Definition truthy_due (d : option string) : bool :=
  match d with Some s => truthy s | None => false end.

(** ** Numbers of the host

    A JavaScript number is [NaN], an infinity, or a finite value.  Finite
    values are kept exactly, as rationals: the rounding to a double is not
    part of the model.  Timestamps, which are integers far below 2^53, are
    not affected by it. *)
Inductive number : Type :=
| NaN
| Infinity (negative : bool)
| Finite (q : Q).

Definition of_Z (z : Z) : number := Finite (inject_Z z).

(** The binary [-] on numbers. *)
Definition number_sub (a b : number) : number :=
  match a, b with
  | NaN, _ | _, NaN => NaN
  | Infinity n, Infinity m => if Bool.eqb n m then NaN else Infinity n
  | Infinity n, Finite _ => Infinity n
  | Finite _, Infinity m => Infinity (negb m)
  | Finite x, Finite y => Finite (x - y)
  end.

Definition digit_value (c : ascii) : option Z :=
  let n := nat_of_ascii c in
  if Nat.leb 48 n && Nat.leb n 57 then Some (Z.of_nat n - 48) else None.

(** The value of a run of decimal digits read after [acc]; [None] when a
    character is not a digit. *)
Fixpoint digits_value (acc : Z) (cs : list ascii) : option Z :=
  match cs with
  | [] => Some acc
  | c :: cs' =>
      match digit_value c with
      | Some d => digits_value (10 * acc + d) cs'
      | None => None
      end
  end.

(** The leading decimal digits of [cs] and what follows them. *)
Fixpoint span_digits (cs : list ascii) : list ascii * list ascii :=
  match cs with
  | c :: cs' =>
      match digit_value c with
      | Some _ => let '(ds, rest) := span_digits cs' in (c :: ds, rest)
      | None => ([], cs)
      end
  | [] => ([], [])
  end.

(** The exponent part [e], [e+] or [e-] followed by digits, or nothing. *)
Definition exponent_part (cs : list ascii) : option Z :=
  match cs with
  | [] => Some 0
  | e :: rest =>
      if negb (Ascii.eqb e "e" || Ascii.eqb e "E") then None
      else
        let '(neg, ds) :=
          match rest with
          | "-"%char :: ds => (true, ds)
          | "+"%char :: ds => (false, ds)
          | _ => (false, rest)
          end in
        match ds with
        | [] => None
        | _ => match digits_value 0 ds with
               | Some v => Some (if neg then - v else v)
               | None => None
               end
        end
  end.

(** [StrUnsignedDecimalLiteral]: [Infinity], or digits with an optional
    fraction and exponent; [None] when [cs] is not such a literal. *)
Definition unsigned_decimal (cs : list ascii) : option number :=
  if String.eqb (String.string_of_list_ascii cs) "Infinity" then Some (Infinity false)
  else
    let '(ip, r1) := span_digits cs in
    let '(fp, r2) :=
      match r1 with
      | "."%char :: r => span_digits r
      | _ => ([], r1)
      end in
    match ip, fp with
    | [], [] => None
    | _, _ =>
        match digits_value 0 ip, digits_value 0 fp, exponent_part r2 with
        | Some i, Some f, Some e =>
            Some (Finite ((inject_Z i + inject_Z f / inject_Z (10 ^ Z.of_nat (length fp)))
                          * Qpower (inject_Z 10) e))
        | _, _, _ => None
        end
    end.

(** The value of a run of digits in base [b] (2, 8 or 16); [None] when the
    run is empty or a character is not a digit of that base. *)
Definition radix_digit (b : Z) (c : ascii) : option Z :=
  let n := Z.of_nat (nat_of_ascii c) in
  let v := if (48 <=? n) && (n <=? 57) then n - 48
           else if (97 <=? n) && (n <=? 102) then n - 87
           else if (65 <=? n) && (n <=? 70) then n - 55
           else b in
  if v <? b then Some v else None.

Fixpoint radix_value (b acc : Z) (cs : list ascii) : option Z :=
  match cs with
  | [] => Some acc
  | c :: cs' =>
      match radix_digit b c with
      | Some d => radix_value b (b * acc + d) cs'
      | None => None
      end
  end.

Definition non_decimal (cs : list ascii) : option number :=
  match cs with
  | "0"%char :: p :: ((_ :: _) as ds) =>
      let b := if Ascii.eqb p "x" || Ascii.eqb p "X" then 16
               else if Ascii.eqb p "o" || Ascii.eqb p "O" then 8
               else if Ascii.eqb p "b" || Ascii.eqb p "B" then 2
               else 0 in
      if b =? 0 then None
      else match radix_value b 0 ds with
           | Some v => Some (of_Z v)
           | None => None
           end
  | _ => None
  end.

(** [StringToNumber]: what [ToNumber] gives for a string, which is how the
    operands of [-] are read.  White space around the literal is skipped,
    the empty string is 0, and a string that is no numeric literal is
    [NaN]. *)
Definition StringToNumber (s : string) : number :=
  let cs := String.list_ascii_of_string (trim s) in
  match cs with
  | [] => of_Z 0
  | "-"%char :: cs' =>
      match unsigned_decimal cs' with
      | Some (Finite q) => Finite (- q)
      | Some (Infinity _) => Infinity true
      | _ => NaN
      end
  | "+"%char :: cs' => default NaN (unsigned_decimal cs')
  | _ =>
      match non_decimal cs with
      | Some v => v
      | None => default NaN (unsigned_decimal cs)
      end
  end.

(** ** Dates of the host *)

Definition is_leap_year (y : Z) : bool :=
  ((y mod 4 =? 0) && negb (y mod 100 =? 0)) || (y mod 400 =? 0).

Definition days_in_month (y m : Z) : Z :=
  if m =? 2 then (if is_leap_year y then 29 else 28)
  else if (m =? 4) || (m =? 6) || (m =? 9) || (m =? 11) then 30
  else 31.

(** Days from 1970-01-01 to the civil date [y]-[m]-[d]. *)
Definition days_from_civil (y m d : Z) : Z :=
  let y' := if m <=? 2 then y - 1 else y in
  let era := y' / 400 in
  let yoe := y' - era * 400 in
  let doy := (153 * (if 2 <? m then m - 3 else m + 9) + 2) / 5 + d - 1 in
  let doe := yoe * 365 + yoe / 4 - yoe / 100 + doy in
  era * 146097 + doe - 719468.

(** [new Date(s).getTime()] for the date-only form [YYYY-MM-DD] of the
    date-time string format, which is read as midnight UTC: the form the
    date input and [getFutureDate] produce.  [None] is [NaN], the time
    value of an invalid date.  The model is exact on the strings for
    which it gives a time.  Other strings get [None] here, though a host
    reads some of them ([YYYY], [YYYY-MM], the date-time forms, a day
    past the end of its month): the theorems that read a due date take it
    to be [due_as_written], or hold for any reading of it. *)
Definition Date_getTime (s : string) : option Z :=
  match String.list_ascii_of_string s with
  | [y1; y2; y3; y4; "-"%char; m1; m2; "-"%char; d1; d2] =>
      match digits_value 0 [y1; y2; y3; y4], digits_value 0 [m1; m2],
            digits_value 0 [d1; d2] with
      | Some y, Some m, Some d =>
          if (1 <=? m) && (m <=? 12) && (1 <=? d) && (d <=? days_in_month y m)
          then Some (days_from_civil y m d * 86400000)
          else None
      | _, _, _ => None
      end
  | _ => None
  end.

(** [t < now] for a time value [t] that may be [NaN]. *)
Definition time_lt (t : option Z) (now : Z) : bool :=
  match t with Some v => v <? now | None => false end.

(** ** Sorting

    [Array.prototype.sort(comparefn)] sorts in place and is stable.  A
    result of [comparefn] that is [NaN] counts as [+0].  The elements are
    inserted one after the other, each before the first element it
    compares below, which is the stable order whenever the comparator is
    consistent. *)

(** The sign the sort reads off a comparator's result. *)
Definition sort_order (v : number) : comparison :=
  match v with
  | NaN => Eq
  | Infinity negative => if negative then Lt else Gt
  | Finite q => (q ?= 0)%Q
  end.

Fixpoint sort_insert {A} (comparefn : A → A → number) (x : A) (sorted : list A)
  : list A :=
  match sorted with
  | [] => [x]
  | y :: rest =>
      match sort_order (comparefn x y) with
      | Lt => x :: y :: rest
      | _ => y :: sort_insert comparefn x rest
      end
  end.

Definition sort {A} (comparefn : A → A → number) (l : list A) : list A :=
  fold_left (λ sorted x, sort_insert comparefn x sorted) l [].

(** ** The filter and sort controls *)

(** The [value] of the four controls read by [applyFilters]. *)
Record Controls := {
  searchEl : string;
  filterStatus : string;
  filterCategory : string;
  sortBy : string
}.

(** [a.due || fallback], read as a number by [-]. *)
Definition due_or (fallback : number) (d : option string) : number :=
  match d with
  | Some s => if truthy s then StringToNumber s else fallback
  | None => fallback
  end.

(** Names every object inherits from [Object.prototype]: looked up in the
    literal [p] they give a function or an object, not [undefined]. *)
Definition inherited_property (name : string) : bool :=
  bool_decide (name ∈ ["constructor"; "hasOwnProperty"; "isPrototypeOf";
                       "propertyIsEnumerable"; "toLocaleString"; "toString";
                       "valueOf"; "__proto__"; "__defineGetter__";
                       "__defineSetter__"; "__lookupGetter__";
                       "__lookupSetter__"]).

(** [p[x] || 0] for [p = { 'High':3, 'Medium':2, 'Low':1 }], read as a
    number by [-]: an inherited property is truthy and reads as [NaN]. *)
Definition priority_rank (x : string) : number :=
  if String.eqb x "High" then of_Z 3
  else if String.eqb x "Medium" then of_Z 2
  else if String.eqb x "Low" then of_Z 1
  else if inherited_property x then NaN
  else of_Z 0.

(** ** Arrays in memory

    [applyFilters] copies its argument and sorts the copy in place, so the
    arrays it works on are kept in a store, each under its reference.  The
    elements are of a type [R] of references to task objects, read through
    [obj]; [applyFilters] writes to no task object. *)

Abbreviation loc := positive.

Definition Heap (R A : Type) : Type := gmap loc (list R) → A * gmap loc (list R).

Definition heap_ret {R A} (a : A) : Heap R A := λ h, (a, h).

Definition heap_bind {R A B} (m : Heap R A) (k : A → Heap R B) : Heap R B :=
  λ h, let '(a, h') := m h in k a h'.

#[global] Instance Heap_ret {R} : MRet (Heap R) := λ A, heap_ret.
#[global] Instance Heap_bind {R} : MBind (Heap R) := λ A B k m, heap_bind m k.

(** A new array holding [l]. *)
Definition array_new {R} (l : list R) : Heap R loc :=
  λ h, let r := fresh (dom h) in (r, <[r := l]> h).

(** The elements of the array [a]. *)
Definition array_get {R} (a : loc) : Heap R (list R) :=
  λ h, (h !!! a, h).

(** [a.slice()]: a new array with the elements of [a]. *)
Definition Array_slice {R} (a : loc) : Heap R loc :=
  l ← array_get a; array_new l.

(** [a.filter(p)]: a new array with the elements of [a] that satisfy [p]. *)
Definition Array_filter {R} (p : R → bool) (a : loc) : Heap R loc :=
  l ← array_get a; array_new (List.filter p l).

(** [a.sort(comparefn)]: the array [a] itself, sorted. *)
Definition Array_sort {R} (comparefn : R → R → number) (a : loc) : Heap R loc :=
  λ h, (a, <[a := sort comparefn (h !!! a)]> h).

(** [applyFilters(list)], with [now] the reading of [Date.now()]. *)
Definition applyFilters {R} (obj : R → Task) (c : Controls) (now : Z) (list : loc)
  : Heap R loc :=
  let q := toLowerCase (trim (searchEl c)) in
  filtered ← Array_slice list;
  (* search *)
  filtered ←
    (if truthy q
     then Array_filter
            (λ t, includes q (toLowerCase (Task.text (obj t)))
                  || existsb (λ s, includes q (toLowerCase (Subtask.text s)))
                       (Task.subtasks (obj t)))
            filtered
     else mret filtered);
  (* status *)
  let status := filterStatus c in
  filtered ←
    (if String.eqb status "pending"
     then Array_filter (λ t, negb (Task.completed (obj t))) filtered
     else if String.eqb status "completed"
     then Array_filter (λ t, Task.completed (obj t)) filtered
     else if String.eqb status "overdue"
     then Array_filter
            (λ t, truthy_due (Task.due (obj t))
                  && time_lt (Date_getTime (default "" (Task.due (obj t)))) now
                  && negb (Task.completed (obj t)))
            filtered
     else mret filtered);
  (* category *)
  let cat := filterCategory c in
  filtered ←
    (if negb (String.eqb cat "all")
     then Array_filter (λ t, String.eqb (Task.category (obj t)) cat) filtered
     else mret filtered);
  (* sort *)
  let s := sortBy c in
  _ ←
    (if String.eqb s "created_desc"
     then Array_sort
            (λ a b, number_sub (of_Z (Task.created (obj b)))
                               (of_Z (Task.created (obj a))))
            filtered
     else if String.eqb s "date_asc"
     then Array_sort
            (λ a b, number_sub (due_or (Infinity false) (Task.due (obj a)))
                               (due_or (Infinity false) (Task.due (obj b))))
            filtered
     else if String.eqb s "date_desc"
     then Array_sort
            (λ a b, number_sub (due_or (of_Z 0) (Task.due (obj b)))
                               (due_or (of_Z 0) (Task.due (obj a))))
            filtered
     else if String.eqb s "priority_desc"
     then Array_sort
            (λ a b, number_sub (priority_rank (Task.priority (obj b)))
                               (priority_rank (Task.priority (obj a))))
            filtered
     else mret filtered);
  mret filtered.

(** ** The state of the page and its event handlers

    A handler runs on the global [tasks] array and may stop with an
    exception, which leaves the array as the statements run so far have
    made it.  The notifications shown and the timers set are kept in a log.
    [save()] hands the array to [localStorage] and changes nothing here. *)

Inductive effect : Type :=
| SetTimeout (delay : Z) (title text : string)
| ShowNotification (title text : string).

Record State := { tasks : list Task; log : list effect }.

Inductive completion (A : Type) : Type :=
| Normal (a : A)
| Throw (error : string).
Arguments Normal {A} a.
Arguments Throw {A} error.

Definition M (A : Type) : Type := State → completion A * State.

Definition M_ret_def {A} (a : A) : M A := λ st, (Normal a, st).

Definition M_bind_def {A B} (m : M A) (k : A → M B) : M B :=
  λ st, match m st with
        | (Normal a, st') => k a st'
        | (Throw e, st') => (Throw e, st')
        end.

#[global] Instance M_ret : MRet M := λ A, M_ret_def.
#[global] Instance M_bind : MBind M := λ A B k m, M_bind_def m k.

Definition throw {A} (e : string) : M A := λ st, (Throw e, st).

(** Runs [f] on the store. *)
Definition modify_tasks (f : list Task → list Task) : M unit :=
  λ st, (Normal tt, {| tasks := f (tasks st); log := log st |}).

(** [l.forEach(f)]. *)
Fixpoint forEach {A} (f : A → M unit) (l : list A) : M unit :=
  match l with
  | [] => mret tt
  | x :: l' => _ ← f x; forEach f l'
  end.

(** What the environment gives a handler: the reading of [Date.now()]
    (one reading per event), the text of [Math.random().toString(36)],
    whether [window] has a [Notification], its [permission], and the four
    controls. *)
Record Env := {
  now : Z;
  random36 : string;
  Notification_in_window : bool;
  permission : string;
  controls : Controls
}.

(** *** Progress of a task *)

(** [updateTaskProgress()] of the node of [task], as far as the task object
    goes: with subtasks, [completed] is set to whether all of them are
    done. *)
Definition updateTaskProgress (task : Task) : Task :=
  if negb (Nat.eqb (length (Task.subtasks task)) 0) then
    let total := length (Task.subtasks task) in
    let done := length (List.filter Subtask.done (Task.subtasks task)) in
    if Nat.eqb done total && Nat.ltb 0 total
    then Task.set_completed true task
    else Task.set_completed false task
  else task.

(** *** The node of a task

    The functions and handlers that [createTaskNode] defines for a node hold
    the task object of the node: each is a function on that object that may
    end with an exception, the object keeping what was written before. *)

Definition Node (A : Type) : Type := Task → completion A * Task.

Definition Node_ret_def {A} (a : A) : Node A := λ task, (Normal a, task).

Definition Node_bind_def {A B} (m : Node A) (k : A → Node B) : Node B :=
  λ task, match m task with
          | (Normal a, task') => k a task'
          | (Throw e, task') => (Throw e, task')
          end.

#[global] Instance Node_ret : MRet Node := λ A, Node_ret_def.
#[global] Instance Node_bind : MBind Node := λ A B k m, Node_bind_def m k.

(** An assignment to the task object. *)
Definition assign (f : Task → Task) : Node unit := λ task, (Normal tt, f task).

(** [renderSubtasks()].  For every subtask the loop sets [item.innerHTML] to
    markup with [s.text] in it as it is, and calls
    [item.querySelector('.delete-sub').addEventListener]; the check box and
    the text element come before the text in the markup and are always
    there.  [found text] is the answer of the host: whether the markup
    with that text has an element of the class [delete-sub] (a text such
    as an unclosed comment swallows the button).  At the first subtask for
    which it has none the call on [null] throws; the loop writes nothing to
    the task.  After the loop comes [updateTaskProgress()]. *)
Definition renderSubtasks (found : string → bool) : Node unit :=
  λ task,
    if forallb (λ s, found (Subtask.text s)) (Task.subtasks task)
    then assign updateTaskProgress task
    else (Throw "TypeError: Cannot read properties of null (reading 'addEventListener')",
          task).

(** *** Subtask handlers, on the task object of the node *)

Definition toggle_done (s : Subtask) : Subtask :=
  Subtask.mk (Subtask.text s) (negb (Subtask.done s)).

(** Click on the check box of subtask [idx]: [s.done = !s.done], then
    [renderSubtasks()] and [updateTaskProgress()]. *)
Definition subcheck_click (found : string → bool) (idx : nat) : Node unit :=
  _ ← assign (λ task,
         Task.set_subtasks (alter toggle_done idx (Task.subtasks task)) task);
  _ ← renderSubtasks found;
  assign updateTaskProgress.

(** Click on the bin of subtask [idx]: [task.subtasks.splice(idx,1)], then
    [renderSubtasks()] and [updateTaskProgress()]. *)
Definition delete_sub_click (found : string → bool) (idx : nat) : Node unit :=
  _ ← assign (λ task,
         Task.set_subtasks
           (snd (splice (Z.of_nat idx) 1 [] (Task.subtasks task))) task);
  _ ← renderSubtasks found;
  assign updateTaskProgress.

(** Click on the add button with [value] in the subtask input. *)
Definition addSubBtn_click (found : string → bool) (value : string) : Node unit :=
  let text := trim value in
  if negb (truthy text) then mret tt
  else
    _ ← assign (λ task,
           Task.set_subtasks (Task.subtasks task ++ [Subtask.mk text false]) task);
    renderSubtasks found.

(** Click on the check button of the task, up to [renderSubtasks()]. *)
Definition checkBtn_toggle (found : string → bool) : Node unit :=
  _ ← assign (λ task,
         if negb (Nat.eqb (length (Task.subtasks task)) 0) then
           let allDone := forallb Subtask.done (Task.subtasks task) in
           let task :=
             Task.set_subtasks
               (map (λ s, Subtask.mk (Subtask.text s) (negb allDone))
                    (Task.subtasks task))
               task in
           Task.set_completed (negb allDone) task
         else Task.set_completed (negb (Task.completed task)) task);
  renderSubtasks found.

(** *** Rendering *)

#[global] Instance Task_inhabited : Inhabited Task :=
  populate (Task.mk "" "" "" "" None 0 false [] false).

(** A function or handler of the node of the task at position [n], run on
    the store: what it leaves of the task object is in the store, also when
    it throws. *)
Definition on_task (n : nat) (handler : Node unit) : M unit :=
  λ st,
    match tasks st !! n with
    | Some task =>
        let '(outcome, task') := handler task in
        (outcome, {| tasks := <[n := task']> (tasks st); log := log st |})
    | None => (Normal tt, st)
    end.

(** ASCII white space, as [DOMTokenList] has it. *)
Definition is_ascii_whitespace (c : ascii) : bool :=
  let n := nat_of_ascii c in
  Nat.eqb n 9 || Nat.eqb n 10 || Nat.eqb n 12 || Nat.eqb n 13 || Nat.eqb n 32.

(** [element.classList.add(token)]: the exception it throws, if any: a
    [SyntaxError] for the empty token, an [InvalidCharacterError] for a
    token with ASCII white space. *)
Definition classList_add (token : string) : option string :=
  if negb (truthy token) then Some "SyntaxError"
  else if existsb is_ascii_whitespace (String.list_ascii_of_string token)
  then Some "InvalidCharacterError"
  else None.

(** [createTaskNode(task)] for the task object at position [n], as far as
    the store goes, with the three statements that can throw in their
    order: [priorityEl.classList.add(task.priority.toLowerCase())]; for a
    task that is overdue and not completed, the assignment to the constant
    [dueEl]; and [renderSubtasks()]. *)
Definition createTaskNode (found : string → bool) (now : Z) (n : nat) : M unit :=
  λ st,
    match tasks st !! n with
    | Some task =>
        (* priority *)
        match classList_add (toLowerCase (Task.priority task)) with
        | Some e => throw e st
        | None =>
            (* due *)
            if truthy_due (Task.due task)
               && time_lt (Date_getTime (default "" (Task.due task))) now
               && negb (Task.completed task)
            then throw "TypeError: Assignment to constant variable." st
            else on_task n (renderSubtasks found) st
        end
    | None => (Normal tt, st)
    end.

(** [render()]: the task objects are named by their positions in [tasks];
    [applyFilters(tasks)] runs on an array store that holds [tasks] at
    reference 1. *)
Definition render (found : string → bool) (c : Controls) (now : Z) : M unit :=
  λ st,
    let list := seq 0 (length (tasks st)) in
    let '(filtered, h) := applyFilters (λ n, tasks st !!! n) c now 1%positive
                                       {[ 1%positive := list ]} in
    forEach (createTaskNode found now) (h !!! filtered) st.

(** Click on the check button of the task at position [n]. *)
Definition checkBtn_click (found : string → bool) (env : Env) (n : nat) : M unit :=
  _ ← on_task n (checkBtn_toggle found);
  render found (controls env) (now env).

(** *** Reminders *)

(** The body of the [forEach] of [scheduleReminders], for one task: the
    task as it is left and what was logged.  [due] is a time value, [None]
    for [NaN], against which every comparison is false. *)
Definition remind (env : Env) (task : Task) : Task * list effect :=
  if negb (truthy_due (Task.due task)) || Task.reminded task then (task, [])
  else
    let due := Date_getTime (default "" (Task.due task)) in
    (* Remind 30 minutes before if due and in the future and within 24 hours *)
    let remindAt := (λ d, d - 30 * 60 * 1000) <$> due in
    if match remindAt with
       | Some r => (now env <? r) && (r - now env <? 24 * 3600 * 1000)
       | None => false
       end
    then
      (Task.set_reminded true task,
       [SetTimeout (default 0 remindAt - now env) "Task reminder" (Task.text task)])
    else if match remindAt, due with
            | Some r, Some d => (r <=? now env) && (now env <? d)
                                && negb (Task.reminded task)
            | _, _ => false
            end
    then
      (* If the remind time already passed but still before due, notify now *)
      (Task.set_reminded true task,
       if String.eqb (permission env) "granted" && negb (Task.completed task)
       then [ShowNotification "Task due soon" (Task.text task)] else [])
    else (task, []).

(** [scheduleReminders()]. *)
Definition scheduleReminders (env : Env) : M unit :=
  if negb (Notification_in_window env) then mret tt
  else
    λ st,
      let r := map (remind env) (tasks st) in
      (Normal tt, {| tasks := map fst r; log := log st ++ concat (map snd r) |}).

(** *** Adding a task *)

(** One digit of base 36. *)
Definition digit36 (d : Z) : ascii :=
  if d <? 10 then ascii_of_nat (Z.to_nat (48 + d))
  else ascii_of_nat (Z.to_nat (87 + d)).

Fixpoint to_radix36 (fuel : nat) (n : Z) (acc : string) : string :=
  let acc' := String (digit36 (n mod 36)) acc in
  match fuel with
  | O => acc'
  | S fuel' => if n / 36 =? 0 then acc' else to_radix36 fuel' (n / 36) acc'
  end.

(** [n.toString(36)] for an integer [n]. *)
Definition toString36 (n : Z) : string :=
  if n <? 0 then String "-" (to_radix36 (Z.to_nat (Z.log2 (- n))) (- n) "")
  else to_radix36 (Z.to_nat (Z.log2 n)) n "".

(** [uid()]: the clock in base 36 followed by [slice(2,6)] of the text of a
    random number in base 36. *)
Definition uid (env : Env) : string :=
  toString36 (now env) +:+ String.substring 2 4 (random36 env).

(** The [value] of the four fields of the form. *)
Record Form := {
  input : string;
  categorySel : string;
  dateInput : string;
  prioritySel : string
}.

(** The task object the submit handler builds; [text] is the trimmed text
    of the input. *)
Definition newTask (env : Env) (form : Form) (text : string) : Task :=
  {| Task.id := uid env;
     Task.text := text;
     Task.category := categorySel form;
     Task.priority := prioritySel form;
     Task.due := if truthy (dateInput form) then Some (dateInput form) else None;
     Task.created := now env;
     Task.completed := false;
     Task.subtasks := [];
     Task.reminded := false |}.

(** The submit handler of the task form. *)
Definition taskForm_submit (found : string → bool) (env : Env) (form : Form)
  : M unit :=
  let text := trim (input form) in
  if negb (truthy text) then mret tt
  else
    (* by default new tasks go to top *)
    _ ← modify_tasks (cons (newTask env form text));
    _ ← render found (controls env) (now env);
    scheduleReminders env.

(** [submits] runs the submit handler once per entry, each with its own
    environment and form; an exception ends one handler, not the page. *)
Fixpoint submits (found : string → bool) (events : list (Env * Form)) (st : State)
  : State :=
  match events with
  | [] => st
  | (env, form) :: events' =>
      submits found events' (snd (taskForm_submit found env form st))
  end.

(** An entry whose text is not blank: a valid call of add. *)
Definition valid_add (event : Env * Form) : Prop :=
  truthy (trim (input (snd event))) = true.

(** The ids [uid()] gives in a run of submit events. *)
Definition generated_ids (events : list (Env * Form)) : list string :=
  map (λ event, uid (fst event)) events.

(** ** Loading from storage *)

#[local] Set Warnings "-register-all".

(** A value as [JSON.parse] returns it.  A number is kept as its literal,
    a string as its code units. *)
Inductive json : Type :=
| JNull
| JBool (b : bool)
| JNumber (literal : string)
| JString (units : list N)
| JArray (elements : list json)
| JObject (members : list (list N * json)).

Fixpoint skip_ws (cs : list ascii) : list ascii :=
  match cs with
  | c :: cs' =>
      let n := nat_of_ascii c in
      if Nat.eqb n 32 || Nat.eqb n 9 || Nat.eqb n 10 || Nat.eqb n 13
      then skip_ws cs' else cs
  | [] => []
  end.

(** The double quote character, code 34. *)
Definition double_quote : ascii := ascii_of_nat 34.

(** The characters of a JSON string after its opening quote, up to the
    closing one. *)
Fixpoint json_string (cs : list ascii) : option (list N * list ascii) :=
  match cs with
  | [] => None
  | c :: rest =>
      if Ascii.eqb c double_quote then Some ([], rest)
      else if Ascii.eqb c "\" then
        match rest with
        | [] => None
        | e :: rest =>
            let simple (u : N) (rest : list ascii) :=
              '(us, r) ← json_string rest; Some (u :: us, r) in
            if Ascii.eqb e double_quote then simple 34%N rest
            else if Ascii.eqb e "\" then simple 92%N rest
            else if Ascii.eqb e "/" then simple 47%N rest
            else if Ascii.eqb e "b" then simple 8%N rest
            else if Ascii.eqb e "f" then simple 12%N rest
            else if Ascii.eqb e "n" then simple 10%N rest
            else if Ascii.eqb e "r" then simple 13%N rest
            else if Ascii.eqb e "t" then simple 9%N rest
            else if Ascii.eqb e "u" then
              match rest with
              | h1 :: h2 :: h3 :: h4 :: rest' =>
                  match radix_value 16 0 [h1; h2; h3; h4] with
                  | Some v => '(us, r) ← json_string rest'; Some (Z.to_N v :: us, r)
                  | None => None
                  end
              | _ => None
              end
            else None
        end
      else if Nat.ltb (nat_of_ascii c) 32 then None
      else '(us, r) ← json_string rest; Some (N_of_ascii c :: us, r)
  end.

(** A JSON number at the head of [cs]: its literal and what follows. *)
Definition json_number (cs : list ascii) : option (string * list ascii) :=
  let '(sign, r0) :=
    match cs with "-"%char :: r => (["-"%char], r) | _ => ([], cs) end in
  let '(ip, r1) := span_digits r0 in
  match ip with
  | [] => None
  | "0"%char :: _ :: _ => None
  | _ =>
      let frac :=
        match r1 with
        | "."%char :: r =>
            let '(fp, r2) := span_digits r in
            match fp with [] => None | _ => Some ("."%char :: fp, r2) end
        | _ => Some ([], r1)
        end in
      match frac with
      | None => None
      | Some (fp, r2) =>
          let expo :=
            match r2 with
            | e :: r =>
                if Ascii.eqb e "e" || Ascii.eqb e "E" then
                  let '(sg, r') :=
                    match r with
                    | "-"%char :: r' => (["-"%char], r')
                    | "+"%char :: r' => (["+"%char], r')
                    | _ => ([], r)
                    end in
                  let '(ds, r3) := span_digits r' in
                  match ds with [] => None | _ => Some (e :: sg ++ ds, r3) end
                else Some ([], r2)
            | [] => Some ([], r2)
            end in
          match expo with
          | None => None
          | Some (ep, r3) =>
              Some (String.string_of_list_ascii (sign ++ ip ++ fp ++ ep), r3)
          end
      end
  end.

(** A JSON value at the head of [cs], and the elements of an array and the
    members of an object after the first; [None] is a syntax error.  Every
    second call at the latest takes a character off the input, so twice the
    length of the text is fuel enough. *)
Fixpoint json_value (fuel : nat) (cs : list ascii) : option (json * list ascii) :=
  match fuel with
  | O => None
  | S fuel' =>
      match skip_ws cs with
      | "n"%char :: "u"%char :: "l"%char :: "l"%char :: r => Some (JNull, r)
      | "t"%char :: "r"%char :: "u"%char :: "e"%char :: r => Some (JBool true, r)
      | "f"%char :: "a"%char :: "l"%char :: "s"%char :: "e"%char :: r =>
          Some (JBool false, r)
      | "["%char :: r =>
          match skip_ws r with
          | "]"%char :: r' => Some (JArray [], r')
          | _ => '(vs, r') ← json_elements fuel' r; Some (JArray vs, r')
          end
      | "{"%char :: r =>
          match skip_ws r with
          | "}"%char :: r' => Some (JObject [], r')
          | _ => '(ms, r') ← json_members fuel' r; Some (JObject ms, r')
          end
      | c :: r =>
          if Ascii.eqb c double_quote
          then '(us, r') ← json_string r; Some (JString us, r')
          else '(lit, r') ← json_number (c :: r); Some (JNumber lit, r')
      | [] => None
      end
  end
with json_elements (fuel : nat) (cs : list ascii) : option (list json * list ascii) :=
  match fuel with
  | O => None
  | S fuel' =>
      '(v, r) ← json_value fuel' cs;
      match skip_ws r with
      | ","%char :: r' => '(vs, r'') ← json_elements fuel' r'; Some (v :: vs, r'')
      | "]"%char :: r' => Some ([v], r')
      | _ => None
      end
  end
with json_members (fuel : nat) (cs : list ascii)
  : option (list (list N * json) * list ascii) :=
  match fuel with
  | O => None
  | S fuel' =>
      match skip_ws cs with
      | c :: r =>
          if negb (Ascii.eqb c double_quote) then None
          else
            '(k, r1) ← json_string r;
            match skip_ws r1 with
            | ":"%char :: r2 =>
                '(v, r3) ← json_value fuel' r2;
                match skip_ws r3 with
                | ","%char :: r4 =>
                    '(ms, r5) ← json_members fuel' r4; Some ((k, v) :: ms, r5)
                | "}"%char :: r4 => Some ([(k, v)], r4)
                | _ => None
                end
            | _ => None
            end
      | [] => None
      end
  end.

(** [JSON.parse(text)]; [None] when it throws a [SyntaxError]. *)
Definition JSON_parse (text : string) : option json :=
  let cs := String.list_ascii_of_string text in
  match json_value (2 * length cs + 2) cs with
  | Some (v, rest) => match skip_ws rest with [] => Some v | _ => None end
  | None => None
  end.

(** [load()], with [stored] what [localStorage.getItem(STORAGE_KEY)]
    returns: the value the global [tasks] is left with. *)
Definition load (stored : option string) : json :=
  let text :=
    match stored with
    | Some s => if truthy s then s else "[]"
    | None => "[]"
    end in
  match JSON_parse text with
  | Some v => v
  | None => JArray []
  end.

(** [Array.isArray]. *)
Definition Array_isArray (v : json) : bool :=
  match v with JArray _ => true | _ => false end.

(** Truthiness of a parsed value. *)
Definition json_truthy (v : json) : bool :=
  match v with
  | JNull => false
  | JBool b => b
  | JNumber lit =>
      match StringToNumber lit with
      | Finite q => negb (Qeq_bool q 0)
      | NaN => false
      | Infinity _ => true
      end
  | JString us => negb (Nat.eqb (length us) 0)
  | JArray _ | JObject _ => true
  end.

(** The code units of a string. *)
Definition units (s : string) : list N :=
  map N_of_ascii (String.list_ascii_of_string s).

(** The own property [key] of a parsed object: of members with the same
    key the last one counts. *)
Definition own_property (key : string) (members : list (list N * json))
  : option json :=
  snd <$> last (List.filter (λ m, bool_decide (fst m = units key)) members).

(** Reading [tasks.length], as [seedIfEmpty] does right after [load]: on
    [null] the read throws; the result is whether the length is truthy. *)
Definition seedIfEmpty_guard (tasks : json) : completion bool :=
  match tasks with
  | JNull => Throw "TypeError: Cannot read properties of null (reading 'length')"
  | JArray l => Normal (negb (Nat.eqb (length l) 0))
  | JString us => Normal (negb (Nat.eqb (length us) 0))
  | JObject ms =>
      Normal (match own_property "length" ms with
              | Some v => json_truthy v
              | None => false
              end)
  | JBool _ | JNumber _ => Normal false
  end.

(** ** The completion invariant *)

(** I1: with subtasks, [completed] holds exactly when every subtask is
    done. *)
Definition I1 (task : Task) : Prop :=
  Task.subtasks task ≠ [] →
  (Task.completed task = true
   ↔ Forall (λ s, Subtask.done s = true) (Task.subtasks task)).

(** The subtask mutations a user can trigger on the task at position [n]:
    the add button with the text of the subtask input, the check box and
    the bin of subtask [idx], and the check button of the task. *)
Inductive mutation : Type :=
| AddSubtask (value : string)
| ToggleSubtask (idx : nat)
| RemoveSubtask (idx : nat)
| ToggleComplete.

Definition mutate (found : string → bool) (env : Env) (n : nat) (m : mutation)
  : M unit :=
  match m with
  | AddSubtask value => on_task n (addSubBtn_click found value)
  | ToggleSubtask idx => on_task n (subcheck_click found idx)
  | RemoveSubtask idx => on_task n (delete_sub_click found idx)
  | ToggleComplete => checkBtn_click found env n
  end.


(** What a run of [createTaskNode] calls does to the store: every task is
    as it was or has gone through [updateTaskProgress]; the log is as it
    was. *)
Definition refreshed (before after : list Task) : Prop :=
  Forall2 (λ t t', t' = t ∨ t' = updateTaskProgress t) before after.

(** ** Arrays kept by array code *)

(** An outcome [(a, h')] of array code started in [h] keeps the arrays of
    [h]: every array of [h] is in [h'] with the same elements, and the
    returned reference [a] is to an array that was not in [h]. *)
Definition keeps {R} (h : gmap loc (list R)) (p : loc * gmap loc (list R)) : Prop :=
  (fst p ∉ dom h) ∧ (∀ r, r ∈ dom h → snd p !! r = h !! r).

(** ** Well-formed stored data *)

(** A parsed value that is a subtask record [{ text, done }]. *)
Definition is_subtask_record (v : json) : bool :=
  match v with
  | JObject ms =>
      match own_property "text" ms, own_property "done" ms with
      | Some (JString _), Some (JBool _) => true
      | _, _ => false
      end
  | _ => false
  end.

(** A parsed value that is a task record, with the fields of the data
    model. *)
Definition is_task_record (v : json) : bool :=
  match v with
  | JObject ms =>
      match own_property "id" ms, own_property "text" ms,
            own_property "category" ms, own_property "priority" ms,
            own_property "due" ms, own_property "created" ms,
            own_property "completed" ms, own_property "subtasks" ms,
            own_property "reminded" ms with
      | Some (JString _), Some (JString _), Some (JString _), Some (JString _),
        Some due, Some (JNumber _), Some (JBool _), Some (JArray subs),
        Some (JBool _) =>
          match due with JNull | JString _ => true | _ => false end
          && forallb is_subtask_record subs
      | _, _, _, _, _, _, _, _, _ => false
      end
  | _ => false
  end.

(** A parsed value that is a well-formed sequence of tasks. *)
Definition is_task_sequence (v : json) : bool :=
  match v with
  | JArray l => forallb is_task_record l
  | _ => false
  end.

(** ** Dates as the page writes them *)

(** The characters of a date in the form [YYYY-MM-DD]. *)
Definition date_chars (y1 y2 y3 y4 m1 m2 d1 d2 : ascii) : list ascii :=
  [y1; y2; y3; y4; "-"%char; m1; m2; "-"%char; d1; d2].

(** A [due] field as the page writes it: [null], or a string that
    [new Date] reads as a date. *)
Definition due_as_written (d : option string) : Prop :=
  d = None ∨ ∃ s t, d = Some s ∧ Date_getTime s = Some t.

(** ** The claims of the specification, as read on the code *)

(** The reading of "the [fromId] task is reinserted at the index [toId]
    occupies after the removal": with [i] the index of [fromId], the result
    is the list without position [i], with the task put in at
    [index_after_removal toId i]. *)
Definition reinserted_at_index_after_removal
    (fromId toId : string) (l : list Task) : Prop :=
  ∀ (i : nat) x,
    findIndex (has_id fromId) l = Z.of_nat i → l !! i = Some x →
    let j := Z.to_nat (index_after_removal toId i l) in
    reorderTasks fromId toId l = take j (delete i l) ++ x :: drop j (delete i l).

(** Calling [reorderTasks] twice in a row gives what one call gives. *)
Definition reorder_twice_as_once (a b : string) (l : list Task) : Prop :=
  reorderTasks a b (reorderTasks a b l) = reorderTasks a b l.

(** The condition under which the specification has a reminder reserved
    for a task due at time [due]. *)
Definition in_reminder_window (due now : Z) : Prop :=
  (due - 1800000 > now ∧ (due - 1800000) - now < 86400000)
  ∨ (due - 1800000 ≤ now ∧ due > now).

(** The reading of "evaluating reminders marks a task exactly when it is
    in the reminder window": for every task of the store with a due date
    that reads as the time [d] and [reminded = false], the task is left
    with [reminded = true] exactly when [d] is in the window. *)
Definition reminders_follow_window (env : Env) (st : State) : Prop :=
  ∀ (n : nat) task d,
    tasks st !! n = Some task →
    truthy_due (Task.due task) = true →
    Date_getTime (default "" (Task.due task)) = Some d →
    Task.reminded task = false →
    ∃ task', tasks (snd (scheduleReminders env st)) !! n = Some task'
             ∧ (Task.reminded task' = true ↔ in_reminder_window d (now env)).

(** The reading of "after any sequence of valid add calls, from any store,
    the ids of the store are pairwise distinct". *)
Definition adds_give_distinct_ids (found : string → bool)
    (events : list (Env * Form)) (st : State) : Prop :=
  Forall valid_add events → NoDup (ids (tasks (submits found events st))).

(** ** Tasks, forms and environments for the worked examples *)

(** The answers of the host for the texts of the worked examples: the
    markup of a subtask loses its delete button to the unclosed comment
    [<!--], and has it for the plain texts used besides. *)
Definition found_unless_comment (text : string) : bool :=
  negb (String.eqb text "<!--").

(** A task as the submit handler builds it, for the worked examples: only
    the id (and the text, set to the same string) varies. *)
Definition plain (i : string) : Task :=
  Task.mk i i "General" "Low" None 0 false [] false.

(** The task of scenarios B and C, with the subtasks A and B, both open,
    and an environment with notifications granted. *)
Definition two_subtasks : Task :=
  Task.mk "t1" "Report" "Work" "High" None 0 false
          [Subtask.mk "A" false; Subtask.mk "B" false] false.

(** A completed task whose one subtask is done. *)
Definition all_done : Task :=
  Task.mk "t1" "Report" "Work" "High" None 0 true [Subtask.mk "A" true] false.

Definition sample_env : Env :=
  {| now := 1736467200000;
     random36 := "0.4fzyo82mvyr";
     Notification_in_window := true;
     permission := "granted";
     controls := {| searchEl := ""; filterStatus := "all";
                    filterCategory := "all"; sortBy := "none" |} |}.

(** A task due on 2025-01-10, and an environment one hour before that
    midnight in a browser without notifications. *)
Definition due_2025_01_10 : Task :=
  Task.mk "t3" "Pay rent" "Personal" "High" (Some "2025-01-10") 0 false [] false.

Definition env_without_notifications : Env :=
  {| now := 1736467200000 - 3600000;
     random36 := "0.4fzyo82mvyr";
     Notification_in_window := false;
     permission := "default";
     controls := {| searchEl := ""; filterStatus := "all";
                    filterCategory := "all"; sortBy := "none" |} |}.

(** The tasks of scenario E of the specification: no due date, due on
    2025-01-10 ([due_2025_01_10] above) and due on 2025-01-05; the controls
    with the sort key set to ascending date; and tasks of three
    priorities. *)
Definition no_due : Task :=
  Task.mk "t2" "Call home" "Personal" "Low" None 0 false [] false.

Definition due_2025_01_05 : Task :=
  Task.mk "t4" "Book flight" "Work" "Medium" (Some "2025-01-05") 0 false [] false.

Definition sorted_by (key : string) : Controls :=
  {| searchEl := ""; filterStatus := "all"; filterCategory := "all";
     sortBy := key |}.

(** A form with a due date that is past at the clock of [sample_env]. *)
Definition overdue_form : Form :=
  {| input := "File taxes"; categorySel := "Personal"; dateInput := "2025-01-05";
     prioritySel := "High" |}.

(** A form as filled in for scenario A of the specification, with the due
    date left empty. *)
Definition buy_milk : Form :=
  {| input := "Buy milk"; categorySel := "Personal"; dateInput := "";
     prioritySel := "Low" |}.


(** ** The other handlers of a task node *)

Definition set_text (text : string) (x : Task) : Task :=
  Task.mk (Task.id x) text (Task.category x) (Task.priority x) (Task.due x)
          (Task.created x) (Task.completed x) (Task.subtasks x) (Task.reminded x).

(** [a || b] on strings. *)
Definition string_or (a b : string) : string := if truthy a then a else b.

(** Blur of the title of the task at position [n], with [content] the text
    of the title element: [task.text = content.trim() || task.text], then
    [render()]. *)
Definition titleEl_blur (found : string → bool) (env : Env) (n : nat)
    (content : string) : M unit :=
  _ ← modify_tasks
        (alter (λ task, set_text (string_or (trim content) (Task.text task)) task) n);
  render found (controls env) (now env).

(** Blur of the text of subtask [idx], on the task object of the node:
    [s.text = content.trim() || s.text]. *)
Definition subtext_blur (idx : nat) (content : string) (task : Task) : Task :=
  Task.set_subtasks
    (alter (λ s, Subtask.mk (string_or (trim content) (Subtask.text s))
                            (Subtask.done s))
           idx (Task.subtasks task))
    task.

(** The callback the delete button sets for 220 ms later, for the task
    object with id [id]: [tasks = tasks.filter(t => t.id !== task.id)], then
    [render()]. *)
Definition deleteBtn_timeout (found : string → bool) (env : Env) (id : string)
  : M unit :=
  _ ← modify_tasks (List.filter (λ t, negb (String.eqb (Task.id t) id)));
  render found (controls env) (now env).

(** Drop of the task with id [idFrom] on the node of the task with id
    [idTo]. *)
Definition li_drop (found : string → bool) (env : Env) (idFrom idTo : string)
  : M unit :=
  if negb (truthy idFrom) || String.eqb idFrom idTo then mret tt
  else
    _ ← modify_tasks (reorderTasks idFrom idTo);
    render found (controls env) (now env).

(** *** Overall progress *)

(** The loop of [computeOverallProgress]: the units [(total, done)] it
    adds up, a task with subtasks counting once per subtask and a task
    without counting once.  (The percentage shown is a rounded quotient of
    doubles and goes to the DOM only.) *)
Definition progress_units (tasks : list Task) : nat * nat :=
  fold_left
    (λ '(total, done) t,
       if negb (Nat.eqb (length (Task.subtasks t)) 0)
       then ((total + length (Task.subtasks t))%nat,
             (done + length (List.filter Subtask.done (Task.subtasks t)))%nat)
       else ((total + 1)%nat, (done + if Task.completed t then 1 else 0)%nat))
    tasks (0%nat, 0%nat).

(** ** The events of the page *)

(** What can happen on a page once it is set up: the form is submitted; a
    subtask panel or check button is used on the task at a position; a
    title or a subtask text is edited; the timer of a delete button fires; a
    task is dropped on another; the hourly timer renders. *)
Inductive event : Type :=
| Submit (form : Form)
| Mutate (n : nat) (m : mutation)
| EditTitle (n : nat) (content : string)
| EditSubtask (n idx : nat) (content : string)
| DeleteTimeout (id : string)
| Drop (idFrom idTo : string)
| HourlyRender.

Definition handle (found : string → bool) (env : Env) (ev : event) : M unit :=
  match ev with
  | Submit form => taskForm_submit found env form
  | Mutate n m => mutate found env n m
  | EditTitle n content => titleEl_blur found env n content
  | EditSubtask n idx content => on_task n (assign (subtext_blur idx content))
  | DeleteTimeout id => deleteBtn_timeout found env id
  | Drop idFrom idTo => li_drop found env idFrom idTo
  | HourlyRender => render found (controls env) (now env)
  end.

(** The state after a run of events, each with its environment; an
    exception ends its handler and the page goes on. *)
Fixpoint run (found : string → bool) (events : list (Env * event)) (st : State)
  : State :=
  match events with
  | [] => st
  | (env, ev) :: events' => run found events' (snd (handle found env ev st))
  end.

(** ** Properties of a task that the handlers are checked against *)

(** The texts of a task and of its subtasks are not empty. *)
Definition has_texts (t : Task) : Prop :=
  Task.text t ≠ "" ∧ Forall (λ s, Subtask.text s ≠ "") (Task.subtasks t).

(** [t'] is [t] at a later time: the fields a handler never writes are the
    same, and [reminded] was not taken back. *)
Definition later_of (t t' : Task) : Prop :=
  Task.id t' = Task.id t
  ∧ Task.category t' = Task.category t
  ∧ Task.priority t' = Task.priority t
  ∧ Task.due t' = Task.due t
  ∧ Task.created t' = Task.created t
  ∧ (Task.reminded t = true → Task.reminded t' = true).

(** [t'] goes back to a task of the store [l] or to the task built by one
    of the submit events among [events]. *)
Definition descends_from (l : list Task) (events : list (Env * event)) (t' : Task)
  : Prop :=
  ∃ t, later_of t t'
       ∧ (t ∈ l
          ∨ ∃ env form, (env, Submit form) ∈ events
                        ∧ truthy (trim (input form)) = true
                        ∧ t = newTask env form (trim (input form))).

(** Every subtask of [t] has a text for which the host finds the delete
    button, so that [renderSubtasks] does not throw for [t]. *)
Definition rendered (found : string → bool) (t : Task) : Prop :=
  Forall (λ s, found (Subtask.text s) = true) (Task.subtasks t).

(** The event [ev] brings no subtask text for which the host finds no
    delete button: the text added by the add button, or put in by an edit,
    is one it finds the button for. *)
Definition event_renders (found : string → bool) (ev : event) : Prop :=
  match ev with
  | Mutate _ (AddSubtask value) =>
      truthy (trim value) = true → found (trim value) = true
  | EditSubtask _ _ content =>
      truthy (trim content) = true → found (trim content) = true
  | _ => True
  end.

(** The event [ev], in the environment [env], keeps the property [P] of
    tasks: the task a submit builds has it, and the handler of the event
    keeps it on the task object of its node. *)
Definition keeps_property (found : string → bool) (P : Task → Prop)
    (env : Env) (ev : event) : Prop :=
  match ev with
  | Submit form =>
      truthy (trim (input form)) = true →
      P (newTask env form (trim (input form)))
  | Mutate _ (AddSubtask value) =>
      ∀ t, P t → P (snd (addSubBtn_click found value t))
  | Mutate _ (ToggleSubtask idx) =>
      ∀ t, P t → P (snd (subcheck_click found idx t))
  | Mutate _ (RemoveSubtask idx) =>
      ∀ t, P t → P (snd (delete_sub_click found idx t))
  | Mutate _ ToggleComplete =>
      ∀ t, P t → P (snd (checkBtn_toggle found t))
  | EditTitle _ content =>
      ∀ t, P t → P (set_text (string_or (trim content) (Task.text t)) t)
  | EditSubtask _ idx content =>
      ∀ t, P t → P (subtext_blur idx content t)
  | DeleteTimeout _ | Drop _ _ | HourlyRender => True
  end.

(** ** What [createTaskNode] and [render] end with *)

(** The exception [createTaskNode] ends with for [task], if any, by the
    order of its statements: that of [classList.add] for the priority, the
    [TypeError] of the assignment to the constant [dueEl] for a task that
    is overdue and not completed, the [TypeError] of [renderSubtasks] for a
    subtask without a delete button. *)
Definition node_error (found : string → bool) (now : Z) (task : Task)
  : option string :=
  match classList_add (toLowerCase (Task.priority task)) with
  | Some e => Some e
  | None =>
      if truthy_due (Task.due task)
         && time_lt (Date_getTime (default "" (Task.due task))) now
         && negb (Task.completed task)
      then Some "TypeError: Assignment to constant variable."
      else if forallb (λ s, found (Subtask.text s)) (Task.subtasks task)
      then None
      else Some "TypeError: Cannot read properties of null (reading 'addEventListener')"
  end.

(** Making the nodes of [l] one after the other ends with the exception of
    the first task that has one. *)
Fixpoint nodes_outcome (found : string → bool) (now : Z) (l : list Task)
  : completion unit :=
  match l with
  | [] => Normal tt
  | task :: l' =>
      match node_error found now task with
      | Some e => Throw e
      | None => nodes_outcome found now l'
      end
  end.

(** ** What [applyFilters] returns, as a function on lists

    The three filters and the sort of [applyFilters], each as the function
    it applies to the elements of the array it is given.  That the array
    code above computes them is a theorem of Part II. *)

Definition matches_search {R} (obj : R → Task) (c : Controls) (t : R) : bool :=
  let q := toLowerCase (trim (searchEl c)) in
  if truthy q
  then includes q (toLowerCase (Task.text (obj t)))
       || existsb (λ s, includes q (toLowerCase (Subtask.text s)))
            (Task.subtasks (obj t))
  else true.

(** The test of the [overdue] filter, which is also the test under which
    [createTaskNode] throws. *)
Definition overdue_open (now : Z) (task : Task) : bool :=
  truthy_due (Task.due task)
  && time_lt (Date_getTime (default "" (Task.due task))) now
  && negb (Task.completed task).

Definition matches_status {R} (obj : R → Task) (c : Controls) (now : Z) (t : R)
  : bool :=
  if String.eqb (filterStatus c) "pending" then negb (Task.completed (obj t))
  else if String.eqb (filterStatus c) "completed" then Task.completed (obj t)
  else if String.eqb (filterStatus c) "overdue" then overdue_open now (obj t)
  else true.

Definition matches_category {R} (obj : R → Task) (c : Controls) (t : R) : bool :=
  if negb (String.eqb (filterCategory c) "all")
  then String.eqb (Task.category (obj t)) (filterCategory c)
  else true.

(** The tasks [applyFilters] lets through. *)
Definition shown {R} (obj : R → Task) (c : Controls) (now : Z) (t : R) : bool :=
  matches_search obj c t && matches_status obj c now t && matches_category obj c t.

(** The comparator the sort key selects, if any. *)
Definition comparator {R} (obj : R → Task) (c : Controls)
  : option (R → R → number) :=
  if String.eqb (sortBy c) "created_desc"
  then Some (λ a b, number_sub (of_Z (Task.created (obj b)))
                               (of_Z (Task.created (obj a))))
  else if String.eqb (sortBy c) "date_asc"
  then Some (λ a b, number_sub (due_or (Infinity false) (Task.due (obj a)))
                               (due_or (Infinity false) (Task.due (obj b))))
  else if String.eqb (sortBy c) "date_desc"
  then Some (λ a b, number_sub (due_or (of_Z 0) (Task.due (obj b)))
                               (due_or (of_Z 0) (Task.due (obj a))))
  else if String.eqb (sortBy c) "priority_desc"
  then Some (λ a b, number_sub (priority_rank (Task.priority (obj b)))
                               (priority_rank (Task.priority (obj a))))
  else None.

(** The elements of the array [applyFilters] returns, given the elements
    [l] of its argument. *)
Definition applyFilters_list {R} (obj : R → Task) (c : Controls) (now : Z)
    (l : list R) : list R :=
  let filtered := List.filter (shown obj c now) l in
  match comparator obj c with
  | Some comparefn => sort comparefn filtered
  | None => filtered
  end.

(** An outcome [(a, h)] of array code in which the array [a] holds [l]. *)
Definition holds {R} (p : loc * gmap loc (list R)) (l : list R) : Prop :=
  snd p !! fst p = Some l.

(** The controls [c] with the status filter set to [status]. *)
Definition with_status (status : string) (c : Controls) : Controls :=
  {| searchEl := searchEl c; filterStatus := status;
     filterCategory := filterCategory c; sortBy := sortBy c |}.

(** The rank the [priority_desc] sort gives a priority that is no
    inherited property name. *)
Definition rank (priority : string) : Z :=
  if String.eqb priority "High" then 3
  else if String.eqb priority "Medium" then 2
  else if String.eqb priority "Low" then 1
  else 0.


(** ** What [scheduleReminders] may log *)

(** An effect as [scheduleReminders] produces it in the environment [env]: a
    timer of the first branch, with a delay above zero and below 24 hours,
    or a notification of the second branch, shown only with the permission
    granted. *)
Definition reminder_effect (env : Env) (e : effect) : Prop :=
  match e with
  | SetTimeout delay title _ =>
      0 < delay < 24 * 3600 * 1000 ∧ title = "Task reminder"
  | ShowNotification title _ =>
      permission env = "granted" ∧ title = "Task due soon"
  end.

(** ** The theme *)

(** The text of the theme button: a sun or a moon. *)
Inductive icon : Type := Sun | Moon.

(** What the theme code reads and writes: whether [document.body] has the
    class [dark], the text of the theme button, and the item of
    [localStorage] under [THEME_KEY], [None] for [null]. *)
Record Theme := {
  body_dark : bool;
  themeToggle_textContent : icon;
  stored_theme : option string
}.

(** [initTheme()], with [prefers_dark] for
    [window.matchMedia && window.matchMedia('(prefers-color-scheme: dark)').matches]. *)
Definition initTheme (prefers_dark : bool) (page : Theme) : Theme :=
  let fallback := if prefers_dark then "dark" else "light" in
  let t := match stored_theme page with
           | Some s => if truthy s then s else fallback
           | None => fallback
           end in
  {| body_dark := String.eqb t "dark";
     themeToggle_textContent := if String.eqb t "dark" then Sun else Moon;
     stored_theme := stored_theme page |}.

(** The click handler of the theme button. *)
Definition themeToggle_click (page : Theme) : Theme :=
  let isDark := negb (body_dark page) in
  {| body_dark := isDark;
     themeToggle_textContent := if isDark then Sun else Moon;
     stored_theme := Some (if isDark then "dark" else "light") |}.

(** ** Saving to storage

    [save()] hands [JSON.stringify(tasks)] to [localStorage].  The text
    [JSON.stringify] gives for the task objects of the page: no white
    space, the properties in the order in which the object literals of the
    script create them. *)

(** A hexadecimal digit, in lower case. *)
Definition hex_digit (d : nat) : ascii :=
  if Nat.ltb d 10 then ascii_of_nat (48 + d) else ascii_of_nat (87 + d).

(** What [QuoteJSONString] writes for one code unit: the short escapes, a
    [\u] escape for the other control characters, and the unit itself
    otherwise. *)
Definition QuoteJSONString_unit (c : ascii) : list ascii :=
  let n := nat_of_ascii c in
  if Nat.eqb n 8 then ["\"; "b"]%char
  else if Nat.eqb n 9 then ["\"; "t"]%char
  else if Nat.eqb n 10 then ["\"; "n"]%char
  else if Nat.eqb n 12 then ["\"; "f"]%char
  else if Nat.eqb n 13 then ["\"; "r"]%char
  else if Nat.eqb n 34 then ["\"%char; double_quote]
  else if Nat.eqb n 92 then ["\"; "\"]%char
  else if Nat.ltb n 32
  then ["\"; "u"; "0"; "0"]%char ++ [hex_digit (n / 16); hex_digit (n mod 16)]
  else [c].

Definition QuoteJSONString (s : string) : list ascii :=
  double_quote
    :: flat_map QuoteJSONString_unit (String.list_ascii_of_string s)
    ++ [double_quote].

Fixpoint to_decimal (fuel : nat) (n : Z) (acc : list ascii) : list ascii :=
  let acc' := ascii_of_nat (Z.to_nat (48 + n mod 10)) :: acc in
  match fuel with
  | O => acc'
  | S fuel' => if n / 10 =? 0 then acc' else to_decimal fuel' (n / 10) acc'
  end.

(** [Number::toString] of an integer that a number holds exactly, one of
    magnitude up to [2^53]: its decimal digits. *)
Definition Number_toString (n : Z) : list ascii :=
  if n <? 0 then "-"%char :: to_decimal (Z.to_nat (Z.log2 (- n))) (- n) []
  else to_decimal (Z.to_nat (Z.log2 n)) n [].

Definition boolean_text (b : bool) : list ascii :=
  String.list_ascii_of_string (if b then "true" else "false").

(** [SerializeJSONArray], given the texts of the elements. *)
Definition SerializeJSONArray (elements : list (list ascii)) : list ascii :=
  match elements with
  | [] => ["["; "]"]%char
  | e :: es => "["%char :: e ++ flat_map (λ x, ","%char :: x) es ++ ["]"%char]
  end.

Definition member_text (m : string * list ascii) : list ascii :=
  QuoteJSONString (fst m) ++ ":"%char :: snd m.

(** [SerializeJSONObject], given the keys and the texts of their values. *)
Definition SerializeJSONObject (members : list (string * list ascii)) : list ascii :=
  match members with
  | [] => ["{"; "}"]%char
  | m :: ms =>
      "{"%char :: member_text m
        ++ flat_map (λ x, ","%char :: member_text x) ms ++ ["}"%char]
  end.

(** The text of a subtask object [{ text, done }]. *)
Definition stringify_subtask (s : Subtask) : list ascii :=
  SerializeJSONObject
    [("text", QuoteJSONString (Subtask.text s));
     ("done", boolean_text (Subtask.done s))].

(** The text of a task object, with the properties in the order of the
    object literal of the submit handler. *)
Definition stringify_task (t : Task) : list ascii :=
  SerializeJSONObject
    [("id", QuoteJSONString (Task.id t));
     ("text", QuoteJSONString (Task.text t));
     ("category", QuoteJSONString (Task.category t));
     ("priority", QuoteJSONString (Task.priority t));
     ("due", match Task.due t with
             | Some d => QuoteJSONString d
             | None => String.list_ascii_of_string "null"
             end);
     ("created", Number_toString (Task.created t));
     ("completed", boolean_text (Task.completed t));
     ("subtasks", SerializeJSONArray (map stringify_subtask (Task.subtasks t)));
     ("reminded", boolean_text (Task.reminded t))].

(** [JSON.stringify(tasks)]. *)
Definition JSON_stringify (tasks : list Task) : string :=
  String.string_of_list_ascii (SerializeJSONArray (map stringify_task tasks)).

(** [save()]: the item it leaves in [localStorage] under [STORAGE_KEY]. *)
Definition save (tasks : list Task) : option string := Some (JSON_stringify tasks).

(** The value [JSON.parse] builds for a subtask and for a task. *)
Definition subtask_value (s : Subtask) : json :=
  JObject [(units "text", JString (units (Subtask.text s)));
           (units "done", JBool (Subtask.done s))].

Definition task_value (t : Task) : json :=
  JObject
    [(units "id", JString (units (Task.id t)));
     (units "text", JString (units (Task.text t)));
     (units "category", JString (units (Task.category t)));
     (units "priority", JString (units (Task.priority t)));
     (units "due", match Task.due t with
                   | Some d => JString (units d)
                   | None => JNull
                   end);
     (units "created",
      JNumber (String.string_of_list_ascii (Number_toString (Task.created t))));
     (units "completed", JBool (Task.completed t));
     (units "subtasks", JArray (map subtask_value (Task.subtasks t)));
     (units "reminded", JBool (Task.reminded t))].

(** A text that stands where a JSON value ends: the end of the input, a
    comma or a closing bracket. *)
Definition ends_value (rest : list ascii) : bool :=
  match rest with
  | [] => true
  | c :: _ => Ascii.eqb c "," || Ascii.eqb c "]" || Ascii.eqb c "}"
  end.

(** A character a JSON text written without white space begins with. *)
Definition begins_value (c : ascii) : bool :=
  Ascii.eqb c double_quote || Ascii.eqb c "{" || Ascii.eqb c "["
  || Ascii.eqb c "-" || Ascii.eqb c "n" || Ascii.eqb c "t" || Ascii.eqb c "f"
  || match digit_value c with Some _ => true | None => false end.

(** [text] is read as the value [v], with any fuel from its length on and
    whatever follows the value. *)
Definition parses (text : list ascii) (v : json) : Prop :=
  (∃ c t, text = c :: t ∧ begins_value c = true)
  ∧ ∀ fuel rest,
      (length text ≤ fuel)%nat → ends_value rest = true →
      json_value fuel (text ++ rest) = Some (v, rest).

(** A member [key: text] is read as the pair of the code units of [key]
    and the value [text] is read as. *)
Definition member_parses (m : string * list ascii) (kv : list N * json) : Prop :=
  fst kv = units (fst m) ∧ parses (snd m) (snd kv).

(** ** Example data *)

(** A task with the id [i], created at [created]. *)
Definition created_at (i : string) (created : Z) : Task :=
  Task.mk i i "General" "Low" None created false [] false.

(** * Part II: theorems *)

(** ** The methods of the host on examples *)

Example Date_getTime_examples :
  Date_getTime "1970-01-01" = Some 0
  ∧ Date_getTime "2025-01-10" = Some 1736467200000
  ∧ Date_getTime "2024-02-29" = Some 1709164800000
  ∧ Date_getTime "2025-02-29" = None
  ∧ Date_getTime "tomorrow" = None.
Proof. repeat split. Qed.

Example StringToNumber_examples :
  StringToNumber "2025-01-10" = NaN
  ∧ StringToNumber "" = of_Z 0
  ∧ StringToNumber " 42 " = of_Z 42
  ∧ StringToNumber "0x1F" = of_Z 31
  ∧ StringToNumber "-Infinity" = Infinity true
  ∧ StringToNumber "1e" = NaN.
Proof. repeat split. Qed.

Example string_examples :
  trim "  Buy milk  " = "Buy milk"
  ∧ toLowerCase "Buy Milk" = "buy milk"
  ∧ includes "milk" "buy milk" = true
  ∧ includes "" "" = true
  ∧ includes "eggs" "buy milk" = false.
Proof. repeat split. Qed.

Example splice_examples :
  splice 1 1 [] [10; 20; 30] = ([20], [10; 30])
  ∧ splice 2 0 [99] [10; 30] = ([], [10; 30; 99])
  ∧ splice (-1) 1 [] [10; 20; 30] = ([30], [10; 20])
  ∧ splice 5 1 [7] [10; 20; 30] = ([], [10; 20; 30; 7]).
Proof. repeat split. Qed.

Example sort_examples :
  sort (λ a b, of_Z (a - b)) [3; 1; 2] = [1; 2; 3]
  ∧ sort (λ a b, of_Z (fst a - fst b)) [(2, "x"); (1, "y"); (2, "z"); (1, "w")]
    = [(1, "y"); (1, "w"); (2, "x"); (2, "z")]
  ∧ sort (λ _ _ : Z, NaN) [3; 1; 2] = [3; 1; 2].
Proof. repeat split. Qed.

Example toString36_examples :
  toString36 0 = "0" ∧ toString36 35 = "z" ∧ toString36 36 = "10"
  ∧ toString36 1736467200000 = "m5pzqio0"
  ∧ uid sample_env = "m5pzqio04fzy".
Proof. repeat split. Qed.

Example JSON_parse_examples :
  JSON_parse "[]" = Some (JArray [])
  ∧ JSON_parse " [1, 2.5e3, true, null] "
    = Some (JArray [JNumber "1"; JNumber "2.5e3"; JBool true; JNull])
  ∧ JSON_parse "[1,]" = None
  ∧ JSON_parse "not json" = None.
Proof. repeat split. Qed.

(** ** Facts about the array methods *)

Section ArrayFacts.
Context {A : Type}.
Implicit Types (p : A → bool) (l : list A).

Lemma findIndex_bounds p l : -1 ≤ findIndex p l < Z.of_nat (length l).
Proof.
    induction l as [|x l IH]; simpl; [lia|].
    destruct (p x); [lia|].
    destruct (Z.ltb_spec (findIndex p l) 0); lia.
Qed.

  (** A found index is the first position whose element satisfies [p]. *)
Lemma findIndex_found p l (i : nat) :
    findIndex p l = Z.of_nat i →
    ∃ x, l !! i = Some x ∧ p x = true
         ∧ ∀ (k : nat) y, (k < i)%nat → l !! k = Some y → p y = false.
Proof.
    revert i. induction l as [|x l IH]; intros i; simpl; [lia|].
    destruct (p x) eqn:Hpx.
    - intros Hi. assert (i = 0%nat) as -> by lia.
      exists x. repeat split; [done|]. intros; lia.
    - destruct (Z.ltb_spec (findIndex p l) 0); [lia|].
      intros Hi. destruct i as [|i]; [lia|].
      destruct (IH i) as (y & Hy & Hpy & Hlt); [lia|].
      exists y. repeat split; [done..|].
      intros [|k] z Hk Hz; simpl in *; [congruence|].
      apply (Hlt k); [lia|done].
Qed.

Lemma findIndex_first p l (i : nat) x :
    l !! i = Some x → p x = true →
    (∀ (k : nat) y, (k < i)%nat → l !! k = Some y → p y = false) →
    findIndex p l = Z.of_nat i.
Proof.
    revert i. induction l as [|z l IH]; intros [|i] Hx Hp Hlt; simpl in *;
      try done.
    - injection Hx as ->. by rewrite Hp.
    - rewrite (Hlt 0%nat z); [|lia|done].
      rewrite (IH i); [|done..|].
      + destruct (Z.ltb_spec (Z.of_nat i) 0); lia.
      + intros k y Hk Hy. apply (Hlt (S k)); [lia|done].
Qed.

Lemma findIndex_absent p l :
    findIndex p l < 0 ↔ Forall (λ x, p x = false) l.
Proof.
    induction l as [|x l IH]; simpl.
    - split; [constructor|lia].
    - destruct (p x) eqn:Hpx.
      + split; [lia|]. inversion 1; congruence.
      + pose proof (findIndex_bounds p l).
        destruct (Z.ltb_spec (findIndex p l) 0).
        * split; [|lia]. constructor; [done|]. apply IH; lia.
        * split; [lia|]. inversion 1; subst. apply IH in H5. lia.
Qed.

  (** [splice(i, 1)] at a valid index removes exactly the element there. *)
Lemma splice_remove l (i : nat) x :
    l !! i = Some x → splice (Z.of_nat i) 1 [] l = ([x], delete i l).
Proof.
    intros Hx. pose proof (lookup_lt_Some _ _ _ Hx) as Hlt.
    unfold splice. rewrite (proj2 (Z.ltb_ge _ _)) by lia.
    rewrite Z.min_l by lia. rewrite Z.max_l by lia. rewrite Z.min_l by lia.
    rewrite Nat2Z.id. change (Z.to_nat 1) with 1%nat. f_equal.
    - rewrite (drop_S _ _ _ Hx). simpl. by rewrite take_0.
    - rewrite Nat.add_1_r. simpl. symmetry. apply delete_take_drop.
Qed.

  (** [splice(j, 0, x)] at an index within the array inserts [x] there. *)
Lemma splice_insert l (j : nat) x :
    (j ≤ length l)%nat →
    snd (splice (Z.of_nat j) 0 [x] l) = take j l ++ x :: drop j l.
Proof.
    intros Hj. unfold splice. rewrite (proj2 (Z.ltb_ge _ _)) by lia.
    rewrite Z.min_l by lia. rewrite Z.max_l by lia. rewrite Z.min_l by lia.
    rewrite Nat2Z.id. change (Z.to_nat 0) with 0%nat.
    by rewrite Nat.add_0_r.
Qed.

Lemma lookup_insert_at l (j : nat) x :
    (j ≤ length l)%nat → (take j l ++ x :: drop j l) !! j = Some x.
Proof.
    intros Hj. rewrite lookup_app_r; rewrite length_take; [|lia].
    by replace (j - j `min` length l)%nat with 0%nat by lia.
Qed.
End ArrayFacts.

(** ** Reordering: what [reorderTasks] computes *)

Lemma has_id_true i t : has_id i t = true ↔ Task.id t = i.
Proof. apply String.eqb_eq. Qed.

Lemma has_id_false i t : has_id i t = false ↔ Task.id t ≠ i.
Proof. apply String.eqb_neq. Qed.

Lemma findIndex_present i (l : list Task) :
  i ∈ ids l ↔ 0 ≤ findIndex (has_id i) l.
Proof.
  pose proof (findIndex_absent (has_id i) l) as Habs.
  split.
  - intros Hin. destruct (Z.ltb_spec (findIndex (has_id i) l) 0); [|done].
    apply Habs in H. apply list_elem_of_fmap in Hin as (t & -> & Ht).
    rewrite Forall_forall in H. apply H, has_id_false in Ht. done.
  - intros Hge. destruct (decide (i ∈ ids l)) as [|Hni]; [done|].
    assert (findIndex (has_id i) l < 0); [|lia].
    apply Habs, Forall_forall. intros t Ht. apply has_id_false.
    intros <-. apply Hni, list_elem_of_fmap. eauto.
Qed.

Lemma reorderTasks_absent f t l :
  findIndex (has_id f) l < 0 ∨ findIndex (has_id t) l < 0 →
  reorderTasks f t l = l.
Proof.
  intros H. unfold reorderTasks.
  destruct (Z.ltb_spec (findIndex (has_id f) l) 0);
    destruct (Z.ltb_spec (findIndex (has_id t) l) 0); simpl; try done; lia.
Qed.

Lemma reorderTasks_found f t l (i j : nat) x :
  findIndex (has_id f) l = Z.of_nat i →
  findIndex (has_id t) l = Z.of_nat j →
  l !! i = Some x →
  reorderTasks f t l = take j (delete i l) ++ x :: drop j (delete i l).
Proof.
  intros Hi Hj Hx. unfold reorderTasks. rewrite Hi, Hj.
  rewrite !(proj2 (Z.ltb_ge _ _)) by lia. cbn [orb].
  rewrite (splice_remove _ _ _ Hx). apply splice_insert.
  pose proof (findIndex_bounds (has_id t) l).
  pose proof (lookup_lt_Some _ _ _ Hx). rewrite length_delete by eauto. lia.
Qed.

(** Cutting an element out and putting it back at the same index. *)
Lemma take_delete_insert {A} (l : list A) (i : nat) x :
  l !! i = Some x → take i (delete i l) ++ x :: drop i (delete i l) = l.
Proof.
  revert i. induction l as [|y l IH]; intros [|i] Hx; simpl in *; try done.
  - by injection Hx as ->.
  - f_equal. by apply IH.
Qed.

Lemma insert_delete_Permutation {A} (l : list A) (i j : nat) x :
  l !! i = Some x → take j (delete i l) ++ x :: drop j (delete i l) ≡ₚ l.
Proof.
  intros Hx. rewrite <- Permutation_middle, take_drop.
  symmetry. by apply delete_Permutation.
Qed.

Lemma index_after_removal_forward t l (i j : nat) :
  (i < j)%nat → findIndex (has_id t) l = Z.of_nat j →
  index_after_removal t i l = Z.of_nat j - 1.
Proof.
  intros Hij Hj. destruct (findIndex_found _ _ _ Hj) as (y & Hy & Hpy & Hlt).
  unfold index_after_removal.
  replace (Z.of_nat j - 1) with (Z.of_nat (j - 1)) by lia.
  apply (findIndex_first _ _ _ y); [|done|].
  - rewrite list_lookup_delete_ge by lia. by replace (S (j - 1)) with j by lia.
  - intros k z Hk Hz. destruct (decide (k < i)%nat).
    + rewrite list_lookup_delete_lt in Hz by done. apply (Hlt k); [lia|done].
    + rewrite list_lookup_delete_ge in Hz by lia. apply (Hlt (S k)); [lia|done].
Qed.

Lemma index_after_removal_backward t l (i j : nat) :
  (j < i)%nat → findIndex (has_id t) l = Z.of_nat j →
  index_after_removal t i l = Z.of_nat j.
Proof.
  intros Hij Hj. destruct (findIndex_found _ _ _ Hj) as (y & Hy & Hpy & Hlt).
  unfold index_after_removal.
  apply (findIndex_first _ _ _ y); [|done|].
  - by rewrite list_lookup_delete_lt.
  - intros k z Hk Hz. rewrite list_lookup_delete_lt in Hz by lia.
    apply (Hlt k); [lia|done].
Qed.

(** The index of a present id, as a natural number. *)
Lemma findIndex_present_nat i (l : list Task) :
  i ∈ ids l → ∃ n : nat, findIndex (has_id i) l = Z.of_nat n.
Proof.
  intros H%findIndex_present. exists (Z.to_nat (findIndex (has_id i) l)). lia.
Qed.

(** After [reorderTasks], the source task sits at the index the target had
    when the call started. *)
Lemma reorderTasks_lookup_target f t l (i j : nat) :
  findIndex (has_id f) l = Z.of_nat i →
  findIndex (has_id t) l = Z.of_nat j →
  reorderTasks f t l !! j = l !! i.
Proof.
  intros Hi Hj. destruct (findIndex_found _ _ _ Hi) as (x & Hx & _).
  rewrite (reorderTasks_found f t l i j x) by done. rewrite Hx.
  apply lookup_insert_at.
  pose proof (findIndex_bounds (has_id t) l).
  pose proof (lookup_lt_Some _ _ _ Hx). rewrite length_delete by eauto. lia.
Qed.

Lemma reorderTasks_Permutation f t l : reorderTasks f t l ≡ₚ l.
Proof.
  destruct (Z.ltb_spec (findIndex (has_id f) l) 0) as [Hf|Hf];
    [by rewrite reorderTasks_absent by auto|].
  destruct (Z.ltb_spec (findIndex (has_id t) l) 0) as [Ht|Ht];
    [by rewrite reorderTasks_absent by auto|].
  destruct (findIndex_found (has_id f) l (Z.to_nat (findIndex (has_id f) l)))
    as (x & Hx & _); [lia|].
  rewrite (reorderTasks_found f t l (Z.to_nat (findIndex (has_id f) l))
             (Z.to_nat (findIndex (has_id t) l)) x) by (done || lia).
  by apply insert_delete_Permutation.
Qed.

Lemma reorderTasks_same f l : reorderTasks f f l = l.
Proof.
  destruct (Z.ltb_spec (findIndex (has_id f) l) 0) as [Hf|Hf];
    [by rewrite reorderTasks_absent by auto|].
  destruct (findIndex_found (has_id f) l (Z.to_nat (findIndex (has_id f) l)))
    as (x & Hx & _); [lia|].
  rewrite (reorderTasks_found f f l (Z.to_nat (findIndex (has_id f) l))
             (Z.to_nat (findIndex (has_id f) l)) x) by (done || lia).
  by apply take_delete_insert.
Qed.

(** ** C1: where the moved task lands *)

(** Where the target is after the call: right behind the moved task when
    the task came from behind it, right before it when the task came from
    before it. *)
Lemma reorderTasks_lookup_neighbour f t l (i j : nat) :
  findIndex (has_id f) l = Z.of_nat i →
  findIndex (has_id t) l = Z.of_nat j →
  ((j < i)%nat → reorderTasks f t l !! S j = l !! j)
  ∧ ((i < j)%nat → reorderTasks f t l !! (j - 1)%nat = l !! j).
Proof.
  intros Hi Hj. destruct (findIndex_found _ _ _ Hi) as (x & Hx & _).
  destruct (findIndex_found _ _ _ Hj) as (y & Hy & _).
  pose proof (lookup_lt_Some _ _ _ Hx) as Hli.
  pose proof (lookup_lt_Some _ _ _ Hy) as Hlj.
  assert (length (delete i l) = (length l - 1)%nat) as Hlen
    by (rewrite length_delete by eauto; lia).
  rewrite (reorderTasks_found f t l i j x) by done. split; intros Hij.
  - rewrite lookup_app_r; rewrite length_take; [|lia].
    replace (S j - j `min` length (delete i l))%nat with 1%nat by lia.
    simpl. rewrite lookup_drop, Nat.add_0_r. by apply list_lookup_delete_lt.
  - rewrite lookup_app_l by (rewrite length_take; lia).
    rewrite lookup_take_lt by lia.
    rewrite list_lookup_delete_ge by lia. by replace (S (j - 1)) with j by lia.
Qed.

(** C1, amended.  For distinct ids both present in the list,
    [reorderTasks fromId toId] cuts the [fromId] task out and puts it back
    at the index [j] that [toId] had before the removal: the task is found
    at index [j] of the result.  When [fromId] stood after [toId] that is
    the index of [toId] after the removal, and [toId] follows at [j + 1];
    when it stood before, [toId] has moved to [j - 1] by the removal and
    the task lands one place past it. *)
Theorem reorderTasks_lands_at_target_index (fromId toId : string) (l : list Task) :
  fromId ≠ toId → fromId ∈ ids l → toId ∈ ids l →
  ∃ (i j : nat) (x : Task),
    findIndex (has_id fromId) l = Z.of_nat i
    ∧ findIndex (has_id toId) l = Z.of_nat j
    ∧ l !! i = Some x
    ∧ reorderTasks fromId toId l = take j (delete i l) ++ x :: drop j (delete i l)
    ∧ reorderTasks fromId toId l !! j = Some x
    ∧ ((j < i)%nat →
       index_after_removal toId i l = Z.of_nat j
       ∧ reorderTasks fromId toId l !! S j = l !! j)
    ∧ ((i < j)%nat →
       index_after_removal toId i l = Z.of_nat j - 1
       ∧ reorderTasks fromId toId l !! (j - 1)%nat = l !! j).
Proof.
  intros Hne [i Hi]%findIndex_present_nat [j Hj]%findIndex_present_nat.
  destruct (findIndex_found _ _ _ Hi) as (x & Hx & Hpx & _).
  destruct (reorderTasks_lookup_neighbour fromId toId l i j Hi Hj) as [Hb Hf].
  exists i, j, x. repeat split; try done.
  - by apply reorderTasks_found.
  - rewrite <- Hx. by apply reorderTasks_lookup_target.
  - by apply index_after_removal_backward.
  - by apply Hb.
  - by apply index_after_removal_forward.
  - by apply Hf.
Qed.

(** The theorem on three tasks, moving the first onto the last. *)
Lemma reorderTasks_lands_at_target_index_witness :
  ∃ (i j : nat) (x : Task),
    findIndex (has_id "a") [plain "a"; plain "b"; plain "c"] = Z.of_nat i
    ∧ findIndex (has_id "c") [plain "a"; plain "b"; plain "c"] = Z.of_nat j
    ∧ [plain "a"; plain "b"; plain "c"] !! i = Some x
    ∧ reorderTasks "a" "c" [plain "a"; plain "b"; plain "c"]
      = take j (delete i [plain "a"; plain "b"; plain "c"])
        ++ x :: drop j (delete i [plain "a"; plain "b"; plain "c"])
    ∧ reorderTasks "a" "c" [plain "a"; plain "b"; plain "c"] !! j = Some x
    ∧ ((j < i)%nat →
       index_after_removal "c" i [plain "a"; plain "b"; plain "c"] = Z.of_nat j
       ∧ reorderTasks "a" "c" [plain "a"; plain "b"; plain "c"] !! S j
         = [plain "a"; plain "b"; plain "c"] !! j)
    ∧ ((i < j)%nat →
       index_after_removal "c" i [plain "a"; plain "b"; plain "c"] = Z.of_nat j - 1
       ∧ reorderTasks "a" "c" [plain "a"; plain "b"; plain "c"] !! (j - 1)%nat
         = [plain "a"; plain "b"; plain "c"] !! j).
Proof.
  apply (reorderTasks_lands_at_target_index "a" "c"
           [plain "a"; plain "b"; plain "c"]).
  - discriminate.
  - vm_compute. apply list_elem_of_In. simpl. auto.
  - vm_compute. apply list_elem_of_In. simpl. auto.
Defined.

(** C1 as stated fails on the code: moving the first of three tasks onto
    the last one leaves it behind the target, at index 2, while the target
    is at index 1 after the removal. *)
Lemma reorderTasks_forward_counterexample :
  reorderTasks "a" "c" [plain "a"; plain "b"; plain "c"]
    = [plain "b"; plain "c"; plain "a"]
  ∧ index_after_removal "c" 0 [plain "a"; plain "b"; plain "c"] = 1
  ∧ ¬ reinserted_at_index_after_removal "a" "c" [plain "a"; plain "b"; plain "c"].
Proof.
  split; [reflexivity|]. split; [reflexivity|].
  intros H. specialize (H 0%nat (plain "a") eq_refl eq_refl).
  vm_compute in H. discriminate.
Qed.

(** ** C5: repeating a reorder *)

Lemma reorderTasks_ids_elem f t l i : i ∈ ids (reorderTasks f t l) ↔ i ∈ ids l.
Proof.
  unfold ids. by rewrite (fmap_Permutation Task.id _ _ (reorderTasks_Permutation f t l)).
Qed.

(** For distinct ids that are both present a call never leaves the list as
    it is: the slot of the target is taken by the source task. *)
Lemma reorderTasks_moves a b l :
  a ≠ b → a ∈ ids l → b ∈ ids l → reorderTasks a b l ≠ l.
Proof.
  intros Hne [i Hi]%findIndex_present_nat [j Hj]%findIndex_present_nat Heq.
  pose proof (reorderTasks_lookup_target a b l i j Hi Hj) as Hlook.
  rewrite Heq in Hlook.
  destruct (findIndex_found _ _ _ Hi) as (x & Hx & Hpx%has_id_true & _).
  destruct (findIndex_found _ _ _ Hj) as (y & Hy & Hpy%has_id_true & _).
  congruence.
Qed.

(** C5, amended.  Calling [reorderTasks a b] twice in a row gives the order
    one call gives exactly when [a = b] or one of the two ids is not in the
    list, the cases in which a call changes nothing; for distinct ids that
    are both present the second call changes the order again. *)
Theorem reorderTasks_twice_iff (a b : string) (l : list Task) :
  reorder_twice_as_once a b l ↔ (a = b ∨ a ∉ ids l ∨ b ∉ ids l).
Proof.
  unfold reorder_twice_as_once. split.
  - intros Heq.
    destruct (decide (a = b)) as [|Hne]; [by left|]. right.
    destruct (decide (a ∈ ids l)) as [Ha|]; [|by left]. right.
    intros Hb. apply (reorderTasks_moves a b (reorderTasks a b l)); try done;
      by apply reorderTasks_ids_elem.
  - intros [->|[Ha|Hb]].
    + by rewrite !reorderTasks_same.
    + assert (findIndex (has_id a) l < 0) as Hneg.
      { destruct (Z.ltb_spec (findIndex (has_id a) l) 0); [done|].
        by apply findIndex_present in H. }
      by rewrite !(reorderTasks_absent a b l) by auto.
    + assert (findIndex (has_id b) l < 0) as Hneg.
      { destruct (Z.ltb_spec (findIndex (has_id b) l) 0); [done|].
        by apply findIndex_present in H. }
      by rewrite !(reorderTasks_absent a b l) by auto.
Qed.

(** C5 as stated fails on the code: with three tasks, moving the first onto
    the last gives [b; c; a], and the same call again gives [b; a; c]. *)
Lemma reorderTasks_twice_counterexample :
  reorderTasks "a" "c" [plain "a"; plain "b"; plain "c"]
    = [plain "b"; plain "c"; plain "a"]
  ∧ reorderTasks "a" "c" (reorderTasks "a" "c" [plain "a"; plain "b"; plain "c"])
    = [plain "b"; plain "a"; plain "c"]
  ∧ ¬ reorder_twice_as_once "a" "c" [plain "a"; plain "b"; plain "c"].
Proof.
  split; [reflexivity|]. split; [reflexivity|].
  unfold reorder_twice_as_once. vm_compute. discriminate.
Qed.

(** ** C9: a reorder is a permutation *)

(** C9.  For ids both present in the list, the result of [reorderTasks] is a
    permutation of the input: the same task records, none lost, none
    duplicated, none altered; it has the same length, and the task found at
    every index of the result is a task of the input. *)
Theorem reorderTasks_permutation_of_input (fromId toId : string) (l : list Task) :
  fromId ∈ ids l → toId ∈ ids l →
  reorderTasks fromId toId l ≡ₚ l
  ∧ length (reorderTasks fromId toId l) = length l
  ∧ ∀ x, x ∈ reorderTasks fromId toId l ↔ x ∈ l.
Proof.
  intros _ _. pose proof (reorderTasks_Permutation fromId toId l) as HP.
  split; [done|]. split; [by rewrite HP|]. intros x. by rewrite HP.
Qed.

(** The theorem on three tasks, moving the last onto the first. *)
Lemma reorderTasks_permutation_of_input_witness :
  reorderTasks "c" "a" [plain "a"; plain "b"; plain "c"]
    ≡ₚ [plain "a"; plain "b"; plain "c"]
  ∧ length (reorderTasks "c" "a" [plain "a"; plain "b"; plain "c"])
    = length [plain "a"; plain "b"; plain "c"]
  ∧ ∀ x, x ∈ reorderTasks "c" "a" [plain "a"; plain "b"; plain "c"]
         ↔ x ∈ [plain "a"; plain "b"; plain "c"].
Proof.
  apply (reorderTasks_permutation_of_input "c" "a"
           [plain "a"; plain "b"; plain "c"]).
  - vm_compute. apply list_elem_of_In. simpl. auto.
  - vm_compute. apply list_elem_of_In. simpl. auto.
Defined.

(** ** C2: completion follows the subtasks *)

Lemma filter_length_all {A} (p : A → bool) (l : list A) :
  length (List.filter p l) = length l ↔ Forall (λ x, p x = true) l.
Proof.
  induction l as [|x l IH]; simpl.
  - split; [constructor|done].
  - pose proof (List.filter_length_le p l) as Hle. destruct (p x) eqn:Hpx; simpl.
    + split.
      * intros Hlen. constructor; [done|]. apply IH. lia.
      * inversion 1; subst. f_equal. by apply IH.
    + split; [lia|]. inversion 1; congruence.
Qed.

Lemma updateTaskProgress_subtasks task :
  Task.subtasks (updateTaskProgress task) = Task.subtasks task.
Proof.
  unfold updateTaskProgress.
  destruct (negb _); [|done]. by destruct (_ && _).
Qed.

(** [updateTaskProgress] establishes I1, whatever the task was. *)
Lemma updateTaskProgress_I1 task : I1 (updateTaskProgress task).
Proof.
  unfold I1. rewrite updateTaskProgress_subtasks. intros Hne.
  unfold updateTaskProgress.
  destruct (Task.subtasks task) as [|s l] eqn:Hs; [done|].
  change (negb (length (s :: l) =? 0)%nat) with true. cbn iota.
  rewrite <- (filter_length_all Subtask.done (s :: l)).
  destruct (Nat.eqb_spec (length (List.filter Subtask.done (s :: l)))
                         (length (s :: l))) as [He|He]; simpl; split; try done.
Qed.

Lemma set_completed_same task : Task.set_completed (Task.completed task) task = task.
Proof. by destruct task. Qed.

(** On a task that satisfies I1, [updateTaskProgress] changes nothing. *)
Lemma updateTaskProgress_fixed task : I1 task → updateTaskProgress task = task.
Proof.
  intros HI. unfold updateTaskProgress.
  destruct (Task.subtasks task) as [|s l] eqn:Hs; [done|].
  change (negb (length (s :: l) =? 0)%nat) with true. cbn iota.
  unfold I1 in HI. rewrite Hs in HI. specialize (HI ltac:(done)).
  rewrite <- (filter_length_all Subtask.done (s :: l)) in HI.
  destruct (Nat.eqb_spec (length (List.filter Subtask.done (s :: l)))
                         (length (s :: l))) as [He|He]; simpl.
  - rewrite <- (proj2 HI He). apply set_completed_same.
  - destruct (Task.completed task) eqn:Hc.
    + destruct He. by apply HI.
    + rewrite <- Hc. apply set_completed_same.
Qed.

Lemma updateTaskProgress_idemp task :
  updateTaskProgress (updateTaskProgress task) = updateTaskProgress task.
Proof. apply updateTaskProgress_fixed, updateTaskProgress_I1. Qed.

(** *** The handlers of a node, as far as the task object goes *)

Lemma renderSubtasks_snd found task :
  snd (renderSubtasks found task)
  = if forallb (λ s, found (Subtask.text s)) (Task.subtasks task)
    then updateTaskProgress task else task.
Proof. unfold renderSubtasks. by destruct (forallb _ _). Qed.

Lemma renderSubtasks_refreshed found task :
  snd (renderSubtasks found task) = task
  ∨ snd (renderSubtasks found task) = updateTaskProgress task.
Proof. rewrite renderSubtasks_snd. destruct (forallb _ _); auto. Qed.

Lemma rendered_forallb found task :
  rendered found task
  ↔ forallb (λ s, found (Subtask.text s)) (Task.subtasks task) = true.
Proof.
  unfold rendered. rewrite List.forallb_forall, Forall_forall.
  split; intros H x Hx; apply H; by apply list_elem_of_In.
Qed.

Lemma subcheck_click_snd found idx task :
  snd (subcheck_click found idx task)
  = snd (renderSubtasks found
           (Task.set_subtasks (alter toggle_done idx (Task.subtasks task)) task)).
Proof.
  unfold subcheck_click, mbind, Node_bind, Node_bind_def, assign, renderSubtasks.
  destruct (forallb _ _); simpl; [|done]. apply updateTaskProgress_idemp.
Qed.

Lemma delete_sub_click_snd found idx task :
  snd (delete_sub_click found idx task)
  = snd (renderSubtasks found
           (Task.set_subtasks
              (snd (splice (Z.of_nat idx) 1 [] (Task.subtasks task))) task)).
Proof.
  unfold delete_sub_click, mbind, Node_bind, Node_bind_def, assign, renderSubtasks.
  destruct (forallb _ _); simpl; [|done]. apply updateTaskProgress_idemp.
Qed.

Lemma addSubBtn_click_snd found value task :
  snd (addSubBtn_click found value task)
  = if truthy (trim value)
    then snd (renderSubtasks found
                (Task.set_subtasks
                   (Task.subtasks task ++ [Subtask.mk (trim value) false]) task))
    else task.
Proof.
  unfold addSubBtn_click. destruct (truthy (trim value)); simpl; [|done].
  unfold mbind, Node_bind, Node_bind_def, assign. done.
Qed.

Lemma checkBtn_toggle_snd found task :
  snd (checkBtn_toggle found task)
  = snd (renderSubtasks found
           (if negb (Nat.eqb (length (Task.subtasks task)) 0) then
              Task.set_completed (negb (forallb Subtask.done (Task.subtasks task)))
                (Task.set_subtasks
                   (map (λ s, Subtask.mk (Subtask.text s)
                                (negb (forallb Subtask.done (Task.subtasks task))))
                        (Task.subtasks task))
                   task)
            else Task.set_completed (negb (Task.completed task)) task)).
Proof. unfold checkBtn_toggle, mbind, Node_bind, Node_bind_def, assign. done. Qed.

(** What a handler of a node leaves in the store. *)
Lemma on_task_snd n (handler : Node unit) st :
  tasks (snd (on_task n handler st)) = alter (λ t, snd (handler t)) n (tasks st)
  ∧ log (snd (on_task n handler st)) = log st.
Proof.
  unfold on_task. destruct (tasks st !! n) as [task|] eqn:Ht.
  - destruct (handler task) as [outcome task'] eqn:Hh. simpl. split; [|done].
    replace task' with (snd (handler task)) by (by rewrite Hh).
    clear Hh. revert n Ht. generalize (tasks st) as l.
    induction l as [|x l IH]; intros [|n] Ht; simpl in *; try done.
    + by injection Ht as ->.
    + f_equal. by apply IH.
  - split; [|done]. simpl. revert n Ht. generalize (tasks st) as l.
    induction l as [|x l IH]; intros [|n] Ht; simpl in *; try done.
    f_equal. by apply IH.
Qed.

(** The check button leaves the task of its node with I1, whether
    [renderSubtasks] throws or not: it writes [completed] and every [done]
    itself. *)
Lemma checkBtn_toggle_I1 found task : I1 (snd (checkBtn_toggle found task)).
Proof.
  rewrite checkBtn_toggle_snd.
  destruct (renderSubtasks_refreshed found
              (if negb (Nat.eqb (length (Task.subtasks task)) 0) then
                 Task.set_completed (negb (forallb Subtask.done (Task.subtasks task)))
                   (Task.set_subtasks
                      (map (λ s, Subtask.mk (Subtask.text s)
                                   (negb (forallb Subtask.done (Task.subtasks task))))
                           (Task.subtasks task))
                      task)
               else Task.set_completed (negb (Task.completed task)) task))
    as [-> | ->]; [|apply updateTaskProgress_I1].
  destruct (Task.subtasks task) as [|s l] eqn:Hs; simpl.
  - unfold I1. simpl. by rewrite Hs.
  - unfold I1. simpl. intros _.
    destruct (negb (Subtask.done s && forallb Subtask.done l)); split; try done.
    + intros _. constructor; [done|]. apply Forall_fmap, Forall_forall. done.
    + intros H. apply Forall_cons in H as [H _]. done.
Qed.


Lemma refreshed_refl l : refreshed l l.
Proof. apply Forall2_same_length_lookup_2; [done|]. intros; simplify_eq; auto. Qed.

Lemma createTaskNode_refreshed found now n st l :
  refreshed l (tasks st) →
  refreshed l (tasks (snd (createTaskNode found now n st)))
  ∧ log (snd (createTaskNode found now n st)) = log st.
Proof.
  intros HR. unfold createTaskNode.
  destruct (tasks st !! n) as [task|] eqn:Ht; [|done].
  destruct (classList_add _); [done|].
  destruct (_ && _); [done|].
  destruct (on_task_snd n (renderSubtasks found) st) as [-> ->]. split; [|done].
  apply Forall2_alter_r; [done|]. intros x y _ _ Hxy.
  destruct (renderSubtasks_refreshed found y) as [-> | ->]; [done|].
  destruct Hxy as [->| ->].
  - by right.
  - right. apply updateTaskProgress_idemp.
Qed.

Lemma forEach_createTaskNode_refreshed found now ns st l :
  refreshed l (tasks st) →
  refreshed l (tasks (snd (forEach (createTaskNode found now) ns st)))
  ∧ log (snd (forEach (createTaskNode found now) ns st)) = log st.
Proof.
  revert st. induction ns as [|n ns IH]; intros st HR; [done|].
  destruct (createTaskNode_refreshed found now n st l HR) as [HR1 Hlog1].
  simpl. unfold mbind, M_bind, M_bind_def.
  destruct (createTaskNode found now n st) as [[[]|e] st1] eqn:Hc; simpl in *.
  - destruct (IH st1 HR1) as [HR2 Hlog2]. split; [done|congruence].
  - done.
Qed.

Lemma render_refreshed found c now st :
  refreshed (tasks st) (tasks (snd (render found c now st)))
  ∧ log (snd (render found c now st)) = log st.
Proof.
  unfold render. destruct (applyFilters _ _ _ _ _) as [filtered h].
  apply forEach_createTaskNode_refreshed, refreshed_refl.
Qed.



Lemma refreshed_rendered found before after :
  refreshed before after →
  Forall (rendered found) after → Forall (rendered found) before.
Proof.
  intros HR HI. eapply Forall2_Forall_l; [exact HR|].
  eapply Forall_impl; [exact HI|]. intros t' Ht' t [->| ->]; [done|].
  unfold rendered in *. by rewrite updateTaskProgress_subtasks in Ht'.
Qed.

(** C2, on the code.  A completed task has one subtask, done.  The user
    adds a subtask with the text [<!--].  On a host that finds no delete
    button in the markup of that text (the unclosed comment swallows it)
    the add handler pushes the subtask and ends in [renderSubtasks()] with
    a [TypeError], before [updateTaskProgress()]: the task is left
    completed with an open subtask, and I1 does not hold of it. *)
Theorem add_subtask_leaves_completed (found : string → bool) (env : Env) :
  found "<!--" = false →
  mutate found env 0 (AddSubtask "<!--") {| tasks := [all_done]; log := [] |}
  = (Throw "TypeError: Cannot read properties of null (reading 'addEventListener')",
     {| tasks := [Task.set_subtasks
                    [Subtask.mk "A" true; Subtask.mk "<!--" false] all_done];
        log := [] |})
  ∧ ¬ I1 (Task.set_subtasks [Subtask.mk "A" true; Subtask.mk "<!--" false] all_done).
Proof.
  intros Hf. split.
  - unfold mutate, on_task, addSubBtn_click.
    change (trim "<!--") with "<!--".
    unfold mbind, Node_bind, Node_bind_def, assign, renderSubtasks.
    cbn [lookup list_lookup tasks all_done negb truthy Task.subtasks Task.set_subtasks
         app forallb Subtask.text].
    rewrite Hf, andb_false_r. reflexivity.
  - unfold I1. simpl. intros H. destruct H as [H _]; [done|].
    specialize (H eq_refl). apply Forall_cons in H as [_ H].
    apply Forall_cons in H as [H _]. discriminate H.
Qed.

(** The theorem on a host that loses the button to the unclosed comment. *)
Lemma add_subtask_leaves_completed_witness :
  mutate found_unless_comment sample_env 0 (AddSubtask "<!--")
    {| tasks := [all_done]; log := [] |}
  = (Throw "TypeError: Cannot read properties of null (reading 'addEventListener')",
     {| tasks := [Task.set_subtasks
                    [Subtask.mk "A" true; Subtask.mk "<!--" false] all_done];
        log := [] |})
  ∧ ¬ I1 (Task.set_subtasks [Subtask.mk "A" true; Subtask.mk "<!--" false] all_done).
Proof.
  apply (add_subtask_leaves_completed found_unless_comment sample_env).
  reflexivity.
Defined.

(** Scenarios B and C of the specification: toggling subtask 0 leaves the
    task open, toggling subtask 1 as well completes it. *)
Example toggle_first_subtask :
  subcheck_click found_unless_comment 0 two_subtasks
  = (Normal tt,
     Task.mk "t1" "Report" "Work" "High" None 0 false
             [Subtask.mk "A" true; Subtask.mk "B" false] false).
Proof. reflexivity. Qed.

Example toggle_both_subtasks :
  snd (subcheck_click found_unless_comment 1
         (snd (subcheck_click found_unless_comment 0 two_subtasks)))
  = Task.mk "t1" "Report" "Work" "High" None 0 true
            [Subtask.mk "A" true; Subtask.mk "B" true] false.
Proof. reflexivity. Qed.

(** ** C3: which tasks are marked as reminded *)

(** What [remind] does to one task.  Without a due date, or already
    reminded, the task is left as it is.  With a due date that reads as the
    time [d], [reminded] is set exactly in the reminder window and nothing
    else changes; with a due date that is no valid date the task is left
    as it is. *)
Lemma remind_spec env task :
  (truthy_due (Task.due task) = false ∨ Task.reminded task = true →
   remind env task = (task, []))
  ∧ (∀ d, truthy_due (Task.due task) = true → Task.reminded task = false →
          Date_getTime (default "" (Task.due task)) = Some d →
          (Task.reminded (fst (remind env task)) = true
           ↔ in_reminder_window d (now env))
          ∧ fst (remind env task)
            = Task.set_reminded (Task.reminded (fst (remind env task))) task)
  ∧ (truthy_due (Task.due task) = true → Task.reminded task = false →
     Date_getTime (default "" (Task.due task)) = None →
     remind env task = (task, [])).
Proof.
  split; [|split].
  - unfold remind. intros [-> | ->]; [done|]. by rewrite orb_true_r.
  - intros d Hdue Hrem Htime. unfold remind, in_reminder_window.
    rewrite Hdue, Hrem, Htime. simpl.
    destruct (Z.ltb_spec (now env) (d - 30 * 60 * 1000));
      destruct (Z.ltb_spec (d - 30 * 60 * 1000 - now env) (24 * 3600 * 1000));
      destruct (Z.leb_spec (d - 30 * 60 * 1000) (now env));
      destruct (Z.ltb_spec (now env) d); simpl; rewrite ?Hrem;
      (split; [split; [try done; intros _; lia | try done; lia]
              | destruct task; simpl in *; by subst]).
  - unfold remind. intros Hdue Hrem Htime. by rewrite Hdue, Hrem, Htime.
Qed.

Lemma scheduleReminders_tasks env st :
  tasks (snd (scheduleReminders env st))
  = if Notification_in_window env
    then map (λ task, fst (remind env task)) (tasks st)
    else tasks st.
Proof.
  unfold scheduleReminders. destruct (Notification_in_window env); simpl; [|done].
  by rewrite map_map.
Qed.

(** C3, amended.  In a browser that has [Notification], for every task of
    the store with a due date that reads as the time [d] and
    [reminded = false], [scheduleReminders] at time [now] sets [reminded]
    to true exactly when [d - 30min > now] and [(d - 30min) - now < 24h],
    or [d - 30min <= now] and [d > now], and changes no other field; a task
    with no due date or with [reminded] already true is left as it is.  In
    a browser without [Notification] the function returns at once and no
    task is changed. *)
Theorem scheduleReminders_marks_in_window (env : Env) (st : State) (n : nat) (task : Task) :
  tasks st !! n = Some task →
  ∃ task',
    tasks (snd (scheduleReminders env st)) !! n = Some task'
    ∧ (Notification_in_window env = false → task' = task)
    ∧ (truthy_due (Task.due task) = false ∨ Task.reminded task = true →
       task' = task)
    ∧ (∀ d, Notification_in_window env = true →
            truthy_due (Task.due task) = true →
            Date_getTime (default "" (Task.due task)) = Some d →
            Task.reminded task = false →
            (Task.reminded task' = true ↔ in_reminder_window d (now env))
            ∧ task' = Task.set_reminded (Task.reminded task') task).
Proof.
  intros Hlook. rewrite scheduleReminders_tasks.
  destruct (remind_spec env task) as (Hskip & Hwin & _).
  destruct (Notification_in_window env) eqn:Hn.
  - exists (fst (remind env task)). split; [|split; [done|split]].
    + rewrite list_lookup_fmap, Hlook. done.
    + intros H. by rewrite (Hskip H).
    + intros d _ Hdue Htime Hrem. by apply Hwin.
  - exists task. split; [done|]. split; [done|]. split; [done|]. done.
Qed.

(** The theorem for the second task of a store of two. *)
Lemma scheduleReminders_marks_in_window_witness :
  ∃ task',
    tasks (snd (scheduleReminders sample_env
                  {| tasks := [plain "t2"; due_2025_01_10]; log := [] |}))
      !! 1%nat = Some task'
    ∧ (Notification_in_window sample_env = false → task' = due_2025_01_10)
    ∧ (truthy_due (Task.due due_2025_01_10) = false
       ∨ Task.reminded due_2025_01_10 = true → task' = due_2025_01_10)
    ∧ (∀ d, Notification_in_window sample_env = true →
            truthy_due (Task.due due_2025_01_10) = true →
            Date_getTime (default "" (Task.due due_2025_01_10)) = Some d →
            Task.reminded due_2025_01_10 = false →
            (Task.reminded task' = true ↔ in_reminder_window d (now sample_env))
            ∧ task' = Task.set_reminded (Task.reminded task') due_2025_01_10).
Proof.
  apply (scheduleReminders_marks_in_window sample_env
           {| tasks := [plain "t2"; due_2025_01_10]; log := [] |} 1 due_2025_01_10).
  reflexivity.
Defined.

(** C3 as stated fails on the code: one hour before the due time of a task
    that was not reminded, in a browser without [Notification],
    [scheduleReminders] leaves [reminded] false although the due time is in
    the window. *)
Lemma scheduleReminders_counterexample :
  in_reminder_window 1736467200000 (now env_without_notifications)
  ∧ tasks (snd (scheduleReminders env_without_notifications
                  {| tasks := [due_2025_01_10]; log := [] |}))
    = [due_2025_01_10]
  ∧ ¬ reminders_follow_window env_without_notifications
        {| tasks := [due_2025_01_10]; log := [] |}.
Proof.
  split; [unfold in_reminder_window; simpl; lia|]. split; [reflexivity|].
  intros H.
  destruct (H 0%nat due_2025_01_10 1736467200000 eq_refl eq_refl eq_refl eq_refl)
    as (task' & Hlook & Hiff).
  injection Hlook as <-.
  assert (Task.reminded due_2025_01_10 = true) as Hr; [|discriminate Hr].
  apply Hiff. unfold in_reminder_window. simpl. lia.
Qed.

(** Ten minutes before the due time, with notifications granted, the task
    is marked and the notification is shown at once. *)
Example scheduleReminders_fire_now :
  snd (scheduleReminders
         {| now := 1736467200000 - 600000; random36 := "0.1";
            Notification_in_window := true; permission := "granted";
            controls := controls sample_env |}
         {| tasks := [due_2025_01_10]; log := [] |})
  = {| tasks := [Task.set_reminded true due_2025_01_10];
       log := [ShowNotification "Task due soon" "Pay rent"] |}.
Proof. reflexivity. Qed.

(** ** C6: [applyFilters] leaves its argument alone *)

Section Keeps.
Context {R : Type}.
Implicit Types (h g : gmap loc (list R)) (a : loc).

Lemma keeps_dom g a h r : keeps g (a, h) → r ∈ dom g → r ∈ dom h.
Proof.
  intros [_ Hk] Hr. simpl in Hk. apply elem_of_dom. rewrite (Hk r Hr).
  by apply elem_of_dom.
Qed.

Lemma keeps_new g h (l : list R) :
  (∀ r, r ∈ dom g → h !! r = g !! r) → keeps g (array_new l h).
Proof.
  intros Hk. unfold array_new, keeps. simpl.
  assert (fresh (dom h) ∉ dom g) as Hfresh.
  { intros Hin. apply (is_fresh (dom h)). apply elem_of_dom.
    rewrite (Hk _ Hin). by apply elem_of_dom. }
  split; [done|]. intros r Hr. rewrite lookup_insert_ne; [by apply Hk|].
  by intros <-.
Qed.

Lemma keeps_slice g a h :
  (∀ r, r ∈ dom g → h !! r = g !! r) → keeps g (Array_slice a h).
Proof. apply keeps_new. Qed.

Lemma keeps_filter_step g (b : bool) (p : R → bool) a h :
  keeps g (a, h) →
  keeps g ((if b then Array_filter p a else mret a) h).
Proof.
  intros Hk. destruct b; [|done]. apply keeps_new, Hk.
Qed.

Lemma keeps_sort g (comparefn : R → R → number) a h :
  keeps g (a, h) → keeps g (Array_sort comparefn a h).
Proof.
  intros [Ha Hk]. unfold Array_sort, keeps. simpl in *. split; [done|].
  intros r Hr. rewrite lookup_insert_ne; [by apply Hk|]. by intros <-.
Qed.

Lemma applyFilters_keeps (obj : R → Task) c now list h :
  keeps h (applyFilters obj c now list h).
Proof.
  unfold applyFilters, mbind, Heap_bind, heap_bind.
  pose proof (keeps_slice h list h (λ _ _, eq_refl)) as K1.
  destruct (Array_slice list h) as [f1 h1].
  match goal with
  | |- context [(if truthy ?q then Array_filter ?p f1 else mret f1) h1] =>
      pose proof (keeps_filter_step h (truthy q) p f1 h1 K1) as K2;
      destruct ((if truthy q then Array_filter p f1 else mret f1) h1) as [f2 h2]
  end.
  assert (keeps h
            ((if String.eqb (filterStatus c) "pending"
              then Array_filter (λ t, negb (Task.completed (obj t))) f2
              else if String.eqb (filterStatus c) "completed"
              then Array_filter (λ t, Task.completed (obj t)) f2
              else if String.eqb (filterStatus c) "overdue"
              then Array_filter
                     (λ t, truthy_due (Task.due (obj t))
                           && time_lt (Date_getTime (default "" (Task.due (obj t)))) now
                           && negb (Task.completed (obj t))) f2
              else mret f2) h2)) as K3.
  { destruct (String.eqb (filterStatus c) "pending");
      [by apply (keeps_filter_step h true)|].
    destruct (String.eqb (filterStatus c) "completed");
      [by apply (keeps_filter_step h true)|].
    by apply (keeps_filter_step h). }
  match type of K3 with
  | keeps _ (?m h2) => destruct (m h2) as [f3 h3]
  end.
  match goal with
  | |- context [(if ?b then Array_filter ?p f3 else mret f3) h3] =>
      pose proof (keeps_filter_step h b p f3 h3 K3) as K4;
      destruct ((if b then Array_filter p f3 else mret f3) h3) as [f4 h4]
  end.
  match goal with
  | |- context [let '(_, h') := ?m h4 in _] =>
      assert (keeps h (m h4)) as K5;
      [|destruct (m h4) as [f5 h5]; split; [apply K4|apply K5]]
  end.
  destruct (String.eqb (sortBy c) "created_desc"); [by apply keeps_sort|].
  destruct (String.eqb (sortBy c) "date_asc"); [by apply keeps_sort|].
  destruct (String.eqb (sortBy c) "date_desc"); [by apply keeps_sort|].
  destruct (String.eqb (sortBy c) "priority_desc"); [by apply keeps_sort|].
  exact K4.
Qed.
End Keeps.

(** C6.  [applyFilters] does not mutate its argument: after the call the
    array it was handed holds the same elements in the same order, the
    array it returns is another one, and every other array that existed
    before the call is unchanged as well.  (Task objects are only read
    through [obj].) *)
Theorem applyFilters_leaves_input {R : Type} (obj : R → Task) (c : Controls)
    (now : Z) (list : loc) (h : gmap loc (Datatypes.list R)) (l : Datatypes.list R) :
  h !! list = Some l →
  snd (applyFilters obj c now list h) !! list = Some l
  ∧ fst (applyFilters obj c now list h) ≠ list
  ∧ ∀ r l', h !! r = Some l' → snd (applyFilters obj c now list h) !! r = Some l'.
Proof.
  intros Hl. destruct (applyFilters_keeps obj c now list h) as [Hfresh Hk].
  assert (∀ r l', h !! r = Some l' →
                  snd (applyFilters obj c now list h) !! r = Some l') as Hall.
  { intros r l' Hr. rewrite Hk; [done|]. apply elem_of_dom. eauto. }
  split; [by apply Hall|]. split; [|done].
  intros Heq. apply Hfresh. rewrite Heq. apply elem_of_dom. eauto.
Qed.

(** The theorem for three tasks sorted by priority. *)
Lemma applyFilters_leaves_input_witness :
  snd (applyFilters id (sorted_by "priority_desc") 0 1%positive
         {[ 1%positive := [no_due; due_2025_01_05; due_2025_01_10] ]})
    !! 1%positive = Some [no_due; due_2025_01_05; due_2025_01_10]
  ∧ fst (applyFilters id (sorted_by "priority_desc") 0 1%positive
           {[ 1%positive := [no_due; due_2025_01_05; due_2025_01_10] ]})
    ≠ 1%positive
  ∧ ∀ r l',
      ({[ 1%positive := [no_due; due_2025_01_05; due_2025_01_10] ]}
         : gmap loc (list Task)) !! r = Some l' →
      snd (applyFilters id (sorted_by "priority_desc") 0 1%positive
             {[ 1%positive := [no_due; due_2025_01_05; due_2025_01_10] ]})
        !! r = Some l'.
Proof.
  apply (applyFilters_leaves_input id (sorted_by "priority_desc") 0 1%positive
           {[ 1%positive := [no_due; due_2025_01_05; due_2025_01_10] ]}
           [no_due; due_2025_01_05; due_2025_01_10]).
  reflexivity.
Defined.

(** The returned array is sorted while the argument keeps its order. *)
Example applyFilters_priority_desc :
  snd (applyFilters id (sorted_by "priority_desc") 0 1%positive
         {[ 1%positive := [no_due; due_2025_01_05; due_2025_01_10] ]})
  = {[ 1%positive := [no_due; due_2025_01_05; due_2025_01_10];
       2%positive := [due_2025_01_10; due_2025_01_05; no_due] ]}.
Proof. vm_compute. reflexivity. Qed.

(** ** C4: sorting by due date *)

Lemma sort_insert_not_before {A} (comparefn : A → A → number) x l :
  (∀ y, y ∈ l → sort_order (comparefn x y) ≠ Lt) →
  sort_insert comparefn x l = l ++ [x].
Proof.
  induction l as [|y l IH]; intros H; simpl; [done|].
  destruct (sort_order (comparefn x y)) eqn:Hc.
  - rewrite IH; [done|]. intros z Hz. apply H. by right.
  - destruct (H y); [by left|done].
  - rewrite IH; [done|]. intros z Hz. apply H. by right.
Qed.

(** A comparator that never answers "before" on the elements of a list
    leaves the list as it is. *)
Lemma sort_not_before {A} (comparefn : A → A → number) l :
  (∀ x y, x ∈ l → y ∈ l → sort_order (comparefn x y) ≠ Lt) →
  sort comparefn l = l.
Proof.
  intros H. unfold sort.
  assert (∀ acc,
            (∀ x y, x ∈ acc ++ l → y ∈ acc ++ l →
                    sort_order (comparefn x y) ≠ Lt) →
            fold_left (λ sorted x, sort_insert comparefn x sorted) l acc
            = acc ++ l) as Hgen.
  { clear H. induction l as [|x l IH]; intros acc H; simpl;
      [by rewrite app_nil_r|].
    rewrite sort_insert_not_before.
    - rewrite IH; [by rewrite <- app_assoc|].
      intros y z. rewrite <- app_assoc. apply H.
    - intros y Hy. apply H; rewrite elem_of_app; [right; by left|by left]. }
  apply (Hgen []). exact H.
Qed.

Lemma digit_cases c :
  is_Some (digit_value c) →
  c ∈ ["0"; "1"; "2"; "3"; "4"; "5"; "6"; "7"; "8"; "9"]%char.
Proof.
  intros [v Hv].
  destruct c as [[] [] [] [] [] [] [] []]; try discriminate Hv;
    apply list_elem_of_In; simpl; auto 12.
Qed.

Lemma digit_not_white_space c : is_Some (digit_value c) → is_white_space c = false.
Proof.
  intros H%digit_cases. repeat (apply elem_of_cons in H as [->|H]; [reflexivity|]).
  by apply elem_of_nil in H.
Qed.

Lemma digit_not_radix_prefix c :
  is_Some (digit_value c) →
  (Ascii.eqb c "x" || Ascii.eqb c "X") = false
  ∧ (Ascii.eqb c "o" || Ascii.eqb c "O") = false
  ∧ (Ascii.eqb c "b" || Ascii.eqb c "B") = false.
Proof.
  intros H%digit_cases.
  repeat (apply elem_of_cons in H as [->|H]; [by repeat split|]).
  by apply elem_of_nil in H.
Qed.

(** A string that [new Date] reads as a date has the form
    [YYYY-MM-DD]. *)
Lemma Date_getTime_shape s t :
  Date_getTime s = Some t →
  ∃ y1 y2 y3 y4 m1 m2 d1 d2,
    s = String.string_of_list_ascii (date_chars y1 y2 y3 y4 m1 m2 d1 d2)
    ∧ Forall (λ c, is_Some (digit_value c)) [y1; y2; y3; y4; m1; m2; d1; d2].
Proof.
  unfold Date_getTime. intros H.
  destruct s as [|y1 [|y2 [|y3 [|y4 [|h1 [|m1 [|m2 [|h2 [|d1 [|d2 [|]]]]]]]]]]];
    try discriminate H.
  all: simpl in H.
  all: destruct h1 as [[] [] [] [] [] [] [] []]; try discriminate H.
  all: destruct h2 as [[] [] [] [] [] [] [] []]; try discriminate H.
  exists y1, y2, y3, y4, m1, m2, d1, d2. split; [reflexivity|].
  repeat match type of H with
         | context [digit_value ?c] =>
             destruct (digit_value c) eqn:?; try discriminate H
         end.
  repeat constructor; eauto.
Qed.

(** Read as a number, a string of the form [YYYY-MM-DD] is [NaN]: the
    hyphen after the year ends the digits and is no exponent. *)
Lemma date_chars_NaN y1 y2 y3 y4 m1 m2 d1 d2 :
  Forall (λ c, is_Some (digit_value c)) [y1; y2; y3; y4; m1; m2; d1; d2] →
  StringToNumber (String.string_of_list_ascii (date_chars y1 y2 y3 y4 m1 m2 d1 d2))
  = NaN.
Proof.
  intros H.
  apply Forall_cons in H as [Hy1 H]. apply Forall_cons in H as [Hy2 H].
  apply Forall_cons in H as [Hy3 H]. apply Forall_cons in H as [Hy4 H].
  apply Forall_cons in H as [Hm1 H]. apply Forall_cons in H as [Hm2 H].
  apply Forall_cons in H as [Hd1 H]. apply Forall_cons in H as [Hd2 _].
  pose proof (digit_not_white_space _ Hy1) as Hw1.
  pose proof (digit_not_white_space _ Hd2) as Hw2.
  destruct (digit_not_radix_prefix _ Hy2) as (Hx & Ho & Hb).
  destruct Hy2 as [v2 Hv2], Hy3 as [v3 Hv3], Hy4 as [v4 Hv4].
  assert (trim (String.string_of_list_ascii (date_chars y1 y2 y3 y4 m1 m2 d1 d2))
          = String.string_of_list_ascii (date_chars y1 y2 y3 y4 m1 m2 d1 d2))
    as Htrim.
  { unfold trim. simpl. rewrite Hw1. simpl. rewrite Hw2. reflexivity. }
  unfold StringToNumber. rewrite Htrim. clear Htrim Hw1 Hw2.
  apply digit_cases in Hy1.
  repeat (apply elem_of_cons in Hy1 as [->|Hy1];
          [unfold non_decimal, unsigned_decimal;
           repeat (simpl; rewrite ?Hx, ?Ho, ?Hb, ?Hv2, ?Hv3, ?Hv4); reflexivity|]).
  by apply elem_of_nil in Hy1.
Qed.

(** The operand [a.due || Infinity] of a task whose [due] is as the page
    writes it is [Infinity] or [NaN], and the difference of two such
    operands is [NaN]. *)
Lemma date_asc_comparator_NaN a b :
  due_as_written (Task.due a) → due_as_written (Task.due b) →
  number_sub (due_or (Infinity false) (Task.due a))
             (due_or (Infinity false) (Task.due b)) = NaN.
Proof.
  assert (∀ d, due_as_written d →
               due_or (Infinity false) d = Infinity false
               ∨ due_or (Infinity false) d = NaN) as Hop.
  { intros d [->|(s & t & -> & Ht)]; [by left|].
    destruct (Date_getTime_shape s t Ht)
      as (y1 & y2 & y3 & y4 & m1 & m2 & d1 & d2 & -> & Hd).
    right. simpl. by apply date_chars_NaN. }
  intros [-> | ->]%Hop [-> | ->]%Hop; reflexivity.
Qed.

(** With [date_asc], and nothing filtered out, [applyFilters] returns the
    tasks in the order of its argument whenever every [due] is as the page
    writes it: the sort by date never moves a task. *)
Lemma date_asc_keeps_order (l : list Task) (now : Z) :
  Forall (λ t, due_as_written (Task.due t)) l →
  (let '(filtered, h) :=
     applyFilters id (sorted_by "date_asc") now 1%positive {[ 1%positive := l ]} in
   h !! filtered) = Some l.
Proof.
  intros Hl. unfold applyFilters, sorted_by. simpl.
  unfold mbind, Heap_bind, heap_bind, Array_slice, mbind, Heap_bind, heap_bind,
    array_get, array_new, mret, Heap_ret, heap_ret, Array_sort. simpl.
  rewrite lookup_insert_eq, !lookup_total_alt.
  rewrite lookup_insert_eq, lookup_singleton_eq. simpl.
  f_equal. apply sort_not_before. intros x y Hx Hy.
  rewrite Forall_forall in Hl.
  rewrite date_asc_comparator_NaN by auto. done.
Qed.

(** The operands [a.due || Infinity] of the three tasks: the date strings
    read as [NaN], so every difference is [NaN]. *)
Example date_asc_operands :
  due_or (Infinity false) (Task.due no_due) = Infinity false
  ∧ due_or (Infinity false) (Task.due due_2025_01_10) = NaN
  ∧ due_or (Infinity false) (Task.due due_2025_01_05) = NaN
  ∧ number_sub (due_or (Infinity false) (Task.due due_2025_01_05))
               (due_or (Infinity false) (Task.due due_2025_01_10)) = NaN.
Proof. repeat split. Qed.

(** C4, on the code.  With the tasks of scenario E in the order no due
    date, 2025-01-10, 2025-01-05, [applyFilters] with [date_asc] returns an
    array in that same order, not [2025-01-05; 2025-01-10; no due date]. *)
Theorem date_asc_scenario_E :
  (let '(filtered, h) :=
     applyFilters id (sorted_by "date_asc") 0 1%positive
       {[ 1%positive := [no_due; due_2025_01_10; due_2025_01_05] ]} in
   h !! filtered)
  = Some [no_due; due_2025_01_10; due_2025_01_05].
Proof. vm_compute. reflexivity. Qed.

(** ** C10 and C8: adding tasks *)

Lemma updateTaskProgress_id task : Task.id (updateTaskProgress task) = Task.id task.
Proof.
  unfold updateTaskProgress. destruct (negb _); [|done]. by destruct (_ && _).
Qed.

Lemma remind_id env task : Task.id (fst (remind env task)) = Task.id task.
Proof.
  unfold remind. destruct (_ || _); [done|].
  destruct (match _ with Some _ => _ | None => _ end); [done|].
  by destruct (match _ with Some _ => _ | None => _ end).
Qed.

Lemma refreshed_ids before after : refreshed before after → ids after = ids before.
Proof.
  induction 1 as [|t t' l l' [->| ->] _ IH]; simpl; [done|by rewrite IH|].
  by rewrite IH, updateTaskProgress_id.
Qed.

Lemma scheduleReminders_ids env st :
  ids (tasks (snd (scheduleReminders env st))) = ids (tasks st).
Proof.
  rewrite scheduleReminders_tasks. destruct (Notification_in_window env); [|done].
  unfold ids. rewrite map_map. apply map_ext. intros t. apply remind_id.
Qed.

(** On a task without subtasks or due date, neither [render] nor
    [scheduleReminders] has anything to change. *)
Lemma updateTaskProgress_no_subtasks task :
  Task.subtasks task = [] → updateTaskProgress task = task.
Proof. intros H. unfold updateTaskProgress. by rewrite H. Qed.

Lemma remind_no_due env task : Task.due task = None → remind env task = (task, []).
Proof. intros H. unfold remind. by rewrite H. Qed.

Lemma refreshed_cons_inv t l after :
  refreshed (t :: l) after →
  ∃ t' l', after = t' :: l' ∧ (t' = t ∨ t' = updateTaskProgress t) ∧ refreshed l l'.
Proof. inversion 1; subst. eauto. Qed.

(** The store after a submit with text that is not blank: the new task in
    front, as built or, when it has a due date, possibly marked as
    reminded; behind it the tasks that were there, in their order. *)
Lemma taskForm_submit_tasks found env form st :
  truthy (trim (input form)) = true →
  ∃ head rest,
    tasks (snd (taskForm_submit found env form st)) = head :: rest
    ∧ (head = newTask env form (trim (input form))
       ∨ head = fst (remind env (newTask env form (trim (input form)))))
    ∧ ids rest = ids (tasks st).
Proof.
  intros Hvalid. unfold taskForm_submit. rewrite Hvalid. simpl.
  unfold mbind, M_bind, M_bind_def. simpl.
  set (new := newTask env form (trim (input form))).
  set (st1 := {| tasks := new :: tasks st; log := log st |}).
  destruct (render_refreshed found (controls env) (now env) st1) as [HR _].
  destruct (refreshed_cons_inv _ _ _ HR) as (t' & l' & Heq & Hhead & Htail).
  assert (t' = new) as ->.
  { destruct Hhead as [->| ->]; [done|]. by apply updateTaskProgress_no_subtasks. }
  pose proof (refreshed_ids _ _ Htail) as Hids.
  destruct (render found (controls env) (now env) st1) as [[[]|e] st2]; simpl in *.
  - rewrite scheduleReminders_tasks, Heq.
    destruct (Notification_in_window env).
    + exists (fst (remind env new)), (map (λ task, fst (remind env task)) l').
      split; [done|]. split; [by right|].
      rewrite <- Hids. unfold ids. rewrite map_map.
      apply map_ext. intros t. apply remind_id.
    + exists new, l'. split; [done|]. split; [by left|done].
  - exists new, l'. split; [done|]. split; [by left|done].
Qed.

(** C10.  A submit with text that is not blank and an empty date input
    builds a task whose [due] is [null], with [completed = false],
    [reminded = false] and no subtasks, and the handler leaves it at the
    front of the store, before the tasks that were there, in their
    order. *)
Theorem taskForm_submit_empty_due (found : string → bool) (env : Env) (form : Form)
    (st : State) :
  truthy (trim (input form)) = true →
  dateInput form = "" →
  ∃ rest,
    tasks (snd (taskForm_submit found env form st))
    = Task.mk (uid env) (trim (input form)) (categorySel form) (prioritySel form)
              None (now env) false [] false :: rest
    ∧ ids rest = ids (tasks st).
Proof.
  intros Hvalid Hdate.
  destruct (taskForm_submit_tasks found env form st Hvalid)
    as (head & rest & Heq & Hhead & Hids).
  exists rest. split; [|done]. rewrite Heq. f_equal.
  assert (newTask env form (trim (input form))
          = Task.mk (uid env) (trim (input form)) (categorySel form)
                    (prioritySel form) None (now env) false [] false) as Hnew.
  { unfold newTask. by rewrite Hdate. }
  destruct Hhead as [->| ->]; [done|].
  rewrite Hnew. by rewrite remind_no_due.
Qed.

(** The theorem for the form of scenario A, added to a store of one task. *)
Lemma taskForm_submit_empty_due_witness :
  ∃ rest,
    tasks (snd (taskForm_submit found_unless_comment sample_env buy_milk
                  {| tasks := [two_subtasks]; log := [] |}))
    = Task.mk (uid sample_env) (trim (input buy_milk)) (categorySel buy_milk)
              (prioritySel buy_milk) None (now sample_env) false [] false :: rest
    ∧ ids rest = ids [two_subtasks].
Proof.
  apply (taskForm_submit_empty_due found_unless_comment sample_env buy_milk
           {| tasks := [two_subtasks]; log := [] |}); reflexivity.
Defined.

(** Scenario A: the store after "Buy milk" is added to the empty store. *)
Example add_buy_milk :
  tasks (snd (taskForm_submit found_unless_comment sample_env buy_milk
                {| tasks := []; log := [] |}))
  = [Task.mk "m5pzqio04fzy" "Buy milk" "Personal" "Low" None 1736467200000
             false [] false].
Proof. vm_compute. reflexivity. Qed.

Lemma taskForm_submit_ids found env form st :
  truthy (trim (input form)) = true →
  ids (tasks (snd (taskForm_submit found env form st))) = uid env :: ids (tasks st).
Proof.
  intros Hvalid.
  destruct (taskForm_submit_tasks found env form st Hvalid)
    as (head & rest & -> & Hhead & Hids).
  simpl. rewrite Hids. f_equal.
  destruct Hhead as [->| ->]; [done|]. by rewrite remind_id.
Qed.

Lemma submits_ids found events st :
  Forall valid_add events →
  ids (tasks (submits found events st)) = reverse (generated_ids events) ++ ids (tasks st).
Proof.
  intros Hvalid. revert st.
  induction Hvalid as [|[env form] events Hv _ IH]; intros st; [done|].
  simpl. rewrite IH, taskForm_submit_ids by done.
  unfold generated_ids. simpl. rewrite reverse_cons. by rewrite <- app_assoc.
Qed.

(** C8, amended.  After a run of valid add calls the ids of the store are
    the ids it had, with the ids that [uid()] gave in front, the newest
    first.  They are pairwise distinct exactly when the ids of the store
    were, the generated ids are pairwise distinct, and none of them was in
    the store already: [uid()] builds an id from the clock and a random
    number and does not look at the store. *)
Theorem submits_ids_distinct_iff (found : string → bool)
    (events : list (Env * Form)) (st : State) :
  Forall valid_add events →
  ids (tasks (submits found events st)) = reverse (generated_ids events) ++ ids (tasks st)
  ∧ (NoDup (ids (tasks (submits found events st)))
     ↔ NoDup (generated_ids events)
       ∧ NoDup (ids (tasks st))
       ∧ ∀ i, i ∈ generated_ids events → i ∉ ids (tasks st)).
Proof.
  intros Hvalid. rewrite (submits_ids found events st Hvalid). split; [done|].
  rewrite NoDup_app, reverse_Permutation.
  split.
  - intros (Hg & Hd & Hi). split; [done|]. split; [done|].
    intros i Hin. apply Hd. by apply elem_of_reverse.
  - intros (Hg & Hi & Hd). split; [done|]. split; [|done].
    intros i Hin. apply Hd. by rewrite elem_of_reverse in Hin.
Qed.

(** The theorem for one add to a store of one task. *)
Lemma submits_ids_distinct_iff_witness :
  ids (tasks (submits found_unless_comment [(sample_env, buy_milk)]
                {| tasks := [two_subtasks]; log := [] |}))
  = reverse (generated_ids [(sample_env, buy_milk)]) ++ ids [two_subtasks]
  ∧ (NoDup (ids (tasks (submits found_unless_comment [(sample_env, buy_milk)]
                          {| tasks := [two_subtasks]; log := [] |})))
     ↔ NoDup (generated_ids [(sample_env, buy_milk)])
       ∧ NoDup (ids [two_subtasks])
       ∧ ∀ i, i ∈ generated_ids [(sample_env, buy_milk)] → i ∉ ids [two_subtasks]).
Proof.
  apply (submits_ids_distinct_iff found_unless_comment [(sample_env, buy_milk)]
           {| tasks := [two_subtasks]; log := [] |}).
  repeat constructor.
Defined.

(** C8 as stated fails on the code: two valid add calls made within the
    same millisecond that draw the same random digits get the same id,
    even from the empty store. *)
Lemma submits_same_id_counterexample :
  ids (tasks (submits found_unless_comment
                [(sample_env, buy_milk); (sample_env, buy_milk)]
                {| tasks := []; log := [] |}))
  = ["m5pzqio04fzy"; "m5pzqio04fzy"]
  ∧ ¬ adds_give_distinct_ids found_unless_comment
        [(sample_env, buy_milk); (sample_env, buy_milk)]
        {| tasks := []; log := [] |}.
Proof.
  assert (ids (tasks (submits found_unless_comment
                        [(sample_env, buy_milk); (sample_env, buy_milk)]
                        {| tasks := []; log := [] |}))
          = ["m5pzqio04fzy"; "m5pzqio04fzy"]) as Hids
    by (vm_compute; reflexivity).
  split; [done|]. intros H. unfold adds_give_distinct_ids in H.
  rewrite Hids in H.
  assert (Forall valid_add [(sample_env, buy_milk); (sample_env, buy_milk)]) as Hv
    by (repeat constructor).
  apply H in Hv. apply NoDup_cons in Hv as [Hnin _].
  apply Hnin. constructor.
Qed.

(** ** C7: loading from storage *)

(** Where [load] does fall back to the empty array: nothing stored, the
    empty string stored, or text that is not JSON. *)
Lemma load_fallback stored :
  stored = None ∨ stored = Some "" ∨ (∃ s, stored = Some s ∧ JSON_parse s = None) →
  load stored = JArray [].
Proof.
  intros [->|[->|(s & -> & Hs)]]; [reflexivity..|].
  unfold load. destruct (truthy s); [by rewrite Hs|reflexivity].
Qed.

(** Whatever else is stored is handed on as parsed. *)
Lemma load_parsed s v :
  truthy s = true → JSON_parse s = Some v → load (Some s) = v.
Proof. intros Ht Hv. unfold load. by rewrite Ht, Hv. Qed.

(** C7, on the code.  With the JSON text [null] in storage, [load] leaves
    [tasks] holding [null]: not an array, and the read of [tasks.length]
    that [seedIfEmpty] does next throws.  With [5] or with [[1,2]] in
    storage [tasks] is a number, or an array of numbers, not a sequence of
    tasks. *)
Theorem load_keeps_non_array :
  load (Some "null") = JNull
  ∧ Array_isArray (load (Some "null")) = false
  ∧ is_task_sequence (load (Some "null")) = false
  ∧ seedIfEmpty_guard (load (Some "null"))
    = Throw "TypeError: Cannot read properties of null (reading 'length')"
  ∧ load (Some "5") = JNumber "5"
  ∧ load (Some "[1,2]") = JArray [JNumber "1"; JNumber "2"]
  ∧ is_task_sequence (load (Some "[1,2]")) = false.
Proof. repeat split. Qed.
(** * Further properties of the script *)

(** ** Properties of tasks kept by every handler *)

Lemma renderSubtasks_subtasks found task :
  Task.subtasks (snd (renderSubtasks found task)) = Task.subtasks task.
Proof.
  destruct (renderSubtasks_refreshed found task) as [-> | ->]; [done|].
  apply updateTaskProgress_subtasks.
Qed.

Lemma renderSubtasks_rendered found task :
  rendered found task →
  renderSubtasks found task = (Normal tt, updateTaskProgress task).
Proof.
  intros Hr%rendered_forallb. unfold renderSubtasks. by rewrite Hr.
Qed.

Section Kept.
Variable found : string → bool.
Variable P : Task → Prop.
Hypothesis P_progress : ∀ t, P t → P (updateTaskProgress t).
Hypothesis P_remind : ∀ env t, P t → P (fst (remind env t)).

Lemma render_kept c now st :
  Forall P (tasks st) → Forall P (tasks (snd (render found c now st))).
Proof.
  intros Hall. destruct (render_refreshed found c now st) as [HR _].
  eapply Forall2_Forall_r; [exact HR|].
  eapply Forall_impl; [exact Hall|]. intros t Ht t' [->| ->]; auto.
Qed.

Lemma scheduleReminders_kept env st :
  Forall P (tasks st) → Forall P (tasks (snd (scheduleReminders env st))).
Proof.
  intros Hall. rewrite scheduleReminders_tasks.
  destruct (Notification_in_window env); [|done].
  apply Forall_fmap. eapply Forall_impl; [exact Hall|]. intros t Ht.
  by apply P_remind.
Qed.

Lemma then_render_kept (f : list Task → list Task) c now st :
  (Forall P (tasks st) → Forall P (f (tasks st))) →
  Forall P (tasks st) →
  Forall P (tasks (snd ((_ ← modify_tasks f; render found c now) st))).
Proof.
  intros Hf Hall. unfold mbind, M_bind, M_bind_def. simpl.
  apply render_kept. simpl. auto.
Qed.

Lemma alter_kept (f : Task → Task) n l :
  (∀ t, P t → P (f t)) → Forall P l → Forall P (alter f n l).
Proof. intros Hf Hall. apply Forall_alter; auto. Qed.

Lemma on_task_kept n (handler : Node unit) st :
  (∀ t, P t → P (snd (handler t))) →
  Forall P (tasks st) → Forall P (tasks (snd (on_task n handler st))).
Proof.
  intros Hh Hall. destruct (on_task_snd n handler st) as [-> _].
  by apply alter_kept.
Qed.

Lemma handle_kept env ev st :
  keeps_property found P env ev →
  Forall P (tasks st) → Forall P (tasks (snd (handle found env ev st))).
Proof.
  intros Hk Hall.
  destruct ev as [form|n m|n content|n idx content|id|idFrom idTo|]; simpl in *.
  - unfold taskForm_submit.
    destruct (truthy (trim (input form))) eqn:Hv; simpl; [|done].
    unfold mbind, M_bind, M_bind_def. simpl.
    set (st1 := {| tasks := _ :: tasks st; log := log st |}).
    assert (Forall P (tasks st1)) as H1 by (constructor; auto).
    pose proof (render_kept (controls env) (now env) st1 H1) as H2.
    destruct (render found (controls env) (now env) st1) as [[[]|e] st2];
      simpl in *; [by apply scheduleReminders_kept|done].
  - destruct m as [value|idx|idx|]; simpl; try (by apply on_task_kept).
    unfold checkBtn_click, mbind, M_bind, M_bind_def.
    pose proof (on_task_kept n (checkBtn_toggle found) st Hk Hall) as H1.
    destruct (on_task n (checkBtn_toggle found) st) as [[[]|e] st1]; simpl in *;
      [by apply render_kept|done].
  - unfold titleEl_blur. apply then_render_kept; [|done].
    intros _. by apply alter_kept.
  - by apply on_task_kept.
  - unfold deleteBtn_timeout. apply then_render_kept; [|done].
    intros H'. rewrite Forall_forall in H'. apply Forall_forall.
    intros t Ht%list_elem_of_In%List.filter_In. apply H', list_elem_of_In, Ht.
  - unfold li_drop. destruct (_ || _); [done|].
    apply then_render_kept; [|done]. intros H'.
    by rewrite (reorderTasks_Permutation idFrom idTo (tasks st)).
  - by apply render_kept.
Qed.

Lemma run_kept events st :
  Forall (λ e, keeps_property found P (fst e) (snd e)) events →
  Forall P (tasks st) → Forall P (tasks (run found events st)).
Proof.
  intros Hev. revert st.
  induction Hev as [|[env ev] events Hk _ IH]; intros st Hall; [done|].
  simpl. apply IH. by apply handle_kept.
Qed.
End Kept.

(** *** I1 *)

Lemma remind_cases env t :
  fst (remind env t) = t ∨ fst (remind env t) = Task.set_reminded true t.
Proof.
  unfold remind. destruct (_ || _); [by left|].
  destruct (match _ with Some _ => _ | None => _ end); [by right|].
  destruct (match _ with Some _ => _ | None => _ end); [by right|by left].
Qed.

Lemma I1_same_subtasks t t' :
  Task.subtasks t' = Task.subtasks t → Task.completed t' = Task.completed t →
  I1 t → I1 t'.
Proof. unfold I1. intros -> ->. done. Qed.

Lemma subtext_blur_done idx content t :
  map Subtask.done (Task.subtasks (subtext_blur idx content t))
  = map Subtask.done (Task.subtasks t).
Proof.
  unfold subtext_blur. simpl. generalize (Task.subtasks t) as l.
  intros l. revert idx. induction l as [|s l IH]; intros [|idx]; simpl; try done.
  f_equal. apply IH.
Qed.

Lemma I1_same_done t t' :
  map Subtask.done (Task.subtasks t') = map Subtask.done (Task.subtasks t) →
  Task.completed t' = Task.completed t → I1 t → I1 t'.
Proof.
  unfold I1. intros Hd Hc HI Hne. rewrite Hc.
  assert (∀ l : list Subtask,
            Forall (λ s, Subtask.done s = true) l
            ↔ Forall (λ b, b = true) (map Subtask.done l)) as Hmap.
  { intros l. by rewrite Forall_fmap. }
  rewrite Hmap, Hd, <- Hmap. apply HI.
  intros Hnil. apply Hne. rewrite Hnil in Hd. by destruct (Task.subtasks t').
Qed.

(** Cutting one element out with [splice] is [delete]: out of range it
    leaves the array as it is. *)
Lemma splice_delete {A} (l : list A) (idx : nat) :
  snd (splice (Z.of_nat idx) 1 [] l) = delete idx l.
Proof.
  unfold splice. simpl. rewrite (proj2 (Z.ltb_ge _ _)) by lia.
  destruct (decide (idx < length l)%nat) as [Hlt|Hge].
  - rewrite Z.min_l by lia. rewrite Z.max_l by lia. rewrite Z.min_l by lia.
    rewrite Nat2Z.id. change (Z.to_nat 1) with 1%nat.
    rewrite Nat.add_1_r. symmetry. apply delete_take_drop.
  - rewrite Z.min_r by lia. rewrite Z.max_l by lia. rewrite Z.min_r by lia.
    rewrite Nat2Z.id. replace (Z.to_nat (Z.of_nat (length l) - Z.of_nat (length l)))
      with 0%nat by lia.
    rewrite Nat.add_0_r, take_drop. symmetry.
    revert idx Hge. induction l as [|x l IH]; intros [|idx] Hge; simpl in *;
      try done; [lia|]. f_equal. apply IH. lia.
Qed.

(** A task with I1 whose subtasks all have their delete button. *)
Lemma rendered_I1_kept found env ev :
  event_renders found ev →
  keeps_property found (λ t, I1 t ∧ rendered found t) env ev.
Proof.
  assert (∀ t, rendered found t →
               I1 (snd (renderSubtasks found t))
               ∧ rendered found (snd (renderSubtasks found t))) as Hr.
  { intros t Ht. rewrite (renderSubtasks_rendered found t Ht). simpl.
    split; [apply updateTaskProgress_I1|].
    unfold rendered. by rewrite updateTaskProgress_subtasks. }
  destruct ev as [form|n [value|idx|idx|]|n content|n idx content|id|idFrom idTo|];
    simpl; try done.
  - intros _ _. split; [by unfold I1|constructor].
  - intros Hv t [HI HR]. rewrite addSubBtn_click_snd.
    destruct (truthy (trim value)) eqn:Ht; [|done].
    apply Hr. unfold rendered. simpl. apply Forall_app. split; [done|].
    constructor; [by apply Hv|constructor].
  - intros _ t [HI HR]. rewrite subcheck_click_snd. apply Hr.
    unfold rendered. simpl. apply Forall_alter; [done|]. by intros s _ Hs.
  - intros _ t [HI HR]. rewrite delete_sub_click_snd. apply Hr.
    unfold rendered. cbn [Task.subtasks Task.set_subtasks].
    rewrite splice_delete. by apply Forall_delete.
  - intros _ t [HI HR]. split; [apply checkBtn_toggle_I1|].
    rewrite checkBtn_toggle_snd. unfold rendered.
    rewrite renderSubtasks_subtasks. destruct (negb _); simpl; [|done].
    apply Forall_fmap. eapply Forall_impl; [exact HR|]. done.
  - intros Hv t [HI HR]. split.
    + apply (I1_same_done t); [|done|done]. apply subtext_blur_done.
    + unfold rendered, subtext_blur. simpl. apply Forall_alter; [done|].
      intros s _ Hs. simpl. unfold string_or.
      destruct (truthy (trim content)); [by apply Hv|done].
Qed.

(** X1.  I1 is kept by every event of the page as long as the host finds the
    delete button of every subtask: if every task of the store satisfies
    I1 and has only such subtasks, and the texts added or put in by the
    events are such texts, every task satisfies I1 after the run, also
    when handlers of the run end with an exception of [render]. *)
Theorem run_keeps_I1 (found : string → bool) (events : list (Env * event))
    (st : State) :
  Forall (λ e, event_renders found (snd e)) events →
  Forall (λ t, I1 t ∧ rendered found t) (tasks st) →
  Forall (λ t, I1 t ∧ rendered found t) (tasks (run found events st)).
Proof.
  intros Hev. apply run_kept.
  - intros t [HI HR]. split; [apply updateTaskProgress_I1|].
    unfold rendered. by rewrite updateTaskProgress_subtasks.
  - intros env t [HI HR]. destruct (remind_cases env t) as [-> | ->]; [done|].
    split; [by apply (I1_same_subtasks t)|done].
  - eapply Forall_impl; [exact Hev|]. intros [env ev]. apply rendered_I1_kept.
Qed.

Lemma sample_store_I1 : Forall I1 [two_subtasks; plain "t2"].
Proof.
  apply Forall_cons. split; [|apply Forall_cons; split; [|constructor]].
  - intros _. split; [discriminate|]. intros H. apply Forall_cons in H as [H _].
    discriminate H.
  - intros H. by destruct H.
Qed.

Lemma sample_store_rendered :
  Forall (λ t, I1 t ∧ rendered found_unless_comment t) [two_subtasks; plain "t2"].
Proof.
  pose proof sample_store_I1 as H.
  apply Forall_cons in H as [H1 H]. apply Forall_cons in H as [H2 _].
  apply Forall_cons. split; [split; [done|]|apply Forall_cons; split; [|constructor]].
  - apply Forall_cons. split; [done|]. apply Forall_cons. split; [done|constructor].
  - split; [done|constructor].
Qed.

(** The theorem for a run of four events on a store of two tasks, one of
    them a submit whose [render] throws. *)
Lemma run_keeps_I1_witness :
  Forall (λ t, I1 t ∧ rendered found_unless_comment t)
    (tasks (run found_unless_comment
              [(sample_env, Mutate 0 (ToggleSubtask 0));
               (sample_env, Mutate 0 (AddSubtask " C "));
               (sample_env, Submit overdue_form);
               (sample_env, DeleteTimeout "t2")]
              {| tasks := [two_subtasks; plain "t2"]; log := [] |})).
Proof.
  apply (run_keeps_I1 found_unless_comment
           [(sample_env, Mutate 0 (ToggleSubtask 0));
            (sample_env, Mutate 0 (AddSubtask " C "));
            (sample_env, Submit overdue_form);
            (sample_env, DeleteTimeout "t2")]
           {| tasks := [two_subtasks; plain "t2"]; log := [] |}).
  - apply Forall_cons. split; [done|]. apply Forall_cons. split; [by intros _|].
    apply Forall_cons. split; [done|]. apply Forall_cons. split; [done|constructor].
  - exact sample_store_rendered.
Defined.

(** *** Texts *)

Lemma truthy_nonempty s : truthy s = true → s ≠ "".
Proof. by destruct s. Qed.

Lemma string_or_nonempty a b : b ≠ "" → string_or a b ≠ "".
Proof. unfold string_or. destruct a; simpl; [done|]. discriminate. Qed.

Lemma updateTaskProgress_text task :
  Task.text (updateTaskProgress task) = Task.text task.
Proof.
  unfold updateTaskProgress. destruct (negb _); [|done]. by destruct (_ && _).
Qed.

Lemma renderSubtasks_text found task :
  Task.text (snd (renderSubtasks found task)) = Task.text task.
Proof.
  destruct (renderSubtasks_refreshed found task) as [-> | ->]; [done|].
  apply updateTaskProgress_text.
Qed.

Lemma has_texts_same t t' :
  Task.text t' = Task.text t → Task.subtasks t' = Task.subtasks t →
  has_texts t → has_texts t'.
Proof. unfold has_texts. by intros -> ->. Qed.

Lemma has_texts_kept found env ev : keeps_property found has_texts env ev.
Proof.
  assert (∀ t, has_texts t → has_texts (snd (renderSubtasks found t))) as Hr.
  { intros t. apply has_texts_same;
      [apply renderSubtasks_text|apply renderSubtasks_subtasks]. }
  destruct ev as [form|n [value|idx|idx|]|n content|n idx content|id|idFrom idTo|];
    simpl; try done.
  - intros Hv. split; [by apply truthy_nonempty|constructor].
  - intros t [Ht Hs]. rewrite addSubBtn_click_snd.
    destruct (truthy (trim value)) eqn:Hv; [|done].
    apply Hr. split; [done|]. simpl. apply Forall_app. split; [done|].
    constructor; [|constructor]. by apply truthy_nonempty.
  - intros t [Ht Hs]. rewrite subcheck_click_snd. apply Hr. split; [done|].
    simpl. apply Forall_alter; [done|]. by intros s _ Hs'.
  - intros t [Ht Hs]. rewrite delete_sub_click_snd. apply Hr. split; [done|].
    cbn [Task.subtasks Task.set_subtasks]. rewrite splice_delete.
    by apply Forall_delete.
  - intros t [Ht Hs]. rewrite checkBtn_toggle_snd. apply Hr.
    destruct (negb _); [|done]. split; [done|]. simpl.
    apply Forall_fmap. eapply Forall_impl; [exact Hs|]. done.
  - intros t [Ht Hs]. split; [|done]. simpl. by apply string_or_nonempty.
  - intros t [Ht Hs]. split; [done|]. simpl.
    apply Forall_alter; [done|]. intros s _ Hs'. simpl.
    by apply string_or_nonempty.
Qed.

(** X2.  No text is ever empty: if every task of the store and every subtask
    has a text that is not empty, this is so after any run of events.  The
    submit handler and the add button take nothing blank, and a blank edit
    keeps the old text. *)
Theorem run_keeps_texts (found : string → bool) (events : list (Env * event))
    (st : State) :
  Forall has_texts (tasks st) → Forall has_texts (tasks (run found events st)).
Proof.
  apply run_kept.
  - intros t. apply has_texts_same;
      [apply updateTaskProgress_text|apply updateTaskProgress_subtasks].
  - intros env t Ht. destruct (remind_cases env t) as [-> | ->]; [done|].
    by apply (has_texts_same t).
  - apply Forall_forall. intros [env ev] _. apply has_texts_kept.
Qed.

Lemma sample_store_texts : Forall has_texts [two_subtasks; plain "t2"].
Proof. repeat constructor; discriminate. Qed.

(** The theorem for a run of three events on a store of two tasks. *)
Lemma run_keeps_texts_witness :
  Forall has_texts
    (tasks (run found_unless_comment
              [(sample_env, EditTitle 0 "   ");
               (sample_env, Mutate 0 (AddSubtask " C "));
               (sample_env, EditSubtask 0 1 "")]
              {| tasks := [two_subtasks; plain "t2"]; log := [] |})).
Proof.
  apply (run_keeps_texts found_unless_comment
           [(sample_env, EditTitle 0 "   ");
            (sample_env, Mutate 0 (AddSubtask " C "));
            (sample_env, EditSubtask 0 1 "")]
           {| tasks := [two_subtasks; plain "t2"]; log := [] |}).
  exact sample_store_texts.
Defined.

(** *** Fields no handler writes *)

Lemma later_of_refl t : later_of t t.
Proof. unfold later_of. auto 10. Qed.

Lemma later_of_trans t1 t2 t3 : later_of t1 t2 → later_of t2 t3 → later_of t1 t3.
Proof.
  unfold later_of. intros (? & ? & ? & ? & ? & ?) (? & ? & ? & ? & ? & ?).
  repeat split; try congruence. auto.
Qed.

Lemma descends_later l events t t' :
  later_of t t' → descends_from l events t → descends_from l events t'.
Proof.
  intros Hl (t0 & H0 & Ho). exists t0. split; [|done]. by eapply later_of_trans.
Qed.

Lemma later_of_fields t t' :
  Task.id t' = Task.id t → Task.category t' = Task.category t →
  Task.priority t' = Task.priority t → Task.due t' = Task.due t →
  Task.created t' = Task.created t → Task.reminded t' = Task.reminded t →
  later_of t t'.
Proof. unfold later_of. intros -> -> -> -> -> ->. auto 10. Qed.

Lemma later_of_updateTaskProgress t : later_of t (updateTaskProgress t).
Proof.
  unfold updateTaskProgress. destruct (negb _); [|apply later_of_refl].
  destruct (_ && _); by apply later_of_fields.
Qed.

Lemma later_of_renderSubtasks found t : later_of t (snd (renderSubtasks found t)).
Proof.
  destruct (renderSubtasks_refreshed found t) as [-> | ->];
    [apply later_of_refl|apply later_of_updateTaskProgress].
Qed.

Lemma descends_kept found env ev l events :
  (env, ev) ∈ events → keeps_property found (descends_from l events) env ev.
Proof.
  assert (∀ f : Task → Task,
            (∀ t, later_of t (f t)) →
            ∀ t, descends_from l events t → descends_from l events (f t)) as Hd.
  { intros f Hf t. apply descends_later, Hf. }
  intros Hin.
  destruct ev as [form|n [value|idx|idx|]|n content|n idx content|id|idFrom idTo|];
    simpl; [| | | | | | |exact I..].
  - intros Hv. exists (newTask env form (trim (input form))).
    split; [apply later_of_refl|]. right. exists env, form. auto.
  - apply (Hd (λ t, snd (addSubBtn_click found value t))).
    intros t. rewrite addSubBtn_click_snd.
    destruct (truthy _); [|apply later_of_refl].
    eapply later_of_trans; [|apply later_of_renderSubtasks]. by apply later_of_fields.
  - apply (Hd (λ t, snd (subcheck_click found idx t))).
    intros t. rewrite subcheck_click_snd.
    eapply later_of_trans; [|apply later_of_renderSubtasks]. by apply later_of_fields.
  - apply (Hd (λ t, snd (delete_sub_click found idx t))).
    intros t. rewrite delete_sub_click_snd.
    eapply later_of_trans; [|apply later_of_renderSubtasks]. by apply later_of_fields.
  - apply (Hd (λ t, snd (checkBtn_toggle found t))).
    intros t. rewrite checkBtn_toggle_snd.
    eapply later_of_trans; [|apply later_of_renderSubtasks].
    destruct (negb _); by apply later_of_fields.
  - apply (Hd (λ t, set_text (string_or (trim content) (Task.text t)) t)).
    intros t. by apply later_of_fields.
  - apply (Hd (subtext_blur idx content)). intros t. by apply later_of_fields.
Qed.

(** X3.  No handler writes the id, the category, the priority, the due date or
    the creation time of a task, and none takes [reminded] back: after a
    run of events every task of the store agrees in these fields with a
    task that was in the store before the run or with the task that a
    submit event of the run has built, and is reminded if that one was. *)
Theorem run_tasks_descend (found : string → bool) (events : list (Env * event))
    (st : State) :
  Forall (descends_from (tasks st) events) (tasks (run found events st)).
Proof.
  apply run_kept.
  - intros t. apply descends_later, later_of_updateTaskProgress.
  - intros env t. apply descends_later.
    destruct (remind_cases env t) as [-> | ->]; [apply later_of_refl|].
    unfold later_of. simpl. auto 10.
  - apply Forall_forall. intros [env ev] Hin. simpl. by apply descends_kept.
  - apply Forall_forall. intros t Ht. exists t. split; [apply later_of_refl|by left].
Qed.

(** ** What [applyFilters] returns *)

Section Holds.
Context {R : Type}.
Implicit Types (h : gmap loc (list R)) (a : loc) (l : list R).

Lemma holds_new h l : holds (array_new l h) l.
Proof. unfold holds, array_new. simpl. apply lookup_insert_eq. Qed.

Lemma holds_slice h a l : h !! a = Some l → holds (Array_slice a h) l.
Proof.
  intros Ha. unfold Array_slice, mbind, Heap_bind, heap_bind, array_get.
  rewrite (lookup_total_correct _ _ _ Ha). apply holds_new.
Qed.

Lemma holds_filter_step (b : bool) (p : R → bool) a h l :
  holds (a, h) l →
  holds ((if b then Array_filter p a else mret a) h)
        (List.filter (λ t, if b then p t else true) l).
Proof.
  intros Ha. destruct b.
  - unfold Array_filter, mbind, Heap_bind, heap_bind, array_get.
    rewrite (lookup_total_correct _ _ _ Ha). apply holds_new.
  - replace (List.filter (λ _, true) l) with l; [done|].
    clear Ha. induction l as [|x l IH]; simpl; [done|]. by rewrite <- IH.
Qed.

Lemma holds_sort (comparefn : R → R → number) a h l :
  holds (a, h) l → holds (Array_sort comparefn a h) (sort comparefn l).
Proof.
  intros Ha. unfold Array_sort, holds. simpl.
  rewrite (lookup_total_correct _ _ _ Ha). apply lookup_insert_eq.
Qed.

Lemma filter_filter (p q : R → bool) l :
  List.filter q (List.filter p l) = List.filter (λ x, p x && q x) l.
Proof.
  induction l as [|x l IH]; simpl; [done|].
  destruct (p x); simpl; [|done]. destruct (q x); by rewrite IH.
Qed.

(** The array [applyFilters] returns holds the elements of its argument
    that pass the search, the status filter and the category filter, in
    the order of the argument, or sorted with the comparator of the sort
    key when there is one. *)
Lemma applyFilters_holds (obj : R → Task) c now list h l :
  h !! list = Some l →
  holds (applyFilters obj c now list h) (applyFilters_list obj c now l).
Proof.
  intros Hl. unfold applyFilters, mbind, Heap_bind, heap_bind.
  pose proof (holds_slice h list l Hl) as K1.
  destruct (Array_slice list h) as [f1 h1].
  match goal with
  | |- context [(if truthy ?q then Array_filter ?p f1 else mret f1) h1] =>
      pose proof (holds_filter_step (truthy q) p f1 h1 l K1) as K2;
      destruct ((if truthy q then Array_filter p f1 else mret f1) h1) as [f2 h2]
  end.
  fold (matches_search obj c) in K2.
  set (l2 := List.filter (matches_search obj c) l) in *.
  assert (holds
            ((if String.eqb (filterStatus c) "pending"
              then Array_filter (λ t, negb (Task.completed (obj t))) f2
              else if String.eqb (filterStatus c) "completed"
              then Array_filter (λ t, Task.completed (obj t)) f2
              else if String.eqb (filterStatus c) "overdue"
              then Array_filter
                     (λ t, truthy_due (Task.due (obj t))
                           && time_lt (Date_getTime (default "" (Task.due (obj t)))) now
                           && negb (Task.completed (obj t))) f2
              else mret f2) h2)
            (List.filter (matches_status obj c now) l2)) as K3.
  { unfold matches_status, overdue_open.
    destruct (String.eqb (filterStatus c) "pending");
      [by apply (holds_filter_step true)|].
    destruct (String.eqb (filterStatus c) "completed");
      [by apply (holds_filter_step true)|].
    destruct (String.eqb (filterStatus c) "overdue");
      [by apply (holds_filter_step true)|].
    by apply (holds_filter_step false (λ _, true)). }
  match type of K3 with
  | holds (?m h2) _ => destruct (m h2) as [f3 h3]
  end.
  set (l3 := List.filter (matches_status obj c now) l2) in *.
  match goal with
  | |- context [(if ?b then Array_filter ?p f3 else mret f3) h3] =>
      pose proof (holds_filter_step b p f3 h3 l3 K3) as K4;
      destruct ((if b then Array_filter p f3 else mret f3) h3) as [f4 h4]
  end.
  fold (matches_category obj c) in K4.
  assert (applyFilters_list obj c now l
          = match comparator obj c with
            | Some comparefn => sort comparefn (List.filter (matches_category obj c) l3)
            | None => List.filter (matches_category obj c) l3
            end) as ->.
  { assert (List.filter (shown obj c now) l
            = List.filter (matches_category obj c) l3) as Hs.
    { unfold l3, l2. rewrite !filter_filter. apply List.filter_ext.
      intros x. unfold shown. by rewrite andb_assoc. }
    unfold applyFilters_list. cbv zeta. by rewrite Hs. }
  unfold comparator.
  destruct (String.eqb (sortBy c) "created_desc");
    [by apply (holds_sort _ f4 h4)|].
  destruct (String.eqb (sortBy c) "date_asc"); [by apply (holds_sort _ f4 h4)|].
  destruct (String.eqb (sortBy c) "date_desc"); [by apply (holds_sort _ f4 h4)|].
  destruct (String.eqb (sortBy c) "priority_desc");
    [by apply (holds_sort _ f4 h4)|].
  exact K4.
Qed.
End Holds.

(** *** The sort *)

Lemma sort_insert_Permutation {A} (comparefn : A → A → number) x l :
  sort_insert comparefn x l ≡ₚ x :: l.
Proof.
  induction l as [|y l IH]; simpl; [done|].
  destruct (sort_order (comparefn x y)); try done;
    rewrite IH; apply Permutation_swap.
Qed.

Lemma sort_Permutation {A} (comparefn : A → A → number) l : sort comparefn l ≡ₚ l.
Proof.
  unfold sort.
  assert (∀ acc, fold_left (λ sorted x, sort_insert comparefn x sorted) l acc
                 ≡ₚ acc ++ l) as Hgen; [|apply (Hgen [])].
  induction l as [|x l IH]; intros acc; simpl; [by rewrite app_nil_r|].
  rewrite IH, sort_insert_Permutation. simpl. apply Permutation_middle.
Qed.

(** The sign of a difference of integers. *)
Lemma sort_order_diff (a b : Z) :
  sort_order (number_sub (of_Z a) (of_Z b)) = (a ?= b)%Z.
Proof.
  unfold sort_order, number_sub, of_Z, Qcompare. simpl.
  destruct (Z.compare_spec a b);
    destruct (Z.compare_spec ((a * 1 + - b * 1) * 1) (0 * Z.pos (1 * 1)));
    try reflexivity; lia.
Qed.

Section KeyedSort.
Context {A : Type} (key : A → Z) (comparefn : A → A → number) (Q : A → Prop).
Hypothesis comparefn_key :
  ∀ a b, Q a → Q b → comparefn a b = number_sub (of_Z (key b)) (of_Z (key a)).

Lemma sort_insert_sorted x l :
  Q x → Forall Q l →
  StronglySorted (λ a b, key b ≤ key a) l →
  StronglySorted (λ a b, key b ≤ key a) (sort_insert comparefn x l).
Proof.
  intros Hx HQ. induction 1 as [|y l Hs IH Hy]; simpl; [repeat constructor|].
  apply Forall_cons in HQ as [HQy HQ].
  rewrite comparefn_key, sort_order_diff by done.
  destruct (Z.compare_spec (key y) (key x)) as [He|Hlt|Hgt].
  - constructor; [by apply IH|]. rewrite sort_insert_Permutation.
    constructor; [lia|done].
  - constructor; [by constructor|]. constructor; [lia|].
    eapply Forall_impl; [exact Hy|]. simpl. intros z Hz. lia.
  - constructor; [by apply IH|]. rewrite sort_insert_Permutation.
    constructor; [lia|done].
Qed.

Lemma sort_sorted l :
  Forall Q l → StronglySorted (λ a b, key b ≤ key a) (sort comparefn l).
Proof.
  unfold sort.
  assert (∀ acc, Forall Q acc → Forall Q l →
                 StronglySorted (λ a b, key b ≤ key a) acc →
                 StronglySorted (λ a b, key b ≤ key a)
                   (fold_left (λ sorted x, sort_insert comparefn x sorted) l acc))
    as Hgen; [|intros; apply Hgen; [constructor|done|constructor]].
  induction l as [|x l IH]; intros acc HQa HQ Hacc; simpl; [done|].
  apply Forall_cons in HQ as [HQx HQ].
  apply IH; [|done|by apply sort_insert_sorted].
  rewrite sort_insert_Permutation. by constructor.
Qed.
End KeyedSort.
(** *** The tasks [applyFilters] returns *)

Lemma applyFilters_list_Permutation {R} (obj : R → Task) c now (l : list R) :
  applyFilters_list obj c now l ≡ₚ List.filter (shown obj c now) l.
Proof.
  unfold applyFilters_list. cbv zeta.
  destruct (comparator obj c); [apply sort_Permutation|done].
Qed.

Lemma comparator_None {R} (obj : R → Task) c :
  sortBy c ∉ ["created_desc"; "date_asc"; "date_desc"; "priority_desc"] →
  comparator obj c = None.
Proof.
  intros Hs. unfold comparator.
  destruct (String.eqb_spec (sortBy c) "created_desc") as [E|_];
    [rewrite E in Hs; exfalso; apply Hs; set_solver|].
  destruct (String.eqb_spec (sortBy c) "date_asc") as [E|_];
    [rewrite E in Hs; exfalso; apply Hs; set_solver|].
  destruct (String.eqb_spec (sortBy c) "date_desc") as [E|_];
    [rewrite E in Hs; exfalso; apply Hs; set_solver|].
  destruct (String.eqb_spec (sortBy c) "priority_desc") as [E|_];
    [rewrite E in Hs; exfalso; apply Hs; set_solver|].
  done.
Qed.

(** X4.  [applyFilters] returns an array that holds exactly the elements of its
    argument that pass the search, the status filter and the category
    filter, each as often as it is in the argument; with a sort key other
    than the four it knows, they are in the order of the argument. *)
Theorem applyFilters_returns_shown {R : Type} (obj : R → Task) (c : Controls)
    (now : Z) (list : loc) (h : gmap loc (Datatypes.list R)) (l : Datatypes.list R) :
  h !! list = Some l →
  ∃ l', holds (applyFilters obj c now list h) l'
        ∧ l' ≡ₚ List.filter (shown obj c now) l
        ∧ (sortBy c ∉ ["created_desc"; "date_asc"; "date_desc"; "priority_desc"] →
           l' = List.filter (shown obj c now) l).
Proof.
  intros Hl. exists (applyFilters_list obj c now l). split; [|split].
  - by apply applyFilters_holds.
  - apply applyFilters_list_Permutation.
  - intros Hs. unfold applyFilters_list. cbv zeta. by rewrite comparator_None.
Qed.

(** The theorem for three tasks, two of them in the category searched
    for. *)
Lemma applyFilters_returns_shown_witness :
  ∃ l', holds (applyFilters id
                 {| searchEl := ""; filterStatus := "pending";
                    filterCategory := "Personal"; sortBy := "priority_desc" |}
                 0 1%positive
                 {[ 1%positive := [no_due; due_2025_01_05; due_2025_01_10] ]}) l'
        ∧ l' ≡ₚ List.filter
                  (shown id
                     {| searchEl := ""; filterStatus := "pending";
                        filterCategory := "Personal"; sortBy := "priority_desc" |} 0)
                  [no_due; due_2025_01_05; due_2025_01_10]
        ∧ ("priority_desc"
             ∉ ["created_desc"; "date_asc"; "date_desc"; "priority_desc"] →
           l' = List.filter
                  (shown id
                     {| searchEl := ""; filterStatus := "pending";
                        filterCategory := "Personal"; sortBy := "priority_desc" |} 0)
                  [no_due; due_2025_01_05; due_2025_01_10]).
Proof.
  apply (applyFilters_returns_shown id
           {| searchEl := ""; filterStatus := "pending";
              filterCategory := "Personal"; sortBy := "priority_desc" |}
           0 1%positive
           {[ 1%positive := [no_due; due_2025_01_05; due_2025_01_10] ]}
           [no_due; due_2025_01_05; due_2025_01_10]).
  reflexivity.
Defined.

(** X5.  With the sort key [created_desc] the array returned is in the order
    of creation, the newest task first. *)
Theorem applyFilters_created_desc {R : Type} (obj : R → Task) (c : Controls)
    (now : Z) (list : loc) (h : gmap loc (Datatypes.list R)) (l : Datatypes.list R) :
  h !! list = Some l → sortBy c = "created_desc" →
  ∃ l', holds (applyFilters obj c now list h) l'
        ∧ StronglySorted
            (λ a b, Task.created (obj b) ≤ Task.created (obj a)) l'.
Proof.
  intros Hl Hs. exists (applyFilters_list obj c now l).
  split; [by apply applyFilters_holds|].
  unfold applyFilters_list, comparator. cbv zeta. rewrite Hs. simpl.
  apply (sort_sorted (λ t, Task.created (obj t)) _ (λ _, True)); [done|].
  by apply Forall_forall.
Qed.

Lemma applyFilters_created_desc_witness :
  ∃ l', holds (applyFilters id (sorted_by "created_desc") 0 1%positive
                 {[ 1%positive := [created_at "a" 10; created_at "b" 30;
                                   created_at "c" 20] ]}) l'
        ∧ StronglySorted (λ a b, Task.created (id b) ≤ Task.created (id a)) l'.
Proof.
  apply (applyFilters_created_desc id (sorted_by "created_desc") 0 1%positive
           {[ 1%positive := [created_at "a" 10; created_at "b" 30;
                             created_at "c" 20] ]}
           [created_at "a" 10; created_at "b" 30; created_at "c" 20]);
    reflexivity.
Defined.

Lemma priority_rank_rank x :
  inherited_property x = false → priority_rank x = of_Z (rank x).
Proof.
  intros Hx. unfold priority_rank, rank. rewrite Hx.
  by repeat destruct (String.eqb _ _).
Qed.

(** X6.  With the sort key [priority_desc] the array returned is in the order
    High, Medium, Low, any other priority, as long as no priority is the
    name of a property every object inherits. *)
Theorem priority_desc_sorted {R : Type} (obj : R → Task) (c : Controls)
    (now : Z) (list : loc) (h : gmap loc (Datatypes.list R)) (l : Datatypes.list R) :
  h !! list = Some l → sortBy c = "priority_desc" →
  Forall (λ t, inherited_property (Task.priority (obj t)) = false) l →
  ∃ l', holds (applyFilters obj c now list h) l'
        ∧ StronglySorted
            (λ a b, rank (Task.priority (obj b)) ≤ rank (Task.priority (obj a))) l'.
Proof.
  intros Hl Hs Hp. exists (applyFilters_list obj c now l).
  split; [by apply applyFilters_holds|].
  unfold applyFilters_list, comparator. cbv zeta. rewrite Hs. simpl.
  apply (sort_sorted (λ t, rank (Task.priority (obj t))) _
           (λ t, inherited_property (Task.priority (obj t)) = false)).
  - intros a b Ha Hb. simpl. by rewrite !priority_rank_rank.
  - rewrite Forall_forall in Hp. apply Forall_forall.
    intros t Ht%list_elem_of_In%List.filter_In. apply Hp, list_elem_of_In, Ht.
Qed.

Lemma priority_desc_sorted_witness :
  ∃ l', holds (applyFilters id (sorted_by "priority_desc") 0 1%positive
                 {[ 1%positive := [no_due; due_2025_01_05; due_2025_01_10] ]}) l'
        ∧ StronglySorted
            (λ a b, rank (Task.priority (id b)) ≤ rank (Task.priority (id a))) l'.
Proof.
  apply (priority_desc_sorted id (sorted_by "priority_desc") 0 1%positive
           {[ 1%positive := [no_due; due_2025_01_05; due_2025_01_10] ]}
           [no_due; due_2025_01_05; due_2025_01_10]);
    [reflexivity|reflexivity|].
  repeat constructor.
Defined.
Section KeyedSortStable.
Context {A : Type} (key : A → Z) (comparefn : A → A → number) (Q : A → Prop).
Hypothesis comparefn_key :
  ∀ a b, Q a → Q b → comparefn a b = number_sub (of_Z (key b)) (of_Z (key a)).

Lemma filter_key_below k x (l : list A) :
  key x < k → Forall (λ b, key b ≤ key x) l →
  List.filter (λ a, key a =? k) (x :: l) = [].
Proof.
  intros Hx Hl. simpl. rewrite (proj2 (Z.eqb_neq _ _)) by lia.
  induction Hl as [|y l Hy _ IH]; simpl; [done|].
  by rewrite (proj2 (Z.eqb_neq _ _)) by lia.
Qed.

Lemma sort_insert_filter_key x l k :
  Q x → Forall Q l → StronglySorted (λ a b, key b ≤ key a) l →
  List.filter (λ a, key a =? k) (sort_insert comparefn x l)
  = List.filter (λ a, key a =? k) l ++ (if key x =? k then [x] else []).
Proof.
  intros Hx HQ. induction 1 as [|y l Hs IH Hy]; [done|].
  apply Forall_cons in HQ as [HQy HQ].
  cbn [sort_insert]. rewrite comparefn_key, sort_order_diff by done.
  destruct (Z.compare_spec (key y) (key x)) as [He|Hlt|Hgt].
  - simpl. rewrite IH by done. by destruct (key y =? k).
  - assert (∀ f (a : A) l', List.filter f (a :: l')
                            = if f a then a :: List.filter f l' else List.filter f l')
      as Hcons by done.
    rewrite (Hcons _ x (y :: l)).
    destruct (Z.eqb_spec (key x) k) as [Hk|Hk]; [|by rewrite app_nil_r].
    by rewrite (filter_key_below k y l) by (done || lia).
  - simpl. rewrite IH by done. by destruct (key y =? k).
Qed.

Lemma sort_filter_key l k :
  Forall Q l →
  List.filter (λ a, key a =? k) (sort comparefn l)
  = List.filter (λ a, key a =? k) l.
Proof.
  unfold sort.
  assert (∀ acc, Forall Q acc → Forall Q l →
                 StronglySorted (λ a b, key b ≤ key a) acc →
                 List.filter (λ a, key a =? k)
                   (fold_left (λ sorted x, sort_insert comparefn x sorted) l acc)
                 = List.filter (λ a, key a =? k) acc
                   ++ List.filter (λ a, key a =? k) l)
    as Hgen; [|intros; by rewrite Hgen; [|constructor|done|constructor]].
  induction l as [|x l IH]; intros acc HQa HQ Hacc; simpl;
    [by rewrite app_nil_r|].
  apply Forall_cons in HQ as [HQx HQ].
  rewrite IH; [|by rewrite sort_insert_Permutation; constructor|done|
               by apply (sort_insert_sorted key comparefn Q)].
  rewrite sort_insert_filter_key by done.
  rewrite <- app_assoc. by destruct (key x =? k).
Qed.
End KeyedSortStable.

(** X7.  The sorts by creation time and by priority keep the order of the
    argument among equals: of the tasks returned, those created at the
    same time, and those of the same rank of priority, are in the order
    they have in the argument. *)
Theorem sorts_keep_order_among_equals {R : Type} (obj : R → Task) (c : Controls)
    (now : Z) (list : loc) (h : gmap loc (Datatypes.list R)) (l : Datatypes.list R) :
  h !! list = Some l →
  ∃ l', holds (applyFilters obj c now list h) l'
        ∧ (sortBy c = "created_desc" →
           ∀ k, List.filter (λ t, Task.created (obj t) =? k) l'
                = List.filter (λ t, Task.created (obj t) =? k)
                    (List.filter (shown obj c now) l))
        ∧ (sortBy c = "priority_desc" →
           Forall (λ t, inherited_property (Task.priority (obj t)) = false) l →
           ∀ k, List.filter (λ t, rank (Task.priority (obj t)) =? k) l'
                = List.filter (λ t, rank (Task.priority (obj t)) =? k)
                    (List.filter (shown obj c now) l)).
Proof.
  intros Hl. exists (applyFilters_list obj c now l).
  split; [by apply applyFilters_holds|].
  unfold applyFilters_list, comparator. cbv zeta. split.
  - intros Hs k. rewrite Hs. simpl.
    apply (sort_filter_key (λ t, Task.created (obj t)) _ (λ _, True)); [done|].
    by apply Forall_forall.
  - intros Hs Hp k. rewrite Hs. simpl.
    apply (sort_filter_key (λ t, rank (Task.priority (obj t))) _
             (λ t, inherited_property (Task.priority (obj t)) = false)).
    + intros a b Ha Hb. simpl. by rewrite !priority_rank_rank.
    + rewrite Forall_forall in Hp. apply Forall_forall.
      intros t Ht%list_elem_of_In%List.filter_In. apply Hp, list_elem_of_In, Ht.
Qed.

Lemma sorts_keep_order_among_equals_witness :
  ∃ l', holds (applyFilters id (sorted_by "priority_desc") 0 1%positive
                 {[ 1%positive := [no_due; due_2025_01_05; due_2025_01_10] ]}) l'
        ∧ ("priority_desc" = "created_desc" →
           ∀ k, List.filter (λ t, Task.created (id t) =? k) l'
                = List.filter (λ t, Task.created (id t) =? k)
                    (List.filter (shown id (sorted_by "priority_desc") 0)
                       [no_due; due_2025_01_05; due_2025_01_10]))
        ∧ ("priority_desc" = "priority_desc" →
           Forall (λ t, inherited_property (Task.priority (id t)) = false)
                  [no_due; due_2025_01_05; due_2025_01_10] →
           ∀ k, List.filter (λ t, rank (Task.priority (id t)) =? k) l'
                = List.filter (λ t, rank (Task.priority (id t)) =? k)
                    (List.filter (shown id (sorted_by "priority_desc") 0)
                       [no_due; due_2025_01_05; due_2025_01_10])).
Proof.
  apply (sorts_keep_order_among_equals id (sorted_by "priority_desc") 0 1%positive
           {[ 1%positive := [no_due; due_2025_01_05; due_2025_01_10] ]}
           [no_due; due_2025_01_05; due_2025_01_10]).
  reflexivity.
Defined.

Lemma date_desc_comparator_not_Lt a b :
  due_as_written (Task.due a) → due_as_written (Task.due b) →
  sort_order (number_sub (due_or (of_Z 0) (Task.due b))
                         (due_or (of_Z 0) (Task.due a))) = Eq.
Proof.
  assert (∀ d, due_as_written d →
               due_or (of_Z 0) d = of_Z 0 ∨ due_or (of_Z 0) d = NaN) as Hop.
  { intros d [->|(s & t & -> & Ht)]; [by left|].
    destruct (Date_getTime_shape s t Ht)
      as (y1 & y2 & y3 & y4 & m1 & m2 & d1 & d2 & -> & Hd).
    right. simpl. by apply date_chars_NaN. }
  intros [-> | ->]%Hop [-> | ->]%Hop; reflexivity.
Qed.

(** X8.  Neither sort by due date changes the order: when every due date is as
    the page writes it, [null] or a date, the array returned with the sort
    key [date_asc] or [date_desc] holds the tasks that pass the filters in
    the order of the argument. *)
Theorem date_sorts_keep_order {R : Type} (obj : R → Task) (c : Controls)
    (now : Z) (list : loc) (h : gmap loc (Datatypes.list R)) (l : Datatypes.list R) :
  h !! list = Some l →
  sortBy c = "date_asc" ∨ sortBy c = "date_desc" →
  Forall (λ t, due_as_written (Task.due (obj t))) l →
  holds (applyFilters obj c now list h) (List.filter (shown obj c now) l).
Proof.
  intros Hl Hs Hd.
  assert (applyFilters_list obj c now l = List.filter (shown obj c now) l) as <-;
    [|by apply applyFilters_holds].
  assert (∀ x, x ∈ List.filter (shown obj c now) l → due_as_written (Task.due (obj x)))
    as Hin.
  { rewrite Forall_forall in Hd.
    intros x Hx%list_elem_of_In%List.filter_In. apply Hd, list_elem_of_In, Hx. }
  unfold applyFilters_list, comparator. cbv zeta.
  destruct Hs as [Hs|Hs]; rewrite Hs; simpl; apply sort_not_before; intros x y Hx Hy.
  - rewrite date_asc_comparator_NaN by auto. done.
  - rewrite date_desc_comparator_not_Lt by auto. done.
Qed.

Lemma date_sorts_keep_order_witness :
  holds (applyFilters id (sorted_by "date_desc") 0 1%positive
           {[ 1%positive := [no_due; due_2025_01_05; due_2025_01_10] ]})
        (List.filter (shown id (sorted_by "date_desc") 0)
           [no_due; due_2025_01_05; due_2025_01_10]).
Proof.
  apply (date_sorts_keep_order id (sorted_by "date_desc") 0 1%positive
           {[ 1%positive := [no_due; due_2025_01_05; due_2025_01_10] ]}
           [no_due; due_2025_01_05; due_2025_01_10]);
    [reflexivity|by right|].
  apply Forall_cons. split; [by left|].
  apply Forall_cons. split; [right; by exists "2025-01-05", 1736035200000|].
  apply Forall_cons. split; [right; by exists "2025-01-10", 1736467200000|].
  constructor.
Defined.

(** *** The status filter *)

Lemma filter_split {A} (p q : A → bool) (l : list A) :
  List.filter (λ x, p x && negb (q x)) l ++ List.filter (λ x, p x && q x) l
  ≡ₚ List.filter p l.
Proof.
  induction l as [|x l IH]; simpl; [done|].
  destruct (p x), (q x); simpl; try done.
  - rewrite <- Permutation_middle. by constructor.
  - by constructor.
Qed.

Lemma filter_sublist {A} (p q : A → bool) (l : list A) :
  (∀ x, p x = true → q x = true) →
  sublist (List.filter p l) (List.filter q l).
Proof.
  intros Hpq. induction l as [|x l IH]; simpl; [done|].
  destruct (p x) eqn:Hp.
  - rewrite (Hpq x Hp). by constructor.
  - destruct (q x); [by constructor|done].
Qed.

Lemma shown_with_status {R} (obj : R → Task) (status : string) c now t :
  shown obj (with_status status c) now t
  = matches_search obj c t && matches_category obj c t
    && matches_status obj (with_status status c) now t.
Proof.
  unfold shown. change (matches_search obj (with_status status c) t)
    with (matches_search obj c t).
  change (matches_category obj (with_status status c) t)
    with (matches_category obj c t).
  by destruct (matches_search obj c t), (matches_category obj c t),
    (matches_status obj (with_status status c) now t).
Qed.

(** X9.  The status filters divide the tasks: with the same search, category
    and sort key, the tasks returned for [pending] and those returned for
    [completed] are together the tasks returned without a status filter,
    and every task returned for [overdue] is returned for [pending]. *)
Theorem status_filters_partition {R : Type} (obj : R → Task) (c : Controls)
    (now : Z) (list : loc) (h : gmap loc (Datatypes.list R)) (l : Datatypes.list R) :
  h !! list = Some l →
  filterStatus c ∉ ["pending"; "completed"; "overdue"] →
  ∃ la lp lc lo,
    holds (applyFilters obj c now list h) la
    ∧ holds (applyFilters obj (with_status "pending" c) now list h) lp
    ∧ holds (applyFilters obj (with_status "completed" c) now list h) lc
    ∧ holds (applyFilters obj (with_status "overdue" c) now list h) lo
    ∧ lp ++ lc ≡ₚ la
    ∧ lo ⊆+ lp.
Proof.
  intros Hl Hs.
  exists (applyFilters_list obj c now l),
         (applyFilters_list obj (with_status "pending" c) now l),
         (applyFilters_list obj (with_status "completed" c) now l),
         (applyFilters_list obj (with_status "overdue" c) now l).
  repeat (split; [by apply applyFilters_holds|]).
  rewrite !applyFilters_list_Permutation.
  assert (∀ t, shown obj c now t
               = matches_search obj c t && matches_category obj c t) as Ha.
  { intros t. unfold shown, matches_status.
    destruct (String.eqb_spec (filterStatus c) "pending") as [E|_];
      [rewrite E in Hs; exfalso; apply Hs; set_solver|].
    destruct (String.eqb_spec (filterStatus c) "completed") as [E|_];
      [rewrite E in Hs; exfalso; apply Hs; set_solver|].
    destruct (String.eqb_spec (filterStatus c) "overdue") as [E|_];
      [rewrite E in Hs; exfalso; apply Hs; set_solver|].
    by rewrite andb_true_r. }
  split.
  - rewrite (List.filter_ext _ _ Ha l).
    rewrite (List.filter_ext _ _ (shown_with_status obj "pending" c now) l).
    rewrite (List.filter_ext _ _ (shown_with_status obj "completed" c now) l).
    apply (filter_split (λ t, matches_search obj c t && matches_category obj c t)
             (λ t, Task.completed (obj t))).
  - apply sublist_submseteq, filter_sublist. intros t.
    rewrite !shown_with_status. unfold matches_status, with_status, overdue_open.
    simpl. destruct (matches_search obj c t && matches_category obj c t); [|done].
    simpl. by intros [_ ?]%andb_true_iff.
Qed.

Lemma status_filters_partition_witness :
  ∃ la lp lc lo,
    holds (applyFilters id (sorted_by "priority_desc") 0 1%positive
             {[ 1%positive := [no_due; due_2025_01_05; due_2025_01_10] ]}) la
    ∧ holds (applyFilters id (with_status "pending" (sorted_by "priority_desc")) 0
               1%positive
               {[ 1%positive := [no_due; due_2025_01_05; due_2025_01_10] ]}) lp
    ∧ holds (applyFilters id (with_status "completed" (sorted_by "priority_desc")) 0
               1%positive
               {[ 1%positive := [no_due; due_2025_01_05; due_2025_01_10] ]}) lc
    ∧ holds (applyFilters id (with_status "overdue" (sorted_by "priority_desc")) 0
               1%positive
               {[ 1%positive := [no_due; due_2025_01_05; due_2025_01_10] ]}) lo
    ∧ lp ++ lc ≡ₚ la
    ∧ lo ⊆+ lp.
Proof.
  apply (status_filters_partition id (sorted_by "priority_desc") 0 1%positive
           {[ 1%positive := [no_due; due_2025_01_05; due_2025_01_10] ]}
           [no_due; due_2025_01_05; due_2025_01_10]); [reflexivity|].
  simpl. rewrite !elem_of_cons, elem_of_nil. intros [?|[?|[?|[]]]]; discriminate.
Defined.
(** ** [render] *)

Lemma createTaskNode_fst found now n st :
  fst (createTaskNode found now n st)
  = match tasks st !! n with
    | Some task =>
        match node_error found now task with
        | Some e => Throw e
        | None => Normal tt
        end
    | None => Normal tt
    end.
Proof.
  unfold createTaskNode, node_error.
  destruct (tasks st !! n) as [task|] eqn:Ht; [|done].
  destruct (classList_add _); [done|].
  destruct (_ && _); [done|].
  unfold on_task. rewrite Ht. unfold renderSubtasks.
  by destruct (forallb _ _).
Qed.

Lemma createTaskNode_lookup_ne found now n m st :
  m ≠ n → tasks (snd (createTaskNode found now n st)) !! m = tasks st !! m.
Proof.
  intros Hne. unfold createTaskNode. destruct (tasks st !! n) as [task|]; [|done].
  destruct (classList_add _); [done|].
  destruct (_ && _); [done|].
  destruct (on_task_snd n (renderSubtasks found) st) as [-> _].
  by apply list_lookup_alter_ne.
Qed.

Lemma forEach_createTaskNode_fst found now ns st :
  NoDup ns → Forall (λ n, is_Some (tasks st !! n)) ns →
  fst (forEach (createTaskNode found now) ns st)
  = nodes_outcome found now (map (λ n, tasks st !!! n) ns).
Proof.
  revert st. induction ns as [|n ns IH]; intros st Hnd Hin; simpl; [done|].
  apply NoDup_cons in Hnd as [Hn Hnd]. apply Forall_cons in Hin as [[t Ht] Hin].
  unfold mbind, M_bind, M_bind_def.
  pose proof (createTaskNode_fst found now n st) as Hf.
  pose proof (λ m, createTaskNode_lookup_ne found now n m st) as Hl.
  rewrite Ht in Hf. rewrite (list_lookup_total_correct _ _ _ Ht).
  destruct (createTaskNode found now n st) as [[[]|e] st1]; simpl in *.
  - destruct (node_error found now t); [done|]. rewrite IH; [|done|].
    + f_equal. apply map_ext_in. intros m Hm%list_elem_of_In.
      rewrite !list_lookup_total_alt, Hl; [done|]. by intros ->.
    + apply Forall_forall. intros m Hm. rewrite Hl by (by intros ->).
      rewrite Forall_forall in Hin. by apply Hin.
  - by destruct (node_error found now t).
Qed.

Lemma render_forEach found c now st :
  render found c now st
  = forEach (createTaskNode found now)
      (applyFilters_list (λ n, tasks st !!! n) c now (seq 0 (length (tasks st)))) st.
Proof.
  unfold render.
  pose proof (applyFilters_holds (λ n, tasks st !!! n) c now 1%positive
                {[ 1%positive := seq 0 (length (tasks st)) ]}
                (seq 0 (length (tasks st))) (lookup_singleton_eq _ _)) as Hh.
  destruct (applyFilters _ c now 1%positive _) as [filtered h].
  unfold holds in Hh. simpl in Hh. by rewrite (lookup_total_correct _ _ _ Hh).
Qed.

Lemma shown_positions c now (l : list Task) n :
  n ∈ List.filter (shown (λ n, l !!! n) c now) (seq 0 (length l))
  ↔ ∃ t, l !! n = Some t ∧ shown id c now t = true.
Proof.
  rewrite list_elem_of_In, List.filter_In, <- list_elem_of_In, elem_of_seq.
  split.
  - intros [[_ Hn] Hs]. simpl in Hn.
    destruct (lookup_lt_is_Some_2 l n Hn) as [t Ht]. exists t. split; [done|].
    change (shown id c now (l !!! n) = true) in Hs.
    by rewrite (list_lookup_total_correct _ _ _ Ht) in Hs.
  - intros (t & Ht & Hs). split.
    + split; [lia|]. simpl. by eapply lookup_lt_Some.
    + change (shown id c now (l !!! n) = true).
      by rewrite (list_lookup_total_correct _ _ _ Ht).
Qed.

Lemma nodes_outcome_Normal found now l :
  nodes_outcome found now l = Normal tt
  ↔ Forall (λ t, node_error found now t = None) l.
Proof.
  induction l as [|t l IH]; simpl; [split; [constructor|done]|].
  rewrite Forall_cons. destruct (node_error found now t); [|by rewrite IH; tauto].
  split; [done|]. by intros [? _].
Qed.

Lemma nodes_outcome_Throw found now l e :
  nodes_outcome found now l = Throw e →
  ∃ t, t ∈ l ∧ node_error found now t = Some e.
Proof.
  induction l as [|t l IH]; simpl; [done|].
  destruct (node_error found now t) as [e'|] eqn:He.
  - intros [= ->]. exists t. split; [constructor|done].
  - intros (t' & Ht' & He')%IH. exists t'. split; [by constructor|done].
Qed.

(** The tasks [render] makes nodes of are the tasks of the store that pass
    the filters. *)
Lemma render_fst found c now st :
  ∃ displayed,
    fst (render found c now st) = nodes_outcome found now displayed
    ∧ ∀ t, t ∈ displayed ↔ t ∈ tasks st ∧ shown id c now t = true.
Proof.
  exists (map (λ n, tasks st !!! n)
            (applyFilters_list (λ n, tasks st !!! n) c now
               (seq 0 (length (tasks st))))).
  split.
  - rewrite render_forEach. apply forEach_createTaskNode_fst.
    + rewrite applyFilters_list_Permutation.
      apply NoDup_ListNoDup, List.NoDup_filter, NoDup_ListNoDup, NoDup_seq.
    + apply Forall_forall. intros n Hn.
      rewrite applyFilters_list_Permutation in Hn.
      apply shown_positions in Hn as (t & Ht & _). by exists t.
  - intros t. rewrite list_elem_of_fmap. split.
    + intros (n & -> & Hn). rewrite applyFilters_list_Permutation in Hn.
      apply shown_positions in Hn as (t & Ht & Hs).
      rewrite (list_lookup_total_correct _ _ _ Ht).
      split; [by eapply list_elem_of_lookup_2|done].
    + intros [Ht Hs]. apply list_elem_of_lookup_1 in Ht as [n Hn].
      exists n. split; [by rewrite (list_lookup_total_correct _ _ _ Hn)|].
      rewrite applyFilters_list_Permutation. apply shown_positions. eauto.
Qed.

Lemma render_returns found c now st :
  fst (render found c now st) = Normal tt
  ↔ ∀ t, t ∈ tasks st → shown id c now t = true → node_error found now t = None.
Proof.
  destruct (render_fst found c now st) as (displayed & -> & Hd).
  rewrite nodes_outcome_Normal, Forall_forall. split.
  - intros Hall t Ht Hs. apply Hall, Hd. done.
  - intros Hall t [Ht Hs]%Hd. by apply Hall.
Qed.

Lemma render_throws found c now st e :
  fst (render found c now st) = Throw e →
  ∃ t, t ∈ tasks st ∧ shown id c now t = true ∧ node_error found now t = Some e.
Proof.
  destruct (render_fst found c now st) as (displayed & -> & Hd).
  intros (t & [Ht Hs]%Hd & He)%nodes_outcome_Throw. eauto.
Qed.

Lemma refreshed_I1_eq before after :
  refreshed before after → Forall I1 before → after = before.
Proof.
  induction 1 as [|t t' l l' Ht _ IH]; intros HI; [done|].
  apply Forall_cons in HI as [Ht1 HI]. rewrite IH by done.
  destruct Ht as [->| ->]; [done|]. by rewrite updateTaskProgress_fixed.
Qed.

Lemma render_snd found c now st :
  Forall I1 (tasks st) → snd (render found c now st) = st.
Proof.
  intros HI. destruct (render_refreshed found c now st) as [HR Hl].
  apply refreshed_I1_eq in HR; [|done].
  destruct (snd (render found c now st)) as [ts lg], st as [ts0 lg0]. simpl in *.
  by rewrite HR, Hl.
Qed.

Lemma sample_dues :
  Forall (λ t, due_as_written (Task.due t))
    [two_subtasks; due_2025_01_05; due_2025_01_10].
Proof.
  apply Forall_cons. split; [by left|].
  apply Forall_cons. split; [right; by exists "2025-01-05", 1736035200000|].
  apply Forall_cons. split; [right; by exists "2025-01-10", 1736467200000|].
  constructor.
Qed.

Lemma node_error_None found now t :
  node_error found now t = None
  ↔ classList_add (toLowerCase (Task.priority t)) = None
    ∧ overdue_open now t = false ∧ rendered found t.
Proof.
  unfold node_error, overdue_open. rewrite rendered_forallb.
  destruct (classList_add _); [by split; [|intros [? _]]|].
  destruct (_ && _); [by split; [|intros (_ & ? & _)]|].
  destruct (forallb _ _); [done|]. by split; [|intros (_ & _ & ?)].
Qed.

(** X10.  [render] returns exactly when every task that passes the filters has a
    priority that [classList.add] takes as a class token, is not overdue
    while open, and has only subtasks for which the host finds the delete
    button.  When [render] throws, it is with the exception of
    [createTaskNode] for one of the tasks that pass the filters.  The due
    dates are as the page writes them. *)
Theorem render_returns_iff_nodes_made (found : string → bool) (c : Controls)
    (now : Z) (st : State) :
  Forall (λ t, due_as_written (Task.due t)) (tasks st) →
  (fst (render found c now st) = Normal tt
   ↔ ∀ t, t ∈ tasks st → shown id c now t = true →
          classList_add (toLowerCase (Task.priority t)) = None
          ∧ overdue_open now t = false ∧ rendered found t)
  ∧ (∀ e, fst (render found c now st) = Throw e →
          ∃ t, t ∈ tasks st ∧ shown id c now t = true
               ∧ node_error found now t = Some e).
Proof.
  intros _. split; [|intros e; apply render_throws].
  rewrite render_returns. split; intros Hall t Ht Hs.
  - by apply node_error_None, Hall.
  - by apply node_error_None, Hall.
Qed.

(** The theorem for a store of which one task is overdue. *)
Lemma render_returns_iff_nodes_made_witness :
  (fst (render found_unless_comment (sorted_by "priority_desc") 1736467200000
          {| tasks := [two_subtasks; due_2025_01_05; due_2025_01_10]; log := [] |})
   = Normal tt
   ↔ ∀ t, t ∈ [two_subtasks; due_2025_01_05; due_2025_01_10] →
          shown id (sorted_by "priority_desc") 1736467200000 t = true →
          classList_add (toLowerCase (Task.priority t)) = None
          ∧ overdue_open 1736467200000 t = false
          ∧ rendered found_unless_comment t)
  ∧ (∀ e,
       fst (render found_unless_comment (sorted_by "priority_desc") 1736467200000
              {| tasks := [two_subtasks; due_2025_01_05; due_2025_01_10];
                 log := [] |})
       = Throw e →
       ∃ t, t ∈ [two_subtasks; due_2025_01_05; due_2025_01_10]
            ∧ shown id (sorted_by "priority_desc") 1736467200000 t = true
            ∧ node_error found_unless_comment 1736467200000 t = Some e).
Proof.
  apply (render_returns_iff_nodes_made found_unless_comment
           (sorted_by "priority_desc") 1736467200000
           {| tasks := [two_subtasks; due_2025_01_05; due_2025_01_10];
              log := [] |}).
  exact sample_dues.
Defined.

Example render_throws_for_overdue :
  fst (render found_unless_comment (sorted_by "priority_desc") 1736467200000
         {| tasks := [two_subtasks; due_2025_01_05; due_2025_01_10]; log := [] |})
  = Throw "TypeError: Assignment to constant variable.".
Proof. vm_compute. reflexivity. Qed.

Example render_throws_for_priority :
  fst (render found_unless_comment (sorted_by "none") 0
         {| tasks := [Task.mk "t2" "Call home" "Personal" "Very high" None 0 false []
                       false];
            log := [] |})
  = Throw "InvalidCharacterError".
Proof. vm_compute. reflexivity. Qed.

(** X11.  [render] changes nothing in a store in which the completion of every
    task follows its subtasks: the tasks and the log are as before,
    whether it returns or throws. *)
Theorem render_leaves_store (found : string → bool) (c : Controls) (now : Z)
    (st : State) :
  Forall I1 (tasks st) → snd (render found c now st) = st.
Proof. apply render_snd. Qed.

Lemma render_leaves_store_witness :
  snd (render found_unless_comment (sorted_by "priority_desc") 1736467200000
         {| tasks := [two_subtasks; due_2025_01_05]; log := [] |})
  = {| tasks := [two_subtasks; due_2025_01_05]; log := [] |}.
Proof.
  apply (render_leaves_store found_unless_comment (sorted_by "priority_desc")
           1736467200000
           {| tasks := [two_subtasks; due_2025_01_05]; log := [] |}).
  apply Forall_cons. split; [|apply Forall_cons; split; [|constructor]].
  - intros _. split; [discriminate|]. intros H. apply Forall_cons in H as [H _].
    discriminate H.
  - intros H. by destruct H.
Defined.

(** ** The overdue filter *)

Lemma overdue_node_error found now t :
  overdue_open now t = true → node_error found now t ≠ None.
Proof.
  unfold overdue_open, node_error. intros ->. by destruct (classList_add _).
Qed.

(** X12.  With the status filter [overdue], [render] returns only when no task
    passes the filters: every task that filter lets through is overdue and
    not completed, and for the first of them [createTaskNode] throws. *)
Theorem render_overdue_filter (found : string → bool) (c : Controls) (now : Z)
    (st : State) :
  filterStatus c = "overdue" →
  (fst (render found c now st) = Normal tt
   ↔ Forall (λ t, shown id c now t = false) (tasks st)).
Proof.
  intros Hs. rewrite render_returns, Forall_forall.
  assert (∀ t, shown id c now t = true → overdue_open now t = true) as Ho.
  { intros t. unfold shown, matches_status. rewrite Hs. simpl.
    destruct (matches_search id c t), (overdue_open now t); done. }
  split.
  - intros Hall t Ht. destruct (shown id c now t) eqn:Hsh; [|done].
    destruct (overdue_node_error found now t (Ho t Hsh)). by apply Hall.
  - intros Hall t Ht Hsh. rewrite (Hall t Ht) in Hsh. done.
Qed.

(** The theorem for a store with a task that is overdue and passes the
    filter: [render] throws. *)
Lemma render_overdue_filter_witness :
  fst (render found_unless_comment (with_status "overdue" (sorted_by "none"))
         1736467200000
         {| tasks := [no_due; due_2025_01_05; two_subtasks]; log := [] |})
  = Normal tt
  ↔ Forall (λ t, shown id (with_status "overdue" (sorted_by "none")) 1736467200000 t
                 = false)
           [no_due; due_2025_01_05; two_subtasks].
Proof.
  apply (render_overdue_filter found_unless_comment
           (with_status "overdue" (sorted_by "none")) 1736467200000
           {| tasks := [no_due; due_2025_01_05; two_subtasks]; log := [] |}).
  reflexivity.
Defined.

Example render_overdue_filter_throws :
  fst (render found_unless_comment (with_status "overdue" (sorted_by "none"))
         1736467200000
         {| tasks := [no_due; due_2025_01_05; two_subtasks]; log := [] |})
  = Throw "TypeError: Assignment to constant variable."
  ∧ map (shown id (with_status "overdue" (sorted_by "none")) 1736467200000)
        [no_due; due_2025_01_05; two_subtasks]
    = [false; true; false].
Proof. vm_compute. done. Qed.

(** ** The submit handler *)

(** X13.  A submit with a text that is not blank puts the new task at the head
    of the store and renders.  If [createTaskNode] throws for no task that
    then passes the filters, the handler goes on as [scheduleReminders] on
    the new store.  If it throws for one of them, the handler ends there
    with the exception of [createTaskNode] for such a task, the new task
    is in the store, and [scheduleReminders] is not run.  The store is one
    in which the completion of every task follows its subtasks, and the
    due dates are as the page writes them. *)
Theorem taskForm_submit_steps (found : string → bool) (env : Env) (form : Form)
    (st : State) :
  Forall I1 (tasks st) →
  Forall (λ t, due_as_written (Task.due t))
         (newTask env form (trim (input form)) :: tasks st) →
  truthy (trim (input form)) = true →
  let st1 := {| tasks := newTask env form (trim (input form)) :: tasks st;
                log := log st |} in
  ((∀ t, t ∈ tasks st1 → shown id (controls env) (now env) t = true →
         node_error found (now env) t = None) →
   taskForm_submit found env form st = scheduleReminders env st1)
  ∧ ((∃ t, t ∈ tasks st1 ∧ shown id (controls env) (now env) t = true
           ∧ node_error found (now env) t ≠ None) →
     ∃ e t, t ∈ tasks st1 ∧ shown id (controls env) (now env) t = true
            ∧ node_error found (now env) t = Some e
            ∧ taskForm_submit found env form st = (Throw e, st1)).
Proof.
  intros HI _ Hv st1. unfold taskForm_submit. rewrite Hv.
  change (negb true) with false. cbv iota.
  unfold mbind, M_bind, M_bind_def, modify_tasks. fold st1.
  assert (Forall I1 (tasks st1)) as H1.
  { constructor; [|done]. unfold I1. simpl. done. }
  pose proof (render_snd found (controls env) (now env) st1 H1) as Hsnd.
  pose proof (render_returns found (controls env) (now env) st1) as Hret.
  pose proof (render_throws found (controls env) (now env) st1) as Hthr.
  destruct (render found (controls env) (now env) st1) as [[[]|e] st2];
    simpl in Hsnd, Hret, Hthr; subst st2.
  - split; [done|]. intros (t & Ht & Hs & He). destruct He.
    by apply (proj1 Hret).
  - split.
    + intros Hall. by apply (proj2 Hret) in Hall.
    + intros _. destruct (Hthr e eq_refl) as (t & Ht & Hs & He). eauto 10.
Qed.

(** The theorem for a submit with a due date in the past: [render] throws
    for the new task. *)
Lemma taskForm_submit_steps_witness :
  let st1 := {| tasks := newTask sample_env overdue_form (trim (input overdue_form))
                         :: [two_subtasks];
                log := [] |} in
  ((∀ t, t ∈ tasks st1 →
         shown id (controls sample_env) (now sample_env) t = true →
         node_error found_unless_comment (now sample_env) t = None) →
   taskForm_submit found_unless_comment sample_env overdue_form
     {| tasks := [two_subtasks]; log := [] |}
   = scheduleReminders sample_env st1)
  ∧ ((∃ t, t ∈ tasks st1
           ∧ shown id (controls sample_env) (now sample_env) t = true
           ∧ node_error found_unless_comment (now sample_env) t ≠ None) →
     ∃ e t, t ∈ tasks st1
            ∧ shown id (controls sample_env) (now sample_env) t = true
            ∧ node_error found_unless_comment (now sample_env) t = Some e
            ∧ taskForm_submit found_unless_comment sample_env overdue_form
                {| tasks := [two_subtasks]; log := [] |}
              = (Throw e, st1)).
Proof.
  apply (taskForm_submit_steps found_unless_comment sample_env overdue_form
           {| tasks := [two_subtasks]; log := [] |}); [| |reflexivity].
  - apply Forall_cons. split; [|constructor].
    intros _. split; [discriminate|]. intros H. apply Forall_cons in H as [H _].
    discriminate H.
  - apply Forall_cons. split; [right; by exists "2025-01-05", 1736035200000|].
    apply Forall_cons. split; [by left|constructor].
Defined.

Example taskForm_submit_overdue :
  fst (taskForm_submit found_unless_comment sample_env overdue_form
         {| tasks := [two_subtasks]; log := [] |})
  = Throw "TypeError: Assignment to constant variable.".
Proof. vm_compute. reflexivity. Qed.

(** ** What the events do to the ids *)

Lemma bind_render_ids (m : M unit) found c now st :
  ids (tasks (snd ((_ ← m; render found c now) st))) = ids (tasks (snd (m st))).
Proof.
  unfold mbind, M_bind, M_bind_def.
  destruct (m st) as [[[]|e] st1]; simpl; [|done].
  destruct (render_refreshed found c now st1) as [HR _].
  by rewrite (refreshed_ids _ _ HR).
Qed.

Lemma alter_ids (f : Task → Task) n l :
  (∀ t, Task.id (f t) = Task.id t) → ids (alter f n l) = ids l.
Proof.
  intros Hf. unfold ids. revert n.
  induction l as [|t l IH]; intros [|n]; simpl; try done.
  - by rewrite Hf.
  - f_equal. apply IH.
Qed.

Lemma on_task_ids n (handler : Node unit) st :
  (∀ t, Task.id (snd (handler t)) = Task.id t) →
  ids (tasks (snd (on_task n handler st))) = ids (tasks st).
Proof.
  intros Hh. destruct (on_task_snd n handler st) as [-> _]. by apply alter_ids.
Qed.

Lemma renderSubtasks_id found t : Task.id (snd (renderSubtasks found t)) = Task.id t.
Proof.
  destruct (renderSubtasks_refreshed found t) as [-> | ->]; [done|].
  apply updateTaskProgress_id.
Qed.

Lemma filter_ids id (l : list Task) :
  ids (List.filter (λ t, negb (String.eqb (Task.id t) id)) l)
  = List.filter (λ i, negb (String.eqb i id)) (ids l).
Proof.
  induction l as [|t l IH]; simpl; [done|].
  destruct (negb _); simpl; by rewrite IH.
Qed.

(** X14.  Only a submit adds an id to the store, at its head and only for a text
    that is not blank; only the timer of a delete button takes ids out,
    every task with the id of its task and no other; a drop moves an id as
    [reorderTasks] does; every other event leaves the ids of the store as
    they are, in their order. *)
Theorem handle_ids (found : string → bool) (env : Env) (ev : event) (st : State) :
  ids (tasks (snd (handle found env ev st)))
  = match ev with
    | Submit form =>
        if truthy (trim (input form)) then uid env :: ids (tasks st)
        else ids (tasks st)
    | DeleteTimeout id => List.filter (λ i, negb (String.eqb i id)) (ids (tasks st))
    | Drop idFrom idTo =>
        if truthy idFrom then ids (reorderTasks idFrom idTo (tasks st))
        else ids (tasks st)
    | _ => ids (tasks st)
    end.
Proof.
  destruct ev as [form|n m|n content|n idx content|id|idFrom idTo|]; simpl.
  - destruct (truthy (trim (input form))) eqn:Hv;
      [by apply taskForm_submit_ids|].
    unfold taskForm_submit. by rewrite Hv.
  - destruct m as [value|idx|idx|]; simpl.
    + apply on_task_ids. intros t. rewrite addSubBtn_click_snd.
      destruct (truthy _); [|done]. by rewrite renderSubtasks_id.
    + apply on_task_ids. intros t.
      by rewrite subcheck_click_snd, renderSubtasks_id.
    + apply on_task_ids. intros t.
      by rewrite delete_sub_click_snd, renderSubtasks_id.
    + unfold checkBtn_click. rewrite bind_render_ids. apply on_task_ids.
      intros t. rewrite checkBtn_toggle_snd, renderSubtasks_id.
      by destruct (negb _).
  - unfold titleEl_blur. rewrite bind_render_ids. by apply alter_ids.
  - by apply on_task_ids.
  - unfold deleteBtn_timeout. rewrite bind_render_ids. apply filter_ids.
  - unfold li_drop. destruct (truthy idFrom); simpl; [|done].
    destruct (String.eqb_spec idFrom idTo) as [->|_].
    + by rewrite reorderTasks_same.
    + apply bind_render_ids.
  - destruct (render_refreshed found (controls env) (now env) st) as [HR _].
    by rewrite (refreshed_ids _ _ HR).
Qed.

(** ** Editing a title *)

Lemma updateTaskProgress_texts l l' :
  refreshed l l' → map Task.text l' = map Task.text l.
Proof.
  induction 1 as [|t t' l l' [->| ->] _ IH]; simpl; [done|by rewrite IH|].
  by rewrite IH, updateTaskProgress_text.
Qed.

(** X15.  After the blur of a title the task has the text of the title element
    without the white space around it, or its old text if that is empty;
    the texts of the other tasks are as before. *)
Theorem titleEl_blur_texts (found : string → bool) (env : Env) (n : nat)
    (content : string) (st : State) :
  map Task.text (tasks (snd (titleEl_blur found env n content st)))
  = alter (string_or (trim content)) n (map Task.text (tasks st)).
Proof.
  unfold titleEl_blur, mbind, M_bind, M_bind_def, modify_tasks.
  set (st1 := {| tasks := alter _ n (tasks st); log := log st |}).
  destruct (render_refreshed found (controls env) (now env) st1) as [HR _].
  rewrite (updateTaskProgress_texts _ _ HR). simpl. clear HR st1.
  generalize (tasks st) as l. intros l. revert n.
  induction l as [|t l IH]; intros [|n]; simpl; try done.
  f_equal. apply IH.
Qed.

(** ** The subtask panel and the check button *)

Lemma filter_length_forallb {A} (p : A → bool) (l : list A) :
  Nat.eqb (length (List.filter p l)) (length l) = forallb p l.
Proof.
  apply Bool.eq_iff_eq_true.
  rewrite Nat.eqb_eq, filter_length_all, List.forallb_forall, Forall_forall.
  split; intros H x Hx; apply H; by apply list_elem_of_In.
Qed.

Lemma updateTaskProgress_forallb t :
  updateTaskProgress t
  = match Task.subtasks t with
    | [] => t
    | _ => Task.set_completed (forallb Subtask.done (Task.subtasks t)) t
    end.
Proof.
  unfold updateTaskProgress. destruct (Task.subtasks t) as [|s l] eqn:Hs; [done|].
  rewrite <- Hs. replace (negb (Nat.eqb (length (Task.subtasks t)) 0)) with true
    by (by rewrite Hs).
  rewrite filter_length_forallb.
  replace (Nat.ltb 0 (length (Task.subtasks t))) with true by (by rewrite Hs).
  rewrite andb_true_r. by destruct (forallb _ _).
Qed.

Lemma I1_forallb t :
  I1 t → Task.subtasks t ≠ [] →
  Task.completed t = forallb Subtask.done (Task.subtasks t).
Proof.
  intros HI Hne. apply Bool.eq_iff_eq_true. rewrite (HI Hne).
  rewrite List.forallb_forall, Forall_forall.
  split; intros H x Hx; apply H; by apply list_elem_of_In.
Qed.

Lemma toggle_done_twice (l : list Subtask) (idx : nat) :
  alter toggle_done idx (alter toggle_done idx l) = l.
Proof.
  revert idx. induction l as [|s l IH]; intros [|idx]; simpl; try done.
  - unfold toggle_done. simpl. rewrite negb_involutive. by destruct s.
  - f_equal. apply IH.
Qed.

Lemma toggle_done_found found (l : list Subtask) (idx : nat) :
  forallb (λ s, found (Subtask.text s)) (alter toggle_done idx l)
  = forallb (λ s, found (Subtask.text s)) l.
Proof.
  revert idx. induction l as [|s l IH]; intros [|idx]; simpl; try done.
  f_equal. apply IH.
Qed.

Lemma set_subtasks_same t : Task.set_subtasks (Task.subtasks t) t = t.
Proof. by destruct t. Qed.

Lemma toggle_refresh_twice (idx : nat) (task : Task) :
  I1 task →
  updateTaskProgress
    (Task.set_subtasks
       (alter toggle_done idx (alter toggle_done idx (Task.subtasks task)))
       (updateTaskProgress
          (Task.set_subtasks (alter toggle_done idx (Task.subtasks task)) task)))
  = task.
Proof.
  intros HI. rewrite toggle_done_twice.
  rewrite (updateTaskProgress_forallb (Task.set_subtasks _ task)). simpl.
  destruct (Task.subtasks task) as [|s l] eqn:Hs.
  - destruct idx; simpl; rewrite updateTaskProgress_no_subtasks by done;
      destruct task; simpl in *; by subst.
  - rewrite <- Hs.
    assert (∀ b, updateTaskProgress
                   (Task.set_subtasks (Task.subtasks task) (Task.set_completed b
                      (Task.set_subtasks (alter toggle_done idx (Task.subtasks task))
                         task)))
                 = task) as Hb.
    { intros b. rewrite updateTaskProgress_forallb. simpl. rewrite Hs, <- Hs.
      rewrite <- (I1_forallb _ HI) by (by rewrite Hs). by destruct task. }
    destruct (alter toggle_done idx (Task.subtasks task)) eqn:Ha.
    + rewrite Hs in Ha. by destruct idx.
    + rewrite <- Ha. apply Hb.
Qed.

(** X16.  Two clicks on the check box of a subtask undo each other: a task whose
    completion follows its subtasks is after them as it was before, also
    when [renderSubtasks] throws in both. *)
Theorem subcheck_click_twice (found : string → bool) (idx : nat) (task : Task) :
  I1 task →
  snd (subcheck_click found idx (snd (subcheck_click found idx task))) = task.
Proof.
  intros HI. rewrite !subcheck_click_snd, !renderSubtasks_snd.
  cbn [Task.subtasks Task.set_subtasks].
  rewrite (toggle_done_found found (Task.subtasks task) idx).
  destruct (forallb (λ s, found (Subtask.text s)) (Task.subtasks task)) eqn:Hf.
  - rewrite updateTaskProgress_subtasks. cbn [Task.subtasks Task.set_subtasks].
    rewrite toggle_done_found, toggle_done_found, Hf.
    by apply toggle_refresh_twice.
  - cbn [Task.subtasks Task.set_subtasks].
    rewrite toggle_done_found, toggle_done_found, Hf, toggle_done_twice.
    by destruct task.
Qed.

Lemma subcheck_click_twice_witness :
  snd (subcheck_click found_unless_comment 1
         (snd (subcheck_click found_unless_comment 1 two_subtasks)))
  = two_subtasks.
Proof.
  apply (subcheck_click_twice found_unless_comment 1 two_subtasks).
  intros _. split; [discriminate|]. intros H. apply Forall_cons in H as [H _].
  discriminate H.
Defined.

Lemma forallb_map_const (b : bool) (l : list Subtask) :
  l ≠ [] → forallb Subtask.done (map (λ s, Subtask.mk (Subtask.text s) b) l) = b.
Proof.
  destruct l as [|s l]; [done|]. intros _. simpl.
  destruct b; simpl; [|done]. induction l as [|s' l IH]; simpl; done.
Qed.

(** X17.  The check button flips the completion of a task whose completion
    follows its subtasks, and gives every subtask the new completion as
    its state; the texts of the subtasks stay.  The handler writes these
    before [renderSubtasks], so the task is left so also when that
    throws. *)
Theorem checkBtn_toggle_flips (found : string → bool) (task : Task) :
  I1 task →
  snd (checkBtn_toggle found task)
  = Task.set_completed (negb (Task.completed task))
      (Task.set_subtasks
         (map (λ s, Subtask.mk (Subtask.text s) (negb (Task.completed task)))
              (Task.subtasks task))
         task).
Proof.
  intros HI. rewrite checkBtn_toggle_snd.
  destruct (Task.subtasks task) as [|s l] eqn:Hs.
  - simpl.
    destruct (renderSubtasks_refreshed found
                (Task.set_completed (negb (Task.completed task)) task))
      as [-> | ->];
      [|rewrite updateTaskProgress_no_subtasks by done];
      destruct task; simpl in *; by subst.
  - rewrite <- Hs.
    assert (Task.subtasks task ≠ []) as Hne by (by rewrite Hs).
    replace (negb (Nat.eqb (length (Task.subtasks task)) 0)) with true
      by (by rewrite Hs).
    rewrite <- (I1_forallb _ HI Hne).
    match goal with
    | |- snd (renderSubtasks found ?t) = _ =>
        destruct (renderSubtasks_refreshed found t) as [-> | ->]
    end; [done|].
    rewrite updateTaskProgress_forallb. simpl.
    rewrite forallb_map_const by done.
    destruct (map _ (Task.subtasks task)) eqn:Hm; [|done].
    apply fmap_nil_inv in Hm. done.
Qed.

Lemma checkBtn_toggle_flips_witness :
  snd (checkBtn_toggle found_unless_comment two_subtasks)
  = Task.set_completed (negb (Task.completed two_subtasks))
      (Task.set_subtasks
         (map (λ s, Subtask.mk (Subtask.text s) (negb (Task.completed two_subtasks)))
              (Task.subtasks two_subtasks))
         two_subtasks).
Proof.
  apply (checkBtn_toggle_flips found_unless_comment two_subtasks).
  intros _. split; [discriminate|]. intros H. apply Forall_cons in H as [H _].
  discriminate H.
Defined.

Lemma forallb_app_false (l : list Subtask) s :
  Subtask.done s = false → forallb Subtask.done (l ++ [s]) = false.
Proof.
  intros Hs. rewrite List.forallb_app. simpl. rewrite Hs. apply andb_false_r.
Qed.

(** X18.  The add button with a blank input does nothing.  Otherwise it appends
    an open subtask with the text of the input without the white space
    around it.  If the host finds the delete button of every subtask the
    task then has, the handler returns and the task is not completed; if
    not, [renderSubtasks] throws and the task keeps its completion, next
    to the new open subtask. *)
Theorem addSubBtn_click_appends (found : string → bool) (value : string)
    (task : Task) :
  addSubBtn_click found value task
  = if truthy (trim value)
    then
      let task' :=
        Task.set_subtasks (Task.subtasks task ++ [Subtask.mk (trim value) false])
          task in
      if forallb (λ s, found (Subtask.text s)) (Task.subtasks task')
      then (Normal tt, Task.set_completed false task')
      else (Throw "TypeError: Cannot read properties of null (reading 'addEventListener')",
            task')
    else (Normal tt, task).
Proof.
  unfold addSubBtn_click.
  destruct (truthy (trim value)); cbn [negb]; [|done].
  unfold mbind, Node_bind, Node_bind_def, assign, renderSubtasks.
  cbn [Task.subtasks Task.set_subtasks].
  destruct (forallb _ _); [|done]. unfold assign.
  rewrite updateTaskProgress_forallb. cbn [Task.subtasks Task.set_subtasks].
  rewrite forallb_app_false by done.
  by destruct (Task.subtasks task).
Qed.

(** X19.  The bin of a subtask takes that subtask out and no other; a position
    that is not there takes none out.  If the host finds the delete button
    of every subtask left, the handler returns, and the task is completed
    exactly when all of them are done, or keeps its completion if none is
    left; if not, [renderSubtasks] throws and the task keeps its
    completion. *)
Theorem delete_sub_click_removes (found : string → bool) (idx : nat)
    (task : Task) :
  delete_sub_click found idx task
  = let task' := Task.set_subtasks (delete idx (Task.subtasks task)) task in
    if forallb (λ s, found (Subtask.text s)) (Task.subtasks task')
    then (Normal tt,
          match Task.subtasks task' with
          | [] => task'
          | rest => Task.set_completed (forallb Subtask.done rest) task'
          end)
    else (Throw "TypeError: Cannot read properties of null (reading 'addEventListener')",
          task').
Proof.
  unfold delete_sub_click, mbind, Node_bind, Node_bind_def, assign, renderSubtasks.
  rewrite splice_delete. cbn [Task.subtasks Task.set_subtasks].
  destruct (forallb _ _); [|done]. unfold assign. cbn [fst snd].
  rewrite updateTaskProgress_idemp, updateTaskProgress_forallb.
  cbn [Task.subtasks Task.set_subtasks].
  by destruct (delete idx (Task.subtasks task)).
Qed.

Example delete_sub_click_throws :
  delete_sub_click found_unless_comment 0
    (Task.mk "t1" "Report" "Work" "High" None 0 false
       [Subtask.mk "A" false; Subtask.mk "<!--" true; Subtask.mk "B" true] false)
  = (Throw "TypeError: Cannot read properties of null (reading 'addEventListener')",
     Task.mk "t1" "Report" "Work" "High" None 0 false
       [Subtask.mk "<!--" true; Subtask.mk "B" true] false).
Proof. vm_compute. reflexivity. Qed.

(** ** I1 after a subtask mutation *)



(** ** Overall progress *)

Lemma progress_units_fold (l : list Task) (a b : nat) :
  ∃ total done,
    fold_left
      (λ '(total, done) t,
         if negb (Nat.eqb (length (Task.subtasks t)) 0)
         then ((total + length (Task.subtasks t))%nat,
               (done + length (List.filter Subtask.done (Task.subtasks t)))%nat)
         else ((total + 1)%nat, (done + if Task.completed t then 1 else 0)%nat))
      l (a, b) = ((a + total)%nat, (b + done)%nat)
    ∧ (done ≤ total)%nat
    ∧ (length l ≤ total)%nat
    ∧ (Forall I1 l → (done = total ↔ Forall (λ t, Task.completed t = true) l)).
Proof.
  revert a b. induction l as [|t l IH]; intros a b; simpl.
  - exists 0%nat, 0%nat. rewrite !Nat.add_0_r. repeat split; auto.
  - pose proof (List.filter_length_le Subtask.done (Task.subtasks t)) as Hle.
    destruct (Task.subtasks t) as [|s ss] eqn:Hs; simpl negb; cbv iota.
    + destruct (IH (a + 1)%nat (b + if Task.completed t then 1 else 0)%nat)
        as (total & done & -> & Hd & Hl & Hall).
      exists (1 + total)%nat, ((if Task.completed t then 1 else 0) + done)%nat.
      split; [f_equal; lia|]. split; [destruct (Task.completed t); lia|].
      split; [lia|]. intros [_ HI]%Forall_cons. specialize (Hall HI).
      rewrite Forall_cons. destruct (Task.completed t); split.
      * intros H. split; [done|]. apply Hall. lia.
      * intros [_ H]. apply Hall in H. lia.
      * intros H. lia.
      * intros [H _]. done.
    + rewrite <- Hs in *.
      assert (0 < length (Task.subtasks t))%nat as Hpos by (rewrite Hs; simpl; lia).
      destruct (IH (a + length (Task.subtasks t))%nat
                  (b + length (List.filter Subtask.done (Task.subtasks t)))%nat)
        as (total & done & -> & Hd & Hl & Hall).
      exists (length (Task.subtasks t) + total)%nat,
             (length (List.filter Subtask.done (Task.subtasks t)) + done)%nat.
      split; [f_equal; lia|]. split; [lia|]. split; [lia|].
      intros [Ht HI]%Forall_cons. specialize (Hall HI).
      assert (Task.subtasks t ≠ []) as Hne by (by rewrite Hs).
      rewrite Forall_cons, (Ht Hne), <- filter_length_all.
      split.
      * intros H. split; [lia|]. apply Hall. lia.
      * intros [H1 H2]. apply Hall in H2. lia.
Qed.

(** X20.  The units [computeOverallProgress] adds up: the units done are never
    more than the total, and the total is at least the number of tasks, so
    it is zero only for no tasks and the quotient is never taken with a
    zero total for a store with tasks. *)
Theorem progress_units_bounds (l : list Task) :
  (snd (progress_units l) ≤ fst (progress_units l))%nat
  ∧ (length l ≤ fst (progress_units l))%nat.
Proof.
  unfold progress_units.
  destruct (progress_units_fold l 0 0) as (total & done & -> & Hd & Hl & _).
  simpl. done.
Qed.

(** X21.  In a store in which the completion of every task follows its
    subtasks, all units are done exactly when every task is completed. *)
Theorem progress_units_full (l : list Task) :
  Forall I1 l →
  (snd (progress_units l) = fst (progress_units l)
   ↔ Forall (λ t, Task.completed t = true) l).
Proof.
  intros HI. unfold progress_units.
  destruct (progress_units_fold l 0 0) as (total & done & -> & _ & _ & Hall).
  simpl. by apply Hall.
Qed.

Lemma progress_units_full_witness :
  snd (progress_units [two_subtasks; plain "t2"])
  = fst (progress_units [two_subtasks; plain "t2"])
  ↔ Forall (λ t, Task.completed t = true) [two_subtasks; plain "t2"].
Proof.
  apply (progress_units_full [two_subtasks; plain "t2"]).
  exact sample_store_I1.
Defined.

(** ** Reminders *)

Lemma remind_effects env task :
  Forall (reminder_effect env) (snd (remind env task))
  ∧ (snd (remind env task) ≠ [] →
     Task.reminded task = false ∧ Task.reminded (fst (remind env task)) = true).
Proof.
  unfold remind.
  destruct (truthy_due (Task.due task)); simpl; [|by split].
  destruct (Task.reminded task) eqn:Hr; simpl; [by split|].
  destruct (Date_getTime (default "" (Task.due task))) as [d|]; simpl; [|by split].
  destruct (_ && _) eqn:Hw.
  - apply andb_true_iff in Hw as [H1%Z.ltb_lt H2%Z.ltb_lt].
    split; [|done]. constructor; [|constructor]. simpl. split; [lia|done].
  - destruct (_ && _ && _); [|by split].
    destruct (String.eqb_spec (permission env) "granted") as [Hp|Hp]; simpl;
      [|by split].
    destruct (negb (Task.completed task)); [|by split].
    split; [|done]. constructor; [|constructor]. simpl. done.
Qed.

Lemma remind_again env task :
  remind env (fst (remind env task)) = (fst (remind env task), []).
Proof.
  destruct (remind_cases env task) as [Hc|Hc]; rewrite Hc.
  - destruct (remind_effects env task) as [_ He].
    rewrite (surjective_pairing (remind env task)), Hc.
    destruct (snd (remind env task)) as [|e effects]; [done|].
    destruct He as [He1 He2]; [done|]. congruence.
  - unfold remind. simpl. by destruct (negb (truthy_due (Task.due task))).
Qed.

(** X22.  What [scheduleReminders] logs: every timer it sets has a delay above
    zero and below 24 hours, it shows a notification at once only with the
    permission granted, and it logs at most one effect for a task, and
    none for a task that is reminded already. *)
Theorem scheduleReminders_effects (env : Env) (st : State) :
  ∃ new : list (list effect),
    log (snd (scheduleReminders env st)) = log st ++ concat new
    ∧ Forall2 (λ task effects,
                 Forall (reminder_effect env) effects
                 ∧ (length effects ≤ 1)%nat
                 ∧ (Task.reminded task = true → effects = []))
              (tasks st) new.
Proof.
  unfold scheduleReminders. destruct (Notification_in_window env); simpl.
  - exists (map snd (map (remind env) (tasks st))). split; [done|].
    rewrite map_map. apply Forall2_fmap_r, Forall_Forall2_diag, Forall_forall.
    intros task _. destruct (remind_effects env task) as [H1 H2].
    split; [done|]. split.
    + unfold remind. destruct (_ || _); [simpl; lia|].
      destruct (match _ with Some _ => _ | None => _ end); [simpl; lia|].
      destruct (match _ with Some _ => _ | None => _ end); [|simpl; lia].
      destruct (_ && _); simpl; lia.
    + intros Hr. destruct (snd (remind env task)) eqn:Hs; [done|].
      destruct H2 as [H2 _]; congruence.
  - exists (map (λ _, []) (tasks st)). split.
    + assert (concat (map (λ _ : Task, @nil effect) (tasks st)) = []) as ->;
        [|by rewrite app_nil_r].
      induction (tasks st); simpl; done.
    + apply Forall2_fmap_r, Forall_Forall2_diag, Forall_forall.
      intros task _. repeat split; [constructor|simpl; lia].
Qed.

(** X23.  A second [scheduleReminders] at the same time does nothing: the tasks
    reminded by the first are marked, and it neither changes the store
    nor logs an effect. *)
Theorem scheduleReminders_twice (env : Env) (st : State) :
  scheduleReminders env (snd (scheduleReminders env st))
  = (Normal tt, snd (scheduleReminders env st)).
Proof.
  unfold scheduleReminders. destruct (Notification_in_window env); simpl; [|done].
  f_equal. rewrite !map_map.
  assert (map (λ x, fst (remind env (fst (remind env x)))) (tasks st)
          = map (λ x, fst (remind env x)) (tasks st)) as ->.
  { apply map_ext. intros t. by rewrite remind_again. }
  assert (concat (map (λ x, snd (remind env (fst (remind env x)))) (tasks st)) = [])
    as ->; [|by rewrite app_nil_r].
  induction (tasks st) as [|t l IH]; simpl; [done|].
  by rewrite remind_again, IH.
Qed.
(** ** The theme *)

(** X24.  The theme chosen with the button is the theme after a reload: on a
    page that finds in storage what the click handler has put there,
    [initTheme] sets the class of the body and the text of the button as
    the click left them, whatever the system prefers and whatever the class
    of the body was. *)
Theorem initTheme_after_click (prefers_dark : bool) (page reloaded : Theme) :
  stored_theme reloaded = stored_theme (themeToggle_click page) →
  initTheme prefers_dark reloaded = themeToggle_click page.
Proof.
  intros Hs. unfold initTheme. rewrite Hs. unfold themeToggle_click. simpl.
  by destruct (body_dark page).
Qed.

Lemma initTheme_after_click_witness :
  initTheme false
    {| body_dark := false; themeToggle_textContent := Moon;
       stored_theme := Some "dark" |}
  = themeToggle_click
      {| body_dark := false; themeToggle_textContent := Moon; stored_theme := None |}.
Proof.
  apply (initTheme_after_click false
           {| body_dark := false; themeToggle_textContent := Moon;
              stored_theme := None |}
           {| body_dark := false; themeToggle_textContent := Moon;
              stored_theme := Some "dark" |}).
  reflexivity.
Defined.
(** ** Ids *)

Lemma digit36_inj d1 d2 :
  0 ≤ d1 < 36 → 0 ≤ d2 < 36 → digit36 d1 = digit36 d2 → d1 = d2.
Proof.
  intros H1 H2 He. apply (f_equal nat_of_ascii) in He. revert He.
  unfold digit36.
  destruct (Z.ltb_spec d1 10), (Z.ltb_spec d2 10);
    rewrite !nat_ascii_embedding by lia; lia.
Qed.

Lemma to_radix36_length_ge fuel n acc :
  (S (String.length acc) ≤ String.length (to_radix36 fuel n acc))%nat.
Proof.
  revert n acc. induction fuel as [|fuel IH]; intros n acc; simpl; [lia|].
  destruct (n / 36 =? 0); simpl; [lia|].
  etrans; [|apply IH]. simpl. lia.
Qed.

Lemma String_inj_36 a b acc1 acc2 :
  0 ≤ a → 0 ≤ b → a / 36 = b / 36 →
  String (digit36 (a mod 36)) acc1 = String (digit36 (b mod 36)) acc2 →
  a = b ∧ acc1 = acc2.
Proof.
  intros Ha Hb Hq He. injection He as Hd ->. split; [|done].
  apply digit36_inj in Hd; [|by apply Z.mod_pos_bound..].
  rewrite (Z.div_mod a 36), (Z.div_mod b 36) by lia. by rewrite Hq, Hd.
Qed.

Lemma div36_range n (fuel : nat) :
  0 ≤ n < 36 ^ (Z.of_nat (S fuel) + 1) → 0 ≤ n / 36 < 36 ^ (Z.of_nat fuel + 1).
Proof.
  intros [H0 H1]. split; [by apply Z.div_pos|].
  apply Z.div_lt_upper_bound; [lia|].
  replace (Z.of_nat (S fuel) + 1) with (Z.succ (Z.of_nat fuel + 1)) in H1 by lia.
  by rewrite Z.pow_succ_r in H1 by lia.
Qed.

Lemma to_radix36_inj fuel1 fuel2 a b acc1 acc2 :
  0 ≤ a < 36 ^ (Z.of_nat fuel1 + 1) → 0 ≤ b < 36 ^ (Z.of_nat fuel2 + 1) →
  String.length acc1 = String.length acc2 →
  to_radix36 fuel1 a acc1 = to_radix36 fuel2 b acc2 →
  a = b ∧ acc1 = acc2.
Proof.
  revert fuel2 a b acc1 acc2.
  assert (∀ n, 0 ≤ n < 36 ^ (Z.of_nat 0 + 1) → n / 36 = 0) as Hsmall.
  { intros n Hn. apply Z.div_small. simpl in Hn. lia. }
  assert (∀ fuel n acc acc' c c',
            String.length acc' = String.length acc →
            String c acc' ≠ to_radix36 fuel n (String c' acc))
    as Hlen.
  { intros fuel n acc acc' c c' Hl He. apply (f_equal String.length) in He.
    pose proof (to_radix36_length_ge fuel n (String c' acc)).
    simpl in *. lia. }
  induction fuel1 as [|fuel1 IH]; intros [|fuel2] a b acc1 acc2 Ha Hb Hl; simpl.
  - apply String_inj_36; [lia..|]. by rewrite !Hsmall.
  - destruct (Z.eqb_spec (b / 36) 0) as [Hq|Hq].
    + apply String_inj_36; [lia..|]. by rewrite Hsmall, Hq.
    + intros He. destruct (Hlen _ _ _ _ _ _ Hl He).
  - destruct (Z.eqb_spec (a / 36) 0) as [Hq|Hq].
    + apply String_inj_36; [lia..|]. by rewrite Hq, Hsmall.
    + intros He. symmetry in He. destruct (Hlen _ _ _ _ _ _ (eq_sym Hl) He).
  - destruct (Z.eqb_spec (a / 36) 0) as [Hq|Hq],
             (Z.eqb_spec (b / 36) 0) as [Hq'|Hq'].
    + apply String_inj_36; [lia..|]. by rewrite Hq, Hq'.
    + intros He. destruct (Hlen _ _ _ _ _ _ Hl He).
    + intros He. symmetry in He. destruct (Hlen _ _ _ _ _ _ (eq_sym Hl) He).
    + intros He.
      apply IH in He as [He1 He2];
        [|by apply div36_range|by apply div36_range|simpl; lia].
      by apply String_inj_36; [lia..| |].
Qed.

Lemma toString36_fuel n : 0 ≤ n → 0 ≤ n < 36 ^ (Z.of_nat (Z.to_nat (Z.log2 n)) + 1).
Proof.
  intros Hn. split; [done|]. rewrite Z2Nat.id by apply Z.log2_nonneg.
  destruct (decide (n = 0)) as [->|Hne]; [done|].
  destruct (Z.log2_spec n) as [_ H]; [lia|].
  eapply Z.lt_le_trans; [exact H|].
  apply Z.pow_le_mono_l. pose proof (Z.log2_nonneg n). lia.
Qed.

Lemma toString36_inj a b : 0 ≤ a → 0 ≤ b → toString36 a = toString36 b → a = b.
Proof.
  intros Ha Hb. unfold toString36.
  rewrite (proj2 (Z.ltb_ge a 0)), (proj2 (Z.ltb_ge b 0)) by lia.
  intros He. by apply to_radix36_inj in He as [? _]; [|apply toString36_fuel..|].
Qed.

Lemma to_radix36_length (k fuel : nat) n acc :
  36 ^ Z.of_nat k ≤ n < 36 ^ (Z.of_nat k + 1) → (k ≤ fuel)%nat →
  String.length (to_radix36 fuel n acc) = (k + 1 + String.length acc)%nat.
Proof.
  revert fuel n acc. induction k as [|k IH]; intros fuel n acc Hn Hf.
  - assert (n / 36 = 0) as Hq by (apply Z.div_small; simpl in Hn; lia).
    destruct fuel; simpl; [done|]. by rewrite Hq.
  - destruct fuel as [|fuel]; [lia|]. simpl to_radix36.
    replace (Z.of_nat (S k)) with (Z.succ (Z.of_nat k)) in Hn by lia.
    replace (Z.succ (Z.of_nat k) + 1) with (Z.succ (Z.of_nat k + 1)) in Hn by lia.
    rewrite !Z.pow_succ_r in Hn by lia.
    assert (36 ^ Z.of_nat k ≤ n / 36 < 36 ^ (Z.of_nat k + 1)) as Hq.
    { split; [apply Z.div_le_lower_bound; lia|apply Z.div_lt_upper_bound; lia]. }
    assert (0 < 36 ^ Z.of_nat k) by (apply Z.pow_pos_nonneg; lia).
    destruct (Z.eqb_spec (n / 36) 0) as [Hz|_]; [lia|].
    rewrite IH by (done || lia). simpl. lia.
Qed.

Lemma toString36_length (k : nat) n :
  36 ^ Z.of_nat k ≤ n < 36 ^ (Z.of_nat k + 1) →
  String.length (toString36 n) = (k + 1)%nat.
Proof.
  intros Hn. assert (0 < 36 ^ Z.of_nat k) by (apply Z.pow_pos_nonneg; lia).
  unfold toString36. rewrite (proj2 (Z.ltb_ge n 0)) by lia.
  rewrite (to_radix36_length k); [simpl; lia|done|].
  apply Nat2Z.inj_le. rewrite Z2Nat.id by apply Z.log2_nonneg.
  apply Z.log2_le_pow2; [lia|].
  etrans; [|apply Hn]. apply Z.pow_le_mono_l. lia.
Qed.

Lemma string_app_inj_length (s1 s2 r1 r2 : string) :
  String.length s1 = String.length s2 → s1 +:+ r1 = s2 +:+ r2 → s1 = s2.
Proof.
  revert s2. induction s1 as [|c s1 IH]; intros [|c' s2]; simpl; try done.
  intros Hl He. injection Hl as Hl. injection He as -> He. f_equal. by apply IH.
Qed.

(** X25.  Two tasks added at different times get different ids, as long as the
    two readings of the clock have the same number of digits in base 36,
    as any two times between 1972 and 2059 have: the ids begin with the
    clock in base 36. *)
Theorem uid_distinct_times (env1 env2 : Env) (k : nat) :
  36 ^ Z.of_nat k ≤ now env1 < 36 ^ (Z.of_nat k + 1) →
  36 ^ Z.of_nat k ≤ now env2 < 36 ^ (Z.of_nat k + 1) →
  now env1 ≠ now env2 →
  uid env1 ≠ uid env2.
Proof.
  intros H1 H2 Hne He. apply Hne.
  assert (0 < 36 ^ Z.of_nat k) by (apply Z.pow_pos_nonneg; lia).
  apply toString36_inj; [lia..|].
  apply (string_app_inj_length _ _ _ _ ) in He; [done|].
  by rewrite !(toString36_length k).
Qed.

Lemma uid_distinct_times_witness :
  uid sample_env ≠ uid env_without_notifications.
Proof.
  apply (uid_distinct_times sample_env env_without_notifications 7);
    vm_compute; try done.
  all: split; intros H; discriminate H.
Defined.

(** ** Saving and loading *)

Ltac char_cases H :=
  repeat (apply elem_of_cons in H as [->|H]); [..|by apply elem_of_nil in H].

(** *** Strings *)

Lemma json_string_unit c tail :
  json_string (QuoteJSONString_unit c ++ tail)
  = '(us, r) ← json_string tail; Some (N_of_ascii c :: us, r).
Proof.
  destruct c as [[] [] [] [] [] [] [] []]; reflexivity.
Qed.

Lemma json_string_quoted cs rest :
  json_string (flat_map QuoteJSONString_unit cs ++ double_quote :: rest)
  = Some (map N_of_ascii cs, rest).
Proof.
  induction cs as [|c cs IH]; [reflexivity|].
  simpl flat_map. rewrite <- app_assoc, json_string_unit, IH. reflexivity.
Qed.

Lemma QuoteJSONString_app s rest :
  QuoteJSONString s ++ rest
  = double_quote
      :: flat_map QuoteJSONString_unit (String.list_ascii_of_string s)
      ++ double_quote :: rest.
Proof. unfold QuoteJSONString. simpl. by rewrite <- app_assoc. Qed.

Lemma json_value_quote fuel r :
  json_value (S fuel) (double_quote :: r)
  = '(us, r') ← json_string r; Some (JString us, r').
Proof. reflexivity. Qed.

Lemma parses_string s : parses (QuoteJSONString s) (JString (units s)).
Proof.
  split; [by eexists _, _|].
  intros fuel rest Hf _. destruct fuel as [|fuel]; [simpl in Hf; lia|].
  rewrite QuoteJSONString_app, json_value_quote, json_string_quoted. reflexivity.
Qed.

(** *** Literals *)

Lemma parses_null : parses (String.list_ascii_of_string "null") JNull.
Proof.
  split; [by eexists _, _|].
  intros fuel rest Hf _. destruct fuel as [|fuel]; [simpl in Hf; lia|]. reflexivity.
Qed.

Lemma parses_boolean b : parses (boolean_text b) (JBool b).
Proof.
  split; [destruct b; by eexists _, _|].
  intros fuel rest Hf _. destruct fuel as [|fuel]; [destruct b; simpl in Hf; lia|].
  by destruct b.
Qed.

Example JSON_stringify_example :
  JSON_stringify [two_subtasks]
  = String.string_of_list_ascii
      (String.list_ascii_of_string "[{" ++ QuoteJSONString "id" ++ String.list_ascii_of_string ":"
       ++ QuoteJSONString "t1" ++ String.list_ascii_of_string ","
       ++ QuoteJSONString "text" ++ String.list_ascii_of_string ":"
       ++ QuoteJSONString "Report" ++ String.list_ascii_of_string ","
       ++ QuoteJSONString "category" ++ String.list_ascii_of_string ":"
       ++ QuoteJSONString "Work" ++ String.list_ascii_of_string ","
       ++ QuoteJSONString "priority" ++ String.list_ascii_of_string ":"
       ++ QuoteJSONString "High" ++ String.list_ascii_of_string ","
       ++ QuoteJSONString "due" ++ String.list_ascii_of_string ":null,"
       ++ QuoteJSONString "created" ++ String.list_ascii_of_string ":0,"
       ++ QuoteJSONString "completed" ++ String.list_ascii_of_string ":false,"
       ++ QuoteJSONString "subtasks" ++ String.list_ascii_of_string ":[{"
       ++ QuoteJSONString "text" ++ String.list_ascii_of_string ":"
       ++ QuoteJSONString "A" ++ String.list_ascii_of_string ","
       ++ QuoteJSONString "done" ++ String.list_ascii_of_string ":false},{"
       ++ QuoteJSONString "text" ++ String.list_ascii_of_string ":"
       ++ QuoteJSONString "B" ++ String.list_ascii_of_string ","
       ++ QuoteJSONString "done" ++ String.list_ascii_of_string ":false}],"
       ++ QuoteJSONString "reminded" ++ String.list_ascii_of_string ":false}]").
Proof. vm_compute. reflexivity. Qed.

Example Number_toString_examples :
  Number_toString 0 = ["0"]%char
  ∧ Number_toString 1736467200000 = String.list_ascii_of_string "1736467200000"
  ∧ Number_toString (-42) = String.list_ascii_of_string "-42"
  ∧ QuoteJSONString_unit (ascii_of_nat 31) = String.list_ascii_of_string "\u001f"
  ∧ load (save [two_subtasks; due_2025_01_10])
    = JArray [task_value two_subtasks; task_value due_2025_01_10].
Proof. vm_compute. repeat split. Qed.

(** *** Numbers *)

Lemma decimal_digit_value d :
  0 ≤ d < 10 → digit_value (ascii_of_nat (Z.to_nat (48 + d))) = Some d.
Proof.
  intros Hd. unfold digit_value. rewrite nat_ascii_embedding by lia.
  replace (Nat.leb 48 (Z.to_nat (48 + d))) with true
    by (symmetry; apply Nat.leb_le; lia).
  replace (Nat.leb (Z.to_nat (48 + d)) 57) with true
    by (symmetry; apply Nat.leb_le; lia).
  simpl. f_equal. lia.
Qed.

Lemma to_decimal_digits fuel n acc :
  Forall (λ c, is_Some (digit_value c)) acc →
  Forall (λ c, is_Some (digit_value c)) (to_decimal fuel n acc).
Proof.
  revert n acc. induction fuel as [|fuel IH]; intros n acc Hacc; simpl.
  - constructor; [|done]. rewrite decimal_digit_value; [done|].
    by apply Z.mod_pos_bound.
  - assert (Forall (λ c, is_Some (digit_value c))
              (ascii_of_nat (Z.to_nat (48 + n mod 10)) :: acc)) as H.
    { constructor; [|done]. rewrite decimal_digit_value; [done|].
      by apply Z.mod_pos_bound. }
    destruct (n / 10 =? 0); [done|]. by apply IH.
Qed.

Lemma to_decimal_head fuel n acc :
  0 < n < 10 ^ (Z.of_nat fuel + 1) →
  ∃ c t, to_decimal fuel n acc = c :: t ∧ c ≠ "0"%char.
Proof.
  assert (∀ n, 0 < n < 10 → ascii_of_nat (Z.to_nat (48 + n mod 10)) ≠ "0"%char)
    as Hsmall.
  { intros m Hm He. apply (f_equal nat_of_ascii) in He.
    rewrite Z.mod_small in He by lia.
    rewrite nat_ascii_embedding in He by lia.
    change (nat_of_ascii "0") with 48%nat in He. lia. }
  revert n acc. induction fuel as [|fuel IH]; intros n acc Hn; simpl.
  - eexists _, _. split; [done|]. apply Hsmall.
    change (10 ^ (Z.of_nat 0 + 1)) with 10 in Hn. lia.
  - destruct (Z.eqb_spec (n / 10) 0) as [Hq|Hq].
    + eexists _, _. split; [done|]. apply Hsmall.
      destruct (Z.lt_ge_cases n 10) as [?|Hge]; [lia|].
      apply (Z.div_le_mono _ _ 10) in Hge; [|lia].
      change (10 / 10) with 1 in Hge. lia.
    + apply IH. split.
      * assert (0 ≤ n / 10) by (apply Z.div_pos; lia). lia.
      * apply Z.div_lt_upper_bound; [lia|].
        replace (Z.of_nat (S fuel) + 1) with (Z.succ (Z.of_nat fuel + 1)) in Hn
          by lia.
        rewrite Z.pow_succ_r in Hn by lia. lia.
Qed.

Lemma decimal_fuel n : 0 < n → 0 < n < 10 ^ (Z.of_nat (Z.to_nat (Z.log2 n)) + 1).
Proof.
  intros Hn. split; [done|]. rewrite Z2Nat.id by apply Z.log2_nonneg.
  destruct (Z.log2_spec n Hn) as [_ H].
  eapply Z.lt_le_trans; [exact H|].
  apply Z.pow_le_mono_l. pose proof (Z.log2_nonneg n). lia.
Qed.

Lemma ends_value_cases rest :
  ends_value rest = true →
  rest = [] ∨ ∃ r, rest = ","%char :: r ∨ rest = "]"%char :: r ∨ rest = "}"%char :: r.
Proof.
  destruct rest as [|c r]; [by left|]. simpl. intros Hr. right. exists r.
  destruct (Ascii.eqb_spec c ",") as [->|_]; [by left|].
  destruct (Ascii.eqb_spec c "]") as [->|_]; [by right; left|].
  destruct (Ascii.eqb_spec c "}") as [->|_]; [by right; right|]. done.
Qed.

Lemma span_digits_app ds rest :
  Forall (λ c, is_Some (digit_value c)) ds → ends_value rest = true →
  span_digits (ds ++ rest) = (ds, rest).
Proof.
  intros Hd Hr. induction Hd as [|c ds [d Hc] _ IH]; simpl.
  - by destruct (ends_value_cases rest Hr) as [->|(r & [->|[->| ->]])].
  - by rewrite Hc, IH.
Qed.

Lemma json_number_digits (negative : bool) ds rest :
  ds ≠ [] → Forall (λ c, is_Some (digit_value c)) ds →
  (ds = ["0"%char] ∨ ∃ c t, ds = c :: t ∧ c ≠ "0"%char) →
  ends_value rest = true →
  json_number ((if negative then ["-"%char] else []) ++ ds ++ rest)
  = Some (String.string_of_list_ascii ((if negative then ["-"%char] else []) ++ ds),
          rest).
Proof.
  intros Hne Hd Hz Hr.
  destruct ds as [|c t]; [done|]. apply Forall_cons in Hd as [Hc Hd].
  pose proof (span_digits_app t rest Hd Hr) as Hspan.
  assert (c = "0"%char → t = []) as Hzero.
  { intros ->. destruct Hz as [Hz|(c' & t' & Hz & Hz')]; congruence. }
  apply digit_cases in Hc. unfold json_number.
  destruct (ends_value_cases rest Hr) as [->|(r & [->|[->| ->]])];
    destruct negative; char_cases Hc; simpl; rewrite Hspan;
    try rewrite (Hzero eq_refl); simpl; rewrite ?app_nil_r; reflexivity.
Qed.

Lemma json_value_number fuel c r :
  is_Some (digit_value c) ∨ c = "-"%char →
  json_value (S fuel) (c :: r)
  = '(lit, r') ← json_number (c :: r); Some (JNumber lit, r').
Proof.
  intros [Hc%digit_cases| ->]; [char_cases Hc|]; reflexivity.
Qed.

Lemma Number_toString_shape n :
  ∃ (negative : bool) ds,
    Number_toString n = (if negative then ["-"%char] else []) ++ ds
    ∧ ds ≠ [] ∧ Forall (λ c, is_Some (digit_value c)) ds
    ∧ (ds = ["0"%char] ∨ ∃ c t, ds = c :: t ∧ c ≠ "0"%char).
Proof.
  unfold Number_toString.
  assert (∀ fuel m acc, to_decimal fuel m acc ≠ []) as Hnil.
  { intros fuel. induction fuel as [|fuel IH]; intros m acc; simpl; [done|].
    destruct (m / 10 =? 0); [done|apply IH]. }
  assert (∀ m, 0 ≤ m →
               let ds := to_decimal (Z.to_nat (Z.log2 m)) m [] in
               ds ≠ [] ∧ Forall (λ c, is_Some (digit_value c)) ds
               ∧ (ds = ["0"%char] ∨ ∃ c t, ds = c :: t ∧ c ≠ "0"%char)) as H.
  { intros m Hm. cbv zeta. split; [apply Hnil|split].
    - by apply to_decimal_digits.
    - destruct (decide (m = 0)) as [->|Hne]; [by left|].
      right. apply to_decimal_head, decimal_fuel. lia. }
  destruct (Z.ltb_spec n 0).
  - exists true. eexists. split; [reflexivity|]. apply H. lia.
  - exists false. eexists. split; [reflexivity|]. by apply H.
Qed.

Lemma parses_number n :
  parses (Number_toString n)
         (JNumber (String.string_of_list_ascii (Number_toString n))).
Proof.
  destruct (Number_toString_shape n) as (negative & ds & -> & Hne & Hd & Hz).
  destruct ds as [|c t]; [done|].
  assert (is_Some (digit_value c)) as Hc by (by apply Forall_cons in Hd as [? _]).
  split.
  - destruct negative; [by eexists _, _|]. exists c, t. split; [done|].
    unfold begins_value. destruct Hc as [d ->]. by rewrite !orb_true_r.
  - intros fuel rest Hf Hr. destruct fuel as [|fuel];
      [destruct negative; simpl in Hf; lia|].
    rewrite <- app_assoc.
    pose proof (json_number_digits negative (c :: t) rest Hne Hd Hz Hr) as Hj.
    destruct negative; cbn [app] in *; rewrite json_value_number by auto;
      by rewrite Hj.
Qed.

(** *** Arrays and objects *)

Lemma skip_ws_ends rest : ends_value rest = true → skip_ws rest = rest.
Proof.
  intros Hr. by destruct (ends_value_cases rest Hr) as [->|(r & [->|[->| ->]])].
Qed.

Lemma json_value_array_nonempty fuel c t :
  begins_value c = true →
  json_value (S fuel) ("["%char :: c :: t)
  = '(vs, r') ← json_elements fuel (c :: t); Some (JArray vs, r').
Proof.
  destruct c as [[] [] [] [] [] [] [] []]; intros H; try discriminate H; reflexivity.
Qed.

Lemma json_elements_S fuel cs :
  json_elements (S fuel) cs
  = '(v, r) ← json_value fuel cs;
    match skip_ws r with
    | ","%char :: r' => '(vs, r'') ← json_elements fuel r'; Some (v :: vs, r'')
    | "]"%char :: r' => Some ([v], r')
    | _ => None
    end.
Proof. reflexivity. Qed.

Lemma json_elements_join es :
  ∀ vs e v fuel rest,
    parses e v → Forall2 parses es vs →
    (length (e ++ flat_map (λ x, ","%char :: x) es) + 1 ≤ fuel)%nat →
    json_elements fuel (e ++ flat_map (λ x, ","%char :: x) es ++ "]"%char :: rest)
    = Some (v :: vs, rest).
Proof.
  induction es as [|e2 es IH]; intros vs e v fuel rest He Hes Hf;
    (destruct fuel as [|fuel]; [lia|]); rewrite json_elements_S.
  - apply Forall2_nil_inv_l in Hes as ->. simpl in *. rewrite length_app in Hf.
    destruct He as [_ He]. rewrite He by (done || simpl in *; lia). reflexivity.
  - apply Forall2_cons_inv_l in Hes as (v2 & vs' & H2 & Hes & ->).
    simpl flat_map in *. rewrite !length_app in Hf. simpl in Hf.
    rewrite length_app in Hf.
    pose proof He as [_ He'].
    cbn [flat_map app]. rewrite <- app_assoc.
    rewrite He' by (done || lia). simpl.
    rewrite (IH vs' e2 v2); [done|done|done|].
    rewrite length_app. simpl in *. lia.
Qed.

Lemma parses_array es vs :
  Forall2 parses es vs → parses (SerializeJSONArray es) (JArray vs).
Proof.
  intros H. split; [destruct es; by eexists _, _|].
  intros fuel rest Hf Hr. destruct H as [|e v es vs He Hes].
  - destruct fuel as [|fuel]; [simpl in Hf; lia|]. reflexivity.
  - destruct fuel as [|fuel]; [simpl in Hf; lia|].
    pose proof He as [(c & t & Hc & Hb) _].
    unfold SerializeJSONArray. rewrite <- app_comm_cons, <- !app_assoc.
    rewrite Hc at 1. rewrite <- app_comm_cons.
    rewrite json_value_array_nonempty by done.
    rewrite app_comm_cons, <- Hc.
    change (["]"%char] ++ rest) with ("]"%char :: rest).
    rewrite (json_elements_join es vs e v); [done|done|done|].
    simpl in Hf. rewrite !length_app in *. simpl in Hf. lia.
Qed.

Lemma json_value_object fuel r :
  json_value (S fuel) ("{"%char :: double_quote :: r)
  = '(ms, r') ← json_members fuel (double_quote :: r); Some (JObject ms, r').
Proof. reflexivity. Qed.

Lemma json_members_S fuel r :
  json_members (S fuel) (double_quote :: r)
  = '(k, r1) ← json_string r;
    match skip_ws r1 with
    | ":"%char :: r2 =>
        '(v, r3) ← json_value fuel r2;
        match skip_ws r3 with
        | ","%char :: r4 =>
            '(ms, r5) ← json_members fuel r4; Some ((k, v) :: ms, r5)
        | "}"%char :: r4 => Some ([(k, v)], r4)
        | _ => None
        end
    | _ => None
    end.
Proof. reflexivity. Qed.

Lemma member_text_app m rest :
  member_text m ++ rest
  = double_quote
      :: flat_map QuoteJSONString_unit (String.list_ascii_of_string (fst m))
      ++ double_quote :: ":"%char :: snd m ++ rest.
Proof.
  unfold member_text. rewrite <- app_assoc, QuoteJSONString_app.
  by rewrite <- app_comm_cons.
Qed.

Lemma json_members_join ms :
  ∀ kvs m kv fuel rest,
    member_parses m kv → Forall2 member_parses ms kvs →
    (length (member_text m ++ flat_map (λ x, ","%char :: member_text x) ms) + 1
     ≤ fuel)%nat →
    json_members fuel
      (member_text m ++ flat_map (λ x, ","%char :: member_text x) ms
       ++ "}"%char :: rest)
    = Some (kv :: kvs, rest).
Proof.
  induction ms as [|m2 ms IH]; intros kvs m [k v] fuel rest [Hk Hv] Hms Hf;
    (destruct fuel as [|fuel]; [lia|]); simpl in Hk; subst k;
    destruct Hv as [_ Hv].
  - apply Forall2_nil_inv_l in Hms as ->. cbn [flat_map app] in *.
    rewrite app_nil_r in Hf. unfold member_text in Hf. rewrite length_app in Hf.
    simpl in Hf.
    rewrite member_text_app, json_members_S, json_string_quoted. simpl.
    rewrite Hv by (done || lia). reflexivity.
  - apply Forall2_cons_inv_l in Hms as (kv2 & kvs' & H2 & Hms & ->).
    cbn [flat_map app] in *. rewrite <- app_assoc.
    rewrite !length_app in Hf. unfold member_text at 1 in Hf.
    rewrite length_app in Hf. simpl in Hf. rewrite length_app in Hf.
    set (tail := member_text m2 ++ _ ++ "}"%char :: rest).
    rewrite member_text_app, json_members_S, json_string_quoted. simpl.
    rewrite Hv by (done || lia). simpl. subst tail.
    rewrite (IH kvs' m2 kv2); [done|done|done|]. clear IH Hv.
    unfold member_text, QuoteJSONString in *. simpl in *.
    repeat (rewrite !length_app in *; simpl in * ). lia.
Qed.

Lemma parses_object ms kvs :
  Forall2 member_parses ms kvs → parses (SerializeJSONObject ms) (JObject kvs).
Proof.
  intros H. split; [destruct ms; by eexists _, _|].
  intros fuel rest Hf Hr. destruct H as [|m kv ms kvs Hm Hms].
  - destruct fuel as [|fuel]; [simpl in Hf; lia|]. reflexivity.
  - destruct fuel as [|fuel]; [simpl in Hf; lia|].
    unfold SerializeJSONObject. cbn [app]. rewrite <- !app_assoc. cbn [app].
    set (tail := flat_map _ ms ++ "}"%char :: rest).
    rewrite member_text_app, json_value_object, <- member_text_app. subst tail.
    rewrite (json_members_join ms kvs m kv fuel rest Hm Hms); [done|].
    unfold SerializeJSONObject in Hf. cbn [length] in Hf.
    rewrite !length_app in *. cbn [length] in Hf. lia.
Qed.

(** *** Tasks *)

Lemma parses_subtask s : parses (stringify_subtask s) (subtask_value s).
Proof.
  apply parses_object.
  constructor; [split; [reflexivity|apply parses_string]|].
  constructor; [split; [reflexivity|apply parses_boolean]|].
  constructor.
Qed.

Lemma parses_task t : parses (stringify_task t) (task_value t).
Proof.
  apply parses_object.
  constructor; [split; [reflexivity|apply parses_string]|].
  constructor; [split; [reflexivity|apply parses_string]|].
  constructor; [split; [reflexivity|apply parses_string]|].
  constructor; [split; [reflexivity|apply parses_string]|].
  constructor;
    [split; [reflexivity|destruct (Task.due t); [apply parses_string|apply parses_null]]|].
  constructor; [split; [reflexivity|apply parses_number]|].
  constructor; [split; [reflexivity|apply parses_boolean]|].
  constructor; [split; [reflexivity|]|].
  { apply parses_array, Forall2_fmap, Forall_Forall2_diag, Forall_forall.
    intros s _. apply parses_subtask. }
  constructor; [split; [reflexivity|apply parses_boolean]|].
  constructor.
Qed.

Lemma JSON_parse_stringify l :
  JSON_parse (JSON_stringify l) = Some (JArray (map task_value l)).
Proof.
  unfold JSON_parse, JSON_stringify.
  rewrite String.list_ascii_of_string_of_list_ascii.
  assert (parses (SerializeJSONArray (map stringify_task l))
                 (JArray (map task_value l))) as [_ H].
  { apply parses_array, Forall2_fmap, Forall_Forall2_diag, Forall_forall.
    intros t _. apply parses_task. }
  specialize (H (2 * length (SerializeJSONArray (map stringify_task l)) + 2)%nat []).
  rewrite app_nil_r in H. rewrite H; [done|lia|done].
Qed.

Lemma is_subtask_record_value s : is_subtask_record (subtask_value s) = true.
Proof. reflexivity. Qed.

Lemma is_task_record_value t : is_task_record (task_value t) = true.
Proof.
  assert (forallb is_subtask_record (map subtask_value (Task.subtasks t)) = true)
    as Hs.
  { induction (Task.subtasks t) as [|s l IH]; [done|]. simpl. by rewrite IH. }
  unfold is_task_record, task_value.
  destruct (Task.due t);
    change (own_property "subtasks" _)
      with (Some (JArray (map subtask_value (Task.subtasks t))));
    cbv beta iota; vm_compute own_property; cbv beta iota; by rewrite Hs.
Qed.

Lemma load_save l : load (save l) = JArray (map task_value l).
Proof.
  unfold load, save.
  assert (truthy (JSON_stringify l) = true) as ->.
  { unfold JSON_stringify. by destruct (map stringify_task l). }
  by rewrite JSON_parse_stringify.
Qed.

(** X26.  What is saved is what is loaded: [load] after [save] leaves in [tasks]
    an array with one object for every task of the store, in the order of
    the store, each with the nine properties of the task and with the
    values they had, and that value is a well-formed sequence of tasks.
    The creation times are integers that a number holds exactly. *)
Theorem load_after_save (l : list Task) :
  Forall (λ t, - 2 ^ 53 ≤ Task.created t ≤ 2 ^ 53) l →
  load (save l) = JArray (map task_value l)
  ∧ is_task_sequence (load (save l)) = true.
Proof.
  intros _. rewrite load_save. split; [done|]. simpl. apply forallb_forall.
  intros v (t & <- & _)%in_map_iff. apply is_task_record_value.
Qed.

Lemma load_after_save_witness :
  load (save [two_subtasks; due_2025_01_10])
  = JArray (map task_value [two_subtasks; due_2025_01_10])
  ∧ is_task_sequence (load (save [two_subtasks; due_2025_01_10])) = true.
Proof.
  apply (load_after_save [two_subtasks; due_2025_01_10]).
  apply Forall_cons. split; [simpl; lia|].
  apply Forall_cons. split; [simpl; lia|]. constructor.
Defined.

(** *** Nothing is lost *)

Lemma decimal_digit_inj d1 d2 :
  0 ≤ d1 < 10 → 0 ≤ d2 < 10 →
  ascii_of_nat (Z.to_nat (48 + d1)) = ascii_of_nat (Z.to_nat (48 + d2)) → d1 = d2.
Proof.
  intros H1 H2 He. apply (f_equal nat_of_ascii) in He.
  rewrite !nat_ascii_embedding in He by lia. lia.
Qed.

Lemma to_decimal_length_ge fuel n acc :
  (S (length acc) ≤ length (to_decimal fuel n acc))%nat.
Proof.
  revert n acc. induction fuel as [|fuel IH]; intros n acc; simpl; [lia|].
  destruct (n / 10 =? 0); simpl; [lia|].
  etrans; [|apply IH]. simpl. lia.
Qed.

Lemma cons_inj_10 a b (acc1 acc2 : list ascii) :
  0 ≤ a → 0 ≤ b → a / 10 = b / 10 →
  ascii_of_nat (Z.to_nat (48 + a mod 10)) :: acc1
  = ascii_of_nat (Z.to_nat (48 + b mod 10)) :: acc2 →
  a = b ∧ acc1 = acc2.
Proof.
  intros Ha Hb Hq He. injection He as Hd ->. split; [|done].
  apply decimal_digit_inj in Hd; [|by apply Z.mod_pos_bound..].
  rewrite (Z.div_mod a 10), (Z.div_mod b 10) by lia. by rewrite Hq, Hd.
Qed.

Lemma div10_range n (fuel : nat) :
  0 ≤ n < 10 ^ (Z.of_nat (S fuel) + 1) → 0 ≤ n / 10 < 10 ^ (Z.of_nat fuel + 1).
Proof.
  intros [H0 H1]. split; [by apply Z.div_pos|].
  apply Z.div_lt_upper_bound; [lia|].
  replace (Z.of_nat (S fuel) + 1) with (Z.succ (Z.of_nat fuel + 1)) in H1 by lia.
  by rewrite Z.pow_succ_r in H1 by lia.
Qed.

Lemma to_decimal_inj fuel1 fuel2 a b acc1 acc2 :
  0 ≤ a < 10 ^ (Z.of_nat fuel1 + 1) → 0 ≤ b < 10 ^ (Z.of_nat fuel2 + 1) →
  length acc1 = length acc2 →
  to_decimal fuel1 a acc1 = to_decimal fuel2 b acc2 →
  a = b ∧ acc1 = acc2.
Proof.
  revert fuel2 a b acc1 acc2.
  assert (∀ n, 0 ≤ n < 10 ^ (Z.of_nat 0 + 1) → n / 10 = 0) as Hsmall.
  { intros n Hn. apply Z.div_small. change (10 ^ (Z.of_nat 0 + 1)) with 10 in Hn. lia. }
  assert (∀ fuel n (acc acc' : list ascii) c c',
            length acc' = length acc → c :: acc' ≠ to_decimal fuel n (c' :: acc))
    as Hlen.
  { intros fuel n acc acc' c c' Hl He. apply (f_equal length) in He.
    pose proof (to_decimal_length_ge fuel n (c' :: acc)).
    simpl in *. lia. }
  induction fuel1 as [|fuel1 IH]; intros [|fuel2] a b acc1 acc2 Ha Hb Hl; simpl.
  - apply cons_inj_10; [lia..|]. by rewrite !Hsmall.
  - destruct (Z.eqb_spec (b / 10) 0) as [Hq|Hq].
    + apply cons_inj_10; [lia..|]. by rewrite Hsmall, Hq.
    + intros He. destruct (Hlen _ _ _ _ _ _ Hl He).
  - destruct (Z.eqb_spec (a / 10) 0) as [Hq|Hq].
    + apply cons_inj_10; [lia..|]. by rewrite Hq, Hsmall.
    + intros He. symmetry in He. destruct (Hlen _ _ _ _ _ _ (eq_sym Hl) He).
  - destruct (Z.eqb_spec (a / 10) 0) as [Hq|Hq],
             (Z.eqb_spec (b / 10) 0) as [Hq'|Hq'].
    + apply cons_inj_10; [lia..|]. by rewrite Hq, Hq'.
    + intros He. destruct (Hlen _ _ _ _ _ _ Hl He).
    + intros He. symmetry in He. destruct (Hlen _ _ _ _ _ _ (eq_sym Hl) He).
    + intros He.
      apply IH in He as [He1 He2];
        [|by apply div10_range|by apply div10_range|simpl; lia].
      by apply cons_inj_10; [lia..| |].
Qed.

Lemma decimal_fuel_0 n : 0 ≤ n → 0 ≤ n < 10 ^ (Z.of_nat (Z.to_nat (Z.log2 n)) + 1).
Proof.
  intros Hn. destruct (decide (n = 0)) as [->|Hne]; [done|].
  split; [done|]. apply decimal_fuel. lia.
Qed.

Lemma Number_toString_inj a b : Number_toString a = Number_toString b → a = b.
Proof.
  assert (∀ fuel m, ∃ c t, to_decimal fuel m [] = c :: t ∧ c ≠ "-"%char) as Hd.
  { intros fuel m.
    pose proof (to_decimal_digits fuel m [] (Forall_nil_2 _)) as H.
    pose proof (to_decimal_length_ge fuel m []) as Hl.
    destruct (to_decimal fuel m []) as [|c t]; [simpl in Hl; lia|].
    exists c, t. split; [done|].
    apply Forall_cons in H as [[d H] _]. by intros ->. }
  unfold Number_toString.
  destruct (Z.ltb_spec a 0), (Z.ltb_spec b 0); intros He.
  - injection He as He.
    apply to_decimal_inj in He as [He _]; [lia| | |done];
      apply decimal_fuel_0; lia.
  - destruct (Hd (Z.to_nat (Z.log2 b)) b) as (c & t & Hc & Hm). congruence.
  - destruct (Hd (Z.to_nat (Z.log2 a)) a) as (c & t & Hc & Hm). congruence.
  - by apply to_decimal_inj in He as [He _]; [| apply decimal_fuel_0..|].
Qed.

Lemma units_inj s1 s2 : units s1 = units s2 → s1 = s2.
Proof.
  unfold units. revert s2. induction s1 as [|c s1 IH]; intros [|c' s2]; simpl;
    try done.
  intros He. injection He as Hc He. f_equal; [|by apply IH].
  rewrite <- (ascii_N_embedding c), <- (ascii_N_embedding c'). by rewrite Hc.
Qed.

Lemma subtask_value_inj s1 s2 : subtask_value s1 = subtask_value s2 → s1 = s2.
Proof.
  unfold subtask_value. intros He. injection He as Ht%units_inj Hd.
  destruct s1, s2; simpl in *. by subst.
Qed.

Lemma map_inj {A B} (f : A → B) (l1 l2 : list A) :
  (∀ x y, f x = f y → x = y) → map f l1 = map f l2 → l1 = l2.
Proof.
  intros Hf. revert l2. induction l1 as [|x l1 IH]; intros [|y l2]; simpl; try done.
  intros He. injection He as Hx He. f_equal; [by apply Hf|by apply IH].
Qed.

Lemma task_value_inj t1 t2 : task_value t1 = task_value t2 → t1 = t2.
Proof.
  unfold task_value. intros He.
  injection He as Hid%units_inj Htext%units_inj Hcat%units_inj Hpri%units_inj
    Hdue Hcreated Hcompleted Hsubs Hreminded.
  apply (f_equal String.list_ascii_of_string) in Hcreated.
  rewrite !String.list_ascii_of_string_of_list_ascii in Hcreated.
  apply Number_toString_inj in Hcreated.
  apply (map_inj _ _ _ subtask_value_inj) in Hsubs.
  assert (Task.due t1 = Task.due t2) as Hd.
  { destruct (Task.due t1), (Task.due t2); try done.
    injection Hdue as Hdue%units_inj. by subst. }
  destruct t1, t2; simpl in *. by subst.
Qed.

(** X27.  Nothing is lost in storage: two stores that differ, in a task or in
    a field of a task, are loaded as different values after a [save]. *)
Theorem load_after_save_inj (l1 l2 : list Task) :
  Forall (λ t, - 2 ^ 53 ≤ Task.created t ≤ 2 ^ 53) l1 →
  Forall (λ t, - 2 ^ 53 ≤ Task.created t ≤ 2 ^ 53) l2 →
  l1 ≠ l2 → load (save l1) ≠ load (save l2).
Proof.
  intros H1 H2 Hne He. apply Hne.
  rewrite !load_save in He. injection He as He.
  by apply (map_inj _ _ _ task_value_inj).
Qed.

Lemma load_after_save_inj_witness :
  load (save [two_subtasks]) ≠ load (save [Task.set_completed true two_subtasks]).
Proof.
  apply (load_after_save_inj [two_subtasks] [Task.set_completed true two_subtasks]).
  - apply Forall_cons. split; [simpl; lia|constructor].
  - apply Forall_cons. split; [simpl; lia|constructor].
  - discriminate.
Defined.
